(** * Graphene library OS: PAL stream drivers and the IPC port manager

    A shallow embedding of
    - [Pal/src/host/Linux-SGX/db_eventfd.c] (the eventfd stream driver),
    - [db_object.c] (the PAL multi-wait primitive),
    - [db_threading.c] (delayed execution), and
    - [shim_ipc_helper.c] (the IPC port registry, the receive routine, the
      broadcast router and the helper state machine),
    followed by the properties established about them.

    Conventions.  C integers are [Z]; bit operations are [Z.land], [Z.lor],
    [Z.lnot].  Pointers are addresses in [Z] with [0] for [NULL]; objects
    that are shared through pointers live in a [gmap Z _] store.  Calls that
    leave the modelled files (host ocalls, callbacks, message sends) are
    recorded as events, and their answers come from an environment class. *)

From Stdlib Require Import ZArith Lia Bool String.
From stdpp Require Import base option list gmap.

Local Open Scope Z_scope.

(** ** PAL error kinds ([pal_error.h]; the functions return them negated) *)

Inductive pal_error : Type :=
| PAL_ERROR_NOTSUPPORT
| PAL_ERROR_INVAL
| PAL_ERROR_DENIED
| PAL_ERROR_BADHANDLE
| PAL_ERROR_INTERRUPTED
| PAL_ERROR_NOMEM
| PAL_ERROR_TRYAGAIN
| PAL_ERROR_NOTCONNECTION
| PAL_ERROR_OTHER (code : Z).

(** A PAL return value: a non-negative count, or [-PAL_ERROR_x]. *)
Inductive pal_ret : Type :=
| Ret (n : Z)
| Fail (e : pal_error).

(** Linux ABI constants used by the modelled files. *)
Definition POLLIN : Z := 1.
Definition POLLOUT : Z := 4.
Definition POLLERR : Z := 8.
Definition POLLHUP : Z := 16.
Definition EINTR : Z := 4.
Definition ECHILD : Z := 10.
Definition EAGAIN : Z := 11.
Definition ENOMEM : Z := 12.
Definition ECONNRESET : Z := 104.

(** [if (x & m)] *)
Definition tst (x m : Z) : bool := negb (Z.land x m =? 0).

(** ** db_eventfd.c *)

Module Eventfd.

Inductive handle_type : Type :=
| pal_type_eventfd
| pal_type_other (tag : Z).

Definition IS_HANDLE_TYPE_eventfd (t : handle_type) : bool :=
  match t with pal_type_eventfd => true | pal_type_other _ => false end.

(** The part of [PAL_HANDLE] the driver reads: the header and the
    [eventfd] member of the union. *)
Record PAL_HANDLE : Type := mkHandle {
  hdr_type : handle_type;
  hdr_flags : Z;
  eventfd_fd : Z;
  eventfd_nonblocking : bool
}.

Record PAL_STREAM_ATTR : Type := mkAttr {
  handle_type_ : handle_type;
  nonblocking : bool;
  disconnected : Z;
  pending_size : Z;
  readable : bool;
  writable : bool;
  no_of_fds : Z;
  fds0 : Z
}.

(** Calls into the untrusted host, in program order. *)
Inductive ocall : Type :=
| OcallRead (fd len : Z)
| OcallWrite (fd len : Z)
| OcallClose (fd : Z)
| OcallFionread (fd : Z)
| OcallPoll (fd events : Z).

(** What the driver takes from headers that are not part of the modelled
    file, and the host's answers to its ocalls. *)
Class Host : Type := {
  PAL_IDX_POISON : Z;
  ERROR0 : Z;                              (* ERROR(0) *)
  unix_to_pal_error : Z -> pal_error;
  ocall_read : Z -> Z -> Z;                (* fd, len: bytes or -errno *)
  ocall_write : Z -> Z -> Z;
  ocall_fionread : Z -> Z;
  ocall_poll : Z -> Z -> Z * Z             (* fd, events: ret, revents *)
}.

Definition sizeof_uint64_t : Z := 8.

Definition eventfd_pal_read `{Host} (handle : PAL_HANDLE) (offset len : Z)
  : pal_ret * list ocall :=
  if negb (offset =? 0) then (Fail PAL_ERROR_INVAL, [])
  else if negb (IS_HANDLE_TYPE_eventfd (hdr_type handle))
  then (Fail PAL_ERROR_NOTCONNECTION, [])
  else if len <? sizeof_uint64_t then (Fail PAL_ERROR_INVAL, [])
  else
    let bytes := ocall_read (eventfd_fd handle) len in
    let tr := [OcallRead (eventfd_fd handle) len] in
    if bytes <? 0 then (Fail (unix_to_pal_error bytes), tr)
    else (Ret bytes, tr).

Definition eventfd_pal_write `{Host} (handle : PAL_HANDLE) (offset len : Z)
  : pal_ret * list ocall :=
  if negb (offset =? 0) then (Fail PAL_ERROR_INVAL, [])
  else if negb (IS_HANDLE_TYPE_eventfd (hdr_type handle))
  then (Fail PAL_ERROR_NOTCONNECTION, [])
  else if len <? sizeof_uint64_t then (Fail PAL_ERROR_INVAL, [])
  else
    let bytes := ocall_write (eventfd_fd handle) len in
    let tr := [OcallWrite (eventfd_fd handle) len] in
    if bytes <? 0 then (Fail (unix_to_pal_error bytes), tr)
    else (Ret bytes, tr).

(** [attr] is an out-parameter: [None] when the function returns before
    the last field is written. *)
Definition eventfd_pal_attrquerybyhdl `{Host} (handle : PAL_HANDLE)
  : pal_ret * option PAL_STREAM_ATTR * list ocall :=
  let fd := eventfd_fd handle in
  if fd =? PAL_IDX_POISON then (Fail PAL_ERROR_BADHANDLE, None, [])
  else
    let ret := ocall_fionread fd in
    if ret <? 0
    then (Fail (unix_to_pal_error ret), None, [OcallFionread fd])
    else
      let pending := ret in
      let events := Z.lor POLLIN POLLOUT in
      let '(ret, revents) := ocall_poll fd events in
      let tr := [OcallFionread fd; OcallPoll fd events] in
      if ret <? 0 then (Fail (unix_to_pal_error ret), None, tr)
      else
        let rd := (ret =? 1) &&
          (Z.land revents (Z.lor POLLIN (Z.lor POLLERR POLLHUP)) =? POLLIN) in
        let wr := (ret =? 1) &&
          (Z.land revents (Z.lor POLLOUT (Z.lor POLLERR POLLHUP)) =? POLLOUT) in
        (Ret 0,
         Some {| handle_type_ := hdr_type handle;
                 nonblocking := eventfd_nonblocking handle;
                 disconnected := Z.land (hdr_flags handle) ERROR0;
                 pending_size := pending;
                 readable := rd;
                 writable := wr;
                 no_of_fds := 1;
                 fds0 := fd |},
         tr).

Definition eventfd_pal_close `{Host} (handle : PAL_HANDLE)
  : pal_ret * PAL_HANDLE * list ocall :=
  if IS_HANDLE_TYPE_eventfd (hdr_type handle) then
    if negb (eventfd_fd handle =? PAL_IDX_POISON) then
      (Ret 0,
       {| hdr_type := hdr_type handle;
          hdr_flags := hdr_flags handle;
          eventfd_fd := PAL_IDX_POISON;
          eventfd_nonblocking := eventfd_nonblocking handle |},
       [OcallClose (eventfd_fd handle)])
    else (Ret 0, handle, [])
  else (Ret 0, handle, []).

(** *** Opening *)

(** [EFD_*] of the Linux ABI. *)
Definition EFD_SEMAPHORE : Z := 1.
Definition EFD_NONBLOCK : Z := 2048.
Definition EFD_CLOEXEC : Z := 524288.

(** Calls made while opening, in program order. *)
Inductive open_call : Type :=
| OpenEventfd (initval flags_ : Z)          (* ocall_eventfd *)
| OpenClose (fd : Z).                       (* ocall_close *)

(** The option bits and the URI type of [pal.h] and [pal_defs.h], the flag
    macros of [pal_host.h], and what the host and the allocator answer. *)
Class OpenHost : Type := {
  PAL_OPTION_NONBLOCK : Z;
  PAL_OPTION_CLOEXEC : Z;
  PAL_OPTION_EFD_SEMAPHORE : Z;
  URI_TYPE_EVENTFD : string;
  RFD0 : Z;                                 (* RFD(0) *)
  WFD0 : Z;                                 (* WFD(0) *)
  ocall_eventfd : Z -> Z -> Z;              (* initval, flags: fd or -errno *)
  malloc_ok : bool                          (* malloc(HANDLE_SIZE(eventfd)) *)
}.

Definition eventfd_type `{OpenHost} (options : Z) : Z :=
  let type := 0 in
  let type :=
    if tst options PAL_OPTION_NONBLOCK then Z.lor type EFD_NONBLOCK else type in
  let type :=
    if tst options PAL_OPTION_CLOEXEC then Z.lor type EFD_CLOEXEC else type in
  let type :=
    if tst options PAL_OPTION_EFD_SEMAPHORE then Z.lor type EFD_SEMAPHORE
    else type in
  type.

(** [access] and [share] are unused.  The handle is stored through the
    out-parameter only on success. *)
Definition eventfd_pal_open `{Host} `{OpenHost} (type uri : string)
  (create options : Z) : pal_ret * option PAL_HANDLE * list open_call :=
  if negb (String.eqb type URI_TYPE_EVENTFD) || negb (String.eqb uri EmptyString)
  then (Fail PAL_ERROR_INVAL, None, [])
  else
    let '(fd, tr) :=
      if tst options PAL_OPTION_EFD_SEMAPHORE then (create, [])
      else (ocall_eventfd create (eventfd_type options),
            [OpenEventfd create (eventfd_type options)]) in
    if fd <? 0 then (Fail (unix_to_pal_error fd), None, tr)
    else if negb malloc_ok
    then (Fail PAL_ERROR_NOMEM, None, tr ++ [OpenClose fd])
    else
      (Ret 0,
       Some {| hdr_type := pal_type_eventfd;
               hdr_flags := Z.lor RFD0 WFD0;
               eventfd_fd := fd;
               eventfd_nonblocking := tst options PAL_OPTION_NONBLOCK |},
       tr).

End Eventfd.

(** ** db_object.c *)

Module Object.

(** The generic view [handle->__in] of a PAL handle. *)
Record PAL_HANDLE : Type := mkHandle {
  flags : Z;
  fds : list Z
}.

#[global] Instance PAL_HANDLE_inhabited : Inhabited PAL_HANDLE :=
  populate (mkHandle 0 []).

Record pollfd : Type := mkPollfd {
  pfd_fd : Z;
  pfd_events : Z
}.

(** The answer of the [ppoll] system call: [IS_ERR(ret)] with [ERRNO(ret)],
    or the number of ready entries with the [revents] it filled in. *)
Inductive ppoll_result : Type :=
| PollErr (errno : Z)
| PollRet (n : Z) (revents : list Z).

(** Macros of [pal_host.h] and [pal.h], the error number [ERESTART] of
    [asm-errno.h], the error translation of [pal_linux.h], and the host's
    answers. *)
Class Host : Type := {
  ERESTART : Z;
  MAX_FDS : nat;
  HAS_FDS : Z;
  RFD : nat -> Z;
  WFD : nat -> Z;
  WRITEABLE : nat -> Z;
  ERROR : nat -> Z;
  PAL_IDX_POISON : Z;
  unix_to_pal_error : Z -> pal_error;
  ppoll : list pollfd -> option (Z * Z) -> ppoll_result;
  ops_wait : Z -> option (Z -> pal_ret)    (* HANDLE_OPS(handle)->wait *)
}.

(** [struct timespec] built from a non-negative timeout in microseconds. *)
Definition timeout_ts (timeout : Z) : option (Z * Z) :=
  if 0 <=? timeout then
    let sec := timeout / 1000000 in
    let microsec := timeout - sec * 1000000 in
    Some (sec, microsec * 1000)
  else None.

(** The [events] computed for slot [j] of a handle with flags [fl]. *)
Definition poll_events `{Host} (fl : Z) (j : nat) : Z :=
  let events :=
    if tst fl (RFD j) && negb (tst fl (ERROR j)) then POLLIN else 0 in
  if tst fl (WFD j) && negb (tst fl (WRITEABLE j)) && negb (tst fl (ERROR j))
  then Z.lor events POLLOUT
  else events.

Definition with_hup_err (events : Z) : Z :=
  Z.lor events (Z.lor POLLHUP POLLERR).

(** What a non-zero [revents] adds to the flags, for slot [j]. *)
Definition note_revents `{Host} (revents : Z) (j : nat) (fl : Z) : Z :=
  let fl1 := if tst revents POLLOUT then Z.lor fl (WRITEABLE j) else fl in
  if tst revents (Z.lor POLLHUP POLLERR) then Z.lor fl1 (ERROR j) else fl1.

(** *** _DkObjectWaitOne *)

(** The [fds]/[off] arrays filled by the first loop. *)
Definition waitone_fds `{Host} (h : PAL_HANDLE) : list (pollfd * nat) :=
  flat_map
    (fun i =>
       let events := poll_events (flags h) i in
       if events =? 0 then []
       else [(mkPollfd (nth i (fds h) 0) (with_hup_err events), i)])
    (seq 0 MAX_FDS).

Fixpoint waitone_record `{Host} (l : list (pollfd * nat)) (rs : list Z)
  (fl : Z) : Z :=
  match l with
  | [] => fl
  | (_, off) :: l' =>
      let r := hd 0 rs in
      waitone_record l' (tl rs) (if r =? 0 then fl else note_revents r off fl)
  end.

Definition _DkObjectWaitOne `{Host} (addr : Z) (h : PAL_HANDLE) (timeout : Z)
  : pal_ret * PAL_HANDLE :=
  if tst (flags h) HAS_FDS then
    let l := waitone_fds h in
    if (length l =? 0)%nat then (Fail PAL_ERROR_TRYAGAIN, h)
    else
      match ppoll (map fst l) (timeout_ts timeout) with
      | PollErr e =>
          if (e =? EINTR) || (e =? ERESTART)
          then (Fail PAL_ERROR_INTERRUPTED, h)
          else (Fail (unix_to_pal_error e), h)
      | PollRet ret rs =>
          if ret =? 0 then (Fail PAL_ERROR_TRYAGAIN, h)
          else (Ret 0, mkHandle (waitone_record l rs (flags h)) (fds h))
      end
  else
    match ops_wait addr with
    | None => (Fail PAL_ERROR_NOTSUPPORT, h)
    | Some wait => (wait timeout, h)
    end.

(** *** _DkObjectsWaitAny *)

Record poll_entry : Type := mkEntry {
  pe_fd : Z;
  pe_events : Z;
  pe_hdl : Z                                (* hdls[nfds] *)
}.

(** [for (j = 0; j < i; j++) if (hdl == handleArray[j]) break;] found one *)
Definition repeated (handleArray : list Z) (i : nat) (hdl : Z) : bool :=
  existsb (Z.eqb hdl) (take i handleArray).

(** First loop: does every non-null handle carry file descriptors? *)
Fixpoint all_have_fds `{Host} (heap : gmap Z PAL_HANDLE) (l : list Z)
  : bool :=
  match l with
  | [] => true
  | hdl :: l' =>
      if hdl =? 0 then all_have_fds heap l'
      else if negb (tst (flags (heap !!! hdl)) HAS_FDS) then false
      else all_have_fds heap l'
  end.

Definition handle_entries `{Host} (hdl : Z) (h : PAL_HANDLE)
  : list poll_entry :=
  flat_map
    (fun j =>
       let events := poll_events (flags h) j in
       if negb (events =? 0) && negb (nth j (fds h) 0 =? PAL_IDX_POISON)
       then [mkEntry (nth j (fds h) 0) (with_hup_err events) hdl]
       else [])
    (seq 0 MAX_FDS).

(** Second loop: the [fds]/[hdls] arrays handed to [ppoll]. *)
Definition poll_entries `{Host} (heap : gmap Z PAL_HANDLE)
  (handleArray : list Z) : list poll_entry :=
  concat
    (imap
       (fun i hdl =>
          if hdl =? 0 then []
          else if repeated handleArray i hdl then []
          else handle_entries hdl (heap !!! hdl))
       handleArray).

(** [for (j ...) if ((flags & (RFD(j)|WFD(j))) && fds[j] == fd) break;] *)
Definition find_slot `{Host} (h : PAL_HANDLE) (fd : Z) : option nat :=
  List.find
    (fun j => tst (flags h) (Z.lor (RFD j) (WFD j)) && (nth j (fds h) 0 =? fd))
    (seq 0 MAX_FDS).

(** Last loop: pick the first ready handle and note its events. *)
Fixpoint record_revents `{Host} (l : list poll_entry) (rs : list Z)
  (polled_hdl : Z) (heap : gmap Z PAL_HANDLE) : Z * gmap Z PAL_HANDLE :=
  match l with
  | [] => (polled_hdl, heap)
  | e :: l' =>
      let r := hd 0 rs in
      if r =? 0 then record_revents l' (tl rs) polled_hdl heap
      else if negb (polled_hdl =? 0) && negb (pe_hdl e =? polled_hdl)
      then record_revents l' (tl rs) polled_hdl heap
      else
        let hdl := pe_hdl e in
        let h := heap !!! hdl in
        match find_slot h (pe_fd e) with
        | None => record_revents l' (tl rs) hdl heap
        | Some j =>
            record_revents l' (tl rs) hdl
              (<[hdl := mkHandle (note_revents r j (flags h)) (fds h)]> heap)
        end
  end.

(** Result: the return value, the value stored through [polled] (if any)
    and the handles afterwards. *)
Definition _DkObjectsWaitAny `{Host} (count : Z) (handleArray : list Z)
  (timeout : Z) (heap : gmap Z PAL_HANDLE)
  : pal_ret * option Z * gmap Z PAL_HANDLE :=
  if count <=? 0 then (Ret 0, None, heap)
  else if count =? 1 then
    let hdl := nth 0 handleArray 0 in
    let '(r, h') := _DkObjectWaitOne hdl (heap !!! hdl) timeout in
    (r, Some hdl, <[hdl := h']> heap)
  else
    let arr := take (Z.to_nat count) handleArray in
    if negb (all_have_fds heap arr) then (Fail PAL_ERROR_NOTSUPPORT, None, heap)
    else
      let l := poll_entries heap arr in
      if (length l =? 0)%nat then (Fail PAL_ERROR_TRYAGAIN, None, heap)
      else
        match ppoll (map (fun e => mkPollfd (pe_fd e) (pe_events e)) l)
                (timeout_ts timeout) with
        | PollErr e =>
            if (e =? EINTR) || (e =? ERESTART)
            then (Fail PAL_ERROR_INTERRUPTED, None, heap)
            else (Fail (unix_to_pal_error e), None, heap)
        | PollRet ret rs =>
            if ret =? 0 then (Fail PAL_ERROR_TRYAGAIN, None, heap)
            else
              let '(polled_hdl, heap') := record_revents l rs 0 heap in
              (if polled_hdl =? 0 then Fail PAL_ERROR_TRYAGAIN else Ret 0,
               Some polled_hdl, heap')
        end.

(** *** The size of the poll arrays *)

(** [for (j ...) if (flags & (RFD(j)|WFD(j))) maxfds++;] for one handle. *)
Definition handle_maxfds `{Host} (h : PAL_HANDLE) : nat :=
  length
    (List.filter (fun j => tst (flags h) (Z.lor (RFD j) (WFD j)))
       (seq 0 MAX_FDS)).

(** [maxfds] after the first loop, when it runs to its end: the arrays
    [fds] and [hdls] are allocated with that many elements. *)
Definition count_maxfds `{Host} (heap : gmap Z PAL_HANDLE)
  (handleArray : list Z) : nat :=
  list_sum
    (imap
       (fun i hdl =>
          if hdl =? 0 then 0%nat
          else if repeated handleArray i hdl then 0%nat
          else handle_maxfds (heap !!! hdl))
       handleArray).

End Object.

(** ** db_threading.c *)

Module Threading.

(** The answer of [nanosleep]: success, or [IS_ERR] with the remaining time
    it stored as seconds and nanoseconds. *)
Class Host : Type := {
  nanosleep : Z * Z -> option (Z * Z)
}.

(** [unsigned long] *)
Definition to_ulong (n : Z) : Z := n mod 2 ^ 64.

(** Result: the return value and [*duration] afterwards. *)
Definition _DkThreadDelayExecution `{Host} (duration : Z) : pal_ret * Z :=
  let sec := duration / 1000000 in
  let microsec := duration - sec * 1000000 in
  match nanosleep (sec, microsec * 1000) with
  | Some (tv_sec, tv_nsec) =>
      let remaining := to_ulong (tv_sec * 1000000 + Z.quot tv_nsec 1000) in
      (Fail PAL_ERROR_INTERRUPTED, to_ulong (duration - remaining))
  | None => (Ret 0, duration)
  end.

End Threading.

(** ** shim_ipc_helper.c *)

Module Ipc.

Inductive helper_state : Type :=
| HELPER_UNINITIALIZED
| HELPER_DELAYED
| HELPER_NOTALIVE
| HELPER_ALIVE
| HELPER_HANDEDOVER.

#[global] Instance helper_state_eq_dec : EqDecision helper_state.
Proof. solve_decision. Defined.

(** [port->info] and [port->private]: the fields the port manager uses. *)
Record shim_ipc_info : Type := mkInfo {
  vmid : Z;
  type : Z
}.

(** A pending duplex request queued on [port->msgs]. *)
Record shim_ipc_msg_obj : Type := mkMsgObj {
  mo_addr : Z;
  mo_thread : Z
}.

Record shim_ipc_port : Type := mkPort {
  pal_handle : Z;
  info : shim_ipc_info;
  private_ : shim_ipc_info;
  update : bool;
  recent : bool;
  fini : list Z;                            (* port_fini fini[MAX_..._CB] *)
  msgs : list shim_ipc_msg_obj;
  ref_count : Z
}.

#[global] Instance shim_ipc_port_inhabited : Inhabited shim_ipc_port :=
  populate (mkPort 0 (mkInfo 0 0) (mkInfo 0 0) false false [] [] 0).

(** The header of [struct shim_ipc_msg]. *)
Record shim_ipc_msg : Type := mkMsg {
  code : Z;
  size : Z;
  src : Z;
  dst : Z;
  seq : Z
}.

(** Calls that leave the file, in program order. *)
Inductive event : Type :=
| EvEnableLocking
| EvSetEvent                                (* set_event(&ipc_helper_event, 1) *)
| EvThreadCreate (thread : Z)               (* thread_create(shim_ipc_helper, ..) *)
| EvPutThread (thread : Z)
| EvObjectClose (handle : Z)                (* DkObjectClose *)
| EvFree (port : Z)                         (* free_mem_obj_to_mgr *)
| EvFini (cb port vmid exitcode : Z)        (* (fini[i])(port, vmid, exitcode) *)
| EvMsgRetval (msg retval : Z)              (* msg->retval = ... *)
| EvThreadWakeup (thread : Z)
| EvSend (msg : shim_ipc_msg) (port : Z)    (* send_ipc_message(msg, port) *)
| EvResponse (port dest ret seq : Z)        (* __response_ipc_message *)
| EvCallback (cb : Z) (msg : shim_ipc_msg) (port : Z).

(** What one [DkStreamRead] on a handle will deliver next. *)
Inductive stream_item : Type :=
| Chunk (data : list Z)
| ReadFail (errno : Z).

(** The globals of the file, the port objects they point to, and the
    streams and error number of the platform underneath. *)
Record ipc_state : Type := mkState {
  ports : gmap Z shim_ipc_port;
  pobj_list : list Z;
  ipc_port_pool : list (list Z);
  ipc_helper_state : helper_state;
  ipc_helper_thread : Z;
  ipc_helper_update : bool;
  broadcast_port : Z;
  streams : gmap Z (list stream_item);
  pal_errno : Z;                            (* PAL_NATIVE_ERRNO *)
  trace : list event
}.

(** Constants and types of [shim_ipc.h] and friends, the calling context,
    and the answers of the functions that live in other files. *)
Class Env : Type := {
  IPC_PORT_IFPOLL : Z;
  IPC_PORT_KEEPALIVE : Z;
  MAX_IPC_PORT_FINI_CB : nat;
  IPC_MSG_MINIMAL_SIZE : Z;
  IPC_MSG_READAHEAD : Z;
  RESPONSE_CALLBACK : Z;
  cur_process_vmid : Z;                     (* cur_process.vmid *)
  get_cur_thread : Z;
  PAL_ERRNO_of : Z -> Z;                    (* pal errno to unix errno *)
  msg_view : list Z -> shim_ipc_msg;        (* the buffer as a message *)
  msg_set_size : Z -> list Z -> list Z;     (* the buffer after msg->size = n *)
  ipc_callbacks : Z -> Z;                   (* handler for a code, or 0 *)
  callback_ret : Z -> shim_ipc_msg -> Z -> Z;
  send_ipc_message : shim_ipc_msg -> Z -> Z;
  get_new_internal_thread : Z;
  thread_create : Z -> Z + Z                (* handle, or pal errno *)
}.

Definition PID_HASH_LEN : Z := 6.
Definition PID_HASH_NUM : Z := Z.shiftl 1 PID_HASH_LEN.
Definition PID_HASH_MASK : Z := PID_HASH_NUM - 1.
Definition PID_HASH (pid : Z) : Z := Z.land pid PID_HASH_MASK.

(** *** Field updates *)

Definition set_ports (f : gmap Z shim_ipc_port -> gmap Z shim_ipc_port)
  (st : ipc_state) : ipc_state :=
  mkState (f (ports st)) (pobj_list st) (ipc_port_pool st)
    (ipc_helper_state st) (ipc_helper_thread st) (ipc_helper_update st)
    (broadcast_port st) (streams st) (pal_errno st) (trace st).

Definition set_pobj_list (l : list Z) (st : ipc_state) : ipc_state :=
  mkState (ports st) l (ipc_port_pool st)
    (ipc_helper_state st) (ipc_helper_thread st) (ipc_helper_update st)
    (broadcast_port st) (streams st) (pal_errno st) (trace st).

Definition set_ipc_port_pool (pool : list (list Z)) (st : ipc_state)
  : ipc_state :=
  mkState (ports st) (pobj_list st) pool
    (ipc_helper_state st) (ipc_helper_thread st) (ipc_helper_update st)
    (broadcast_port st) (streams st) (pal_errno st) (trace st).

Definition set_helper_state (s : helper_state) (st : ipc_state) : ipc_state :=
  mkState (ports st) (pobj_list st) (ipc_port_pool st)
    s (ipc_helper_thread st) (ipc_helper_update st)
    (broadcast_port st) (streams st) (pal_errno st) (trace st).

Definition set_helper_thread (t : Z) (st : ipc_state) : ipc_state :=
  mkState (ports st) (pobj_list st) (ipc_port_pool st)
    (ipc_helper_state st) t (ipc_helper_update st)
    (broadcast_port st) (streams st) (pal_errno st) (trace st).

Definition set_helper_update (b : bool) (st : ipc_state) : ipc_state :=
  mkState (ports st) (pobj_list st) (ipc_port_pool st)
    (ipc_helper_state st) (ipc_helper_thread st) b
    (broadcast_port st) (streams st) (pal_errno st) (trace st).

Definition set_streams (s : gmap Z (list stream_item)) (st : ipc_state)
  : ipc_state :=
  mkState (ports st) (pobj_list st) (ipc_port_pool st)
    (ipc_helper_state st) (ipc_helper_thread st) (ipc_helper_update st)
    (broadcast_port st) s (pal_errno st) (trace st).

Definition set_pal_errno (e : Z) (st : ipc_state) : ipc_state :=
  mkState (ports st) (pobj_list st) (ipc_port_pool st)
    (ipc_helper_state st) (ipc_helper_thread st) (ipc_helper_update st)
    (broadcast_port st) (streams st) e (trace st).

(** Append the record of an outside call. *)
Definition emit (e : event) (st : ipc_state) : ipc_state :=
  mkState (ports st) (pobj_list st) (ipc_port_pool st)
    (ipc_helper_state st) (ipc_helper_thread st) (ipc_helper_update st)
    (broadcast_port st) (streams st) (pal_errno st) (trace st ++ [e]).

Definition port_at (st : ipc_state) (p : Z) : shim_ipc_port := ports st !!! p.

(** Store [f] of the port at [p] back at [p]. *)
Definition upd_port (p : Z) (f : shim_ipc_port -> shim_ipc_port)
  (st : ipc_state) : ipc_state :=
  set_ports (<[p := f (port_at st p)]>) st.

Definition with_pal_handle (h : Z) (o : shim_ipc_port) : shim_ipc_port :=
  mkPort h (info o) (private_ o) (update o) (recent o) (fini o) (msgs o)
    (ref_count o).

Definition with_info (i : shim_ipc_info) (o : shim_ipc_port) : shim_ipc_port :=
  mkPort (pal_handle o) i (private_ o) (update o) (recent o) (fini o) (msgs o)
    (ref_count o).

Definition with_update (b : bool) (o : shim_ipc_port) : shim_ipc_port :=
  mkPort (pal_handle o) (info o) (private_ o) b (recent o) (fini o) (msgs o)
    (ref_count o).

Definition with_recent (b : bool) (o : shim_ipc_port) : shim_ipc_port :=
  mkPort (pal_handle o) (info o) (private_ o) (update o) b (fini o) (msgs o)
    (ref_count o).

Definition with_fini (l : list Z) (o : shim_ipc_port) : shim_ipc_port :=
  mkPort (pal_handle o) (info o) (private_ o) (update o) (recent o) l (msgs o)
    (ref_count o).

Definition with_msgs (l : list shim_ipc_msg_obj) (o : shim_ipc_port)
  : shim_ipc_port :=
  mkPort (pal_handle o) (info o) (private_ o) (update o) (recent o) (fini o) l
    (ref_count o).

Definition with_ref_count (n : Z) (o : shim_ipc_port) : shim_ipc_port :=
  mkPort (pal_handle o) (info o) (private_ o) (update o) (recent o) (fini o)
    (msgs o) n.

Definition with_type (t : Z) (o : shim_ipc_port) : shim_ipc_port :=
  with_info (mkInfo (vmid (info o)) t) o.

Definition with_vmid (v : Z) (o : shim_ipc_port) : shim_ipc_port :=
  with_info (mkInfo v (type (info o))) o.

(** *** Intrusive lists *)

Definition memb (p : Z) (l : list Z) : bool := existsb (Z.eqb p) l.

Definition remove_addr (p : Z) (l : list Z) : list Z :=
  List.filter (fun q => negb (q =? p)) l.

(** [list_empty(&port->list)]: the port is not linked into [pobj_list]. *)
Definition list_empty (st : ipc_state) (p : Z) : bool :=
  negb (memb p (pobj_list st)).

(** [hlist_unhashed(&port->hlist)]: the port is in no bucket. *)
Definition hlist_unhashed (st : ipc_state) (p : Z) : bool :=
  forallb (fun b => negb (memb p b)) (ipc_port_pool st).

Definition list_del_init (p : Z) (st : ipc_state) : ipc_state :=
  set_pobj_list (remove_addr p (pobj_list st)) st.

Definition list_add (p : Z) (st : ipc_state) : ipc_state :=
  set_pobj_list (p :: pobj_list st) st.

Definition list_add_tail (p : Z) (st : ipc_state) : ipc_state :=
  set_pobj_list (pobj_list st ++ [p]) st.

Definition hlist_del_init (p : Z) (st : ipc_state) : ipc_state :=
  set_ipc_port_pool (map (remove_addr p) (ipc_port_pool st)) st.

Definition hlist_add_head (p : Z) (bucket : Z) (st : ipc_state) : ipc_state :=
  set_ipc_port_pool (alter (cons p) (Z.to_nat bucket) (ipc_port_pool st)) st.

(** *** References *)

Definition __get_ipc_port (p : Z) (st : ipc_state) : ipc_state :=
  upd_port p (fun o => with_ref_count (ref_count o + 1) o) st.

Definition __put_ipc_port (p : Z) (st : ipc_state) : ipc_state :=
  let st1 := upd_port p (fun o => with_ref_count (ref_count o - 1) o) st in
  if ref_count (port_at st1 p) =? 0 then
    let st2 :=
      if negb (pal_handle (port_at st1 p) =? 0) then
        upd_port p (with_pal_handle 0)
          (emit (EvObjectClose (pal_handle (port_at st1 p))) st1)
      else st1 in
    emit (EvFree p) st2
  else st1.

Definition get_ipc_port := __get_ipc_port.
Definition put_ipc_port := __put_ipc_port.

(** *** The helper state machine *)

Definition IN_HELPER `{Env} (st : ipc_state) : bool :=
  negb (ipc_helper_thread st =? 0) && (ipc_helper_thread st =? get_cur_thread).

Definition create_ipc_helper `{Env} (st : ipc_state) : Z * ipc_state :=
  if decide (ipc_helper_state st = HELPER_ALIVE) then (0, st)
  else
    let st := emit EvEnableLocking st in
    let new := get_new_internal_thread in
    if new =? 0 then (- ENOMEM, st)
    else if decide (ipc_helper_state st = HELPER_ALIVE)
    then (0, emit (EvPutThread new) st)
    else
      let st := set_helper_state HELPER_ALIVE (set_helper_thread new st) in
      let st := emit (EvThreadCreate new) st in
      match thread_create new with
      | inr errno =>
          let st := set_pal_errno errno st in
          let ret := - PAL_ERRNO_of errno in
          let st := set_helper_state HELPER_NOTALIVE (set_helper_thread 0 st) in
          (ret, emit (EvPutThread new) st)
      | inl handle => (0, st)
      end.

Definition restart_ipc_helper `{Env} (need_create : bool) (st : ipc_state)
  : ipc_state :=
  match ipc_helper_state st with
  | HELPER_UNINITIALIZED => set_helper_state HELPER_DELAYED st
  | HELPER_DELAYED => st
  | HELPER_NOTALIVE =>
      if need_create then snd (create_ipc_helper st) else st
  | HELPER_ALIVE =>
      if IN_HELPER st then set_helper_update true st
      else emit EvSetEvent st
  | HELPER_HANDEDOVER => set_helper_update true st
  end.

(** [list_for_each_entry(pobj, &pobj_list, list) if (type & KEEPALIVE)] *)
Definition any_keepalive `{Env} (st : ipc_state) : bool :=
  existsb (fun p => tst (type (info (port_at st p))) IPC_PORT_KEEPALIVE)
    (pobj_list st).

Definition exit_with_ipc_helper `{Env} (handover : bool) (st : ipc_state)
  : Z * ipc_state :=
  if IN_HELPER st || negb (bool_decide (ipc_helper_state st = HELPER_ALIVE))
  then (0, st)
  else
    let handover := if handover then any_keepalive st else false in
    let new_state := if handover then HELPER_HANDEDOVER else HELPER_NOTALIVE in
    let st := emit EvSetEvent (set_helper_state new_state st) in
    (if decide (new_state = HELPER_NOTALIVE) then 0 else - EAGAIN, st).

(** *** Outcomes of routines that contain [assert]s or unbounded loops *)

Inductive outcome (A : Type) : Type :=
| Done (a : A) (st : ipc_state)             (* returned [a] *)
| Abort (st : ipc_state)                    (* an [assert] failed *)
| Fuel (st : ipc_state).                    (* still looping *)

Arguments Done {A} a st.
Arguments Abort {A} st.
Arguments Fuel {A} st.

Definition final_state {A : Type} (o : outcome A) : ipc_state :=
  match o with Done _ st | Abort st | Fuel st => st end.

(** *** Admitting a port *)

(** [for (cb = fini; cb < fini + MAX; cb++) if (!*cb || *cb == f) break;]
    as the index [cb - port->fini] it stops at, starting from index [i] with
    [n] slots to go. *)
Fixpoint fini_scan (l : list Z) (f : Z) (n i : nat) : nat :=
  match n with
  | O => i
  | S n' =>
      let cb := nth i l 0 in
      if (cb =? 0) || (cb =? f) then i else fini_scan l f n' (S i)
  end.

Definition __add_ipc_port `{Env} (p vmid_ type_ fini_ : Z) (st : ipc_state)
  : outcome bool :=
  if vmid_ =? cur_process_vmid then Abort st
  else
    let st :=
      if negb (vmid_ =? 0) && (vmid (info (port_at st p)) =? 0)
      then upd_port p (fun o => with_update true (with_vmid vmid_ o)) st
      else st in
    let st :=
      if negb (vmid (info (port_at st p)) =? 0) && hlist_unhashed st p
      then hlist_add_head p (PID_HASH vmid_) (__get_ipc_port p st)
      else st in
    let need_restart :=
      negb (tst (type (info (port_at st p))) IPC_PORT_IFPOLL) &&
      tst type_ IPC_PORT_IFPOLL in
    let st :=
      if negb (Z.land (type (info (port_at st p))) type_ =? type_)
      then upd_port p
             (fun o => with_update true
                         (with_type (Z.lor (type (info o)) type_) o)) st
      else st in
    let installed :=
      if negb (fini_ =? 0) && tst type_ (Z.lnot IPC_PORT_IFPOLL) then
        let cb := fini_scan (fini (port_at st p)) fini_ MAX_IPC_PORT_FINI_CB 0 in
        if (cb <? MAX_IPC_PORT_FINI_CB)%nat
        then Some (upd_port p (fun o => with_fini (<[cb := fini_]> (fini o)) o) st)
        else None
      else Some st in
    match installed with
    | None => Abort st
    | Some st =>
        if need_restart then
          if list_empty st p then
            Done true
              (upd_port p (with_recent true) (list_add p (__get_ipc_port p st)))
          else if negb (recent (port_at st p)) then
            Done true
              (upd_port p (with_recent true) (list_add p (list_del_init p st)))
          else Done true st
        else if list_empty st p then
          Done false (list_add_tail p (__get_ipc_port p st))
        else Done false st
    end.

Definition add_ipc_port `{Env} (p vmid_ type_ fini_ : Z) (st : ipc_state)
  : outcome unit :=
  match __add_ipc_port p vmid_ type_ fini_ st with
  | Done need_restart st =>
      Done tt (if need_restart then restart_ipc_helper true st else st)
  | Abort st => Abort st
  | Fuel st => Fuel st
  end.

(** *** Evicting a port *)

Definition __del_ipc_port `{Env} (p type_ : Z) (st : ipc_state)
  : bool * ipc_state :=
  let t0 := type (info (port_at st p)) in
  let type_ := if negb (type_ =? 0) then Z.land type_ t0 else t0 in
  let need_restart :=
    negb (Z.lxor (Z.land type_ IPC_PORT_KEEPALIVE)
                 (Z.land t0 IPC_PORT_KEEPALIVE) =? 0) in
  if tst t0 (Z.lnot (Z.lor type_ (Z.lor IPC_PORT_IFPOLL IPC_PORT_KEEPALIVE)))
  then
    (* the port still has other usage *)
    let st := upd_port p (fun o => with_type (Z.land (type (info o)) (Z.lnot type_)) o) st in
    (need_restart, upd_port p (with_update true) st)
  else
    let need_restart := if tst t0 IPC_PORT_IFPOLL then true else need_restart in
    let st :=
      if negb (list_empty st p) then
        let st := list_del_init p st in
        let st := upd_port p
          (fun o => with_type (Z.land (type (info o)) IPC_PORT_IFPOLL) o) st in
        __put_ipc_port p st
      else st in
    let st :=
      if negb (hlist_unhashed st p)
      then __put_ipc_port p (hlist_del_init p st)
      else st in
    (need_restart, upd_port p (with_update true) st).

Definition del_ipc_port `{Env} (p type_ : Z) (st : ipc_state) : ipc_state :=
  let '(need_restart, st) := __del_ipc_port p type_ st in
  if need_restart then restart_ipc_helper false st else st.

(** [unsigned int exitcode] *)
Definition to_uint (n : Z) : Z := n mod 2 ^ 32.

Definition wake_msg (st : ipc_state) (m : shim_ipc_msg_obj) : ipc_state :=
  let st := emit (EvMsgRetval (mo_addr m) (- ECONNRESET)) st in
  if negb (mo_thread m =? 0) then emit (EvThreadWakeup (mo_thread m)) st
  else st.

(** The fini callbacks are calls through the pointers stored in the port:
    each call is recorded as an [EvFini] event, and what the callee does to
    the state is left to the callee's own model ([ipc_broadcast_exit] below
    for the one callback of this file). *)
Definition del_ipc_port_fini `{Env} (p exitcode : Z) (st : ipc_state)
  : outcome unit :=
  if negb (0 <? ref_count (port_at st p)) then Abort st
  else
    let vmid_ := vmid (info (port_at st p)) in
    let slots := take MAX_IPC_PORT_FINI_CB (fini (port_at st p)) in
    let fini_ := List.filter (fun cb => negb (cb =? 0)) slots in
    let st := upd_port p
      (fun o => with_fini (map (fun _ => 0) slots
                           ++ drop MAX_IPC_PORT_FINI_CB (fini o)) o) st in
    let st := __get_ipc_port p st in
    let '(need_restart, st) := __del_ipc_port p 0 st in
    let st := fold_left (fun st cb => emit (EvFini cb p vmid_ exitcode) st)
                fini_ st in
    let st :=
      if negb (list_empty st p) then
        upd_port p (with_msgs [])
          (fold_left wake_msg (msgs (port_at st p)) st)
      else st in
    let st := put_ipc_port p st in
    if negb (0 <? ref_count (port_at st p)) then Abort st
    else Done tt (if need_restart then restart_ipc_helper false st else st).

(** *** Broadcast *)

Definition with_dst (d : Z) (m : shim_ipc_msg) : shim_ipc_msg :=
  mkMsg (code m) (size m) (src m) d (seq m).

(** One round of [list_for_each_entry_safe(pobj, n, &pobj_list, list)]. *)
Definition broadcast_one `{Env} (exclude : list Z) (target_type : Z)
  (acc : shim_ipc_msg * ipc_state) (pobj : Z) : shim_ipc_msg * ipc_state :=
  let '(msg, st) := acc in
  if tst (type (info (port_at st pobj))) target_type then
    if negb (length exclude =? 0)%nat && memb pobj exclude then (msg, st)
    else
      let msg := with_dst (vmid (info (port_at st pobj))) msg in
      (msg, emit (EvSend msg pobj) st)
  else (msg, st).

Definition broadcast_ipc `{Env} (msg : shim_ipc_msg) (exclude : list Z)
  (target_type : Z) (st : ipc_state) : Z * shim_ipc_msg * ipc_state :=
  let walk (st : ipc_state) :=
    let '(msg, st) :=
      fold_left (broadcast_one exclude target_type) (pobj_list st) (msg, st) in
    (0, msg, st) in
  if (target_type =? 0) && negb (broadcast_port st =? 0) then
    if memb (broadcast_port st) exclude then (0, msg, st)
    else
      let bp := broadcast_port st in
      let st := get_ipc_port bp st in
      let ret := send_ipc_message msg bp in
      let st := emit (EvSend msg bp) st in
      let st := put_ipc_port bp st in
      if ret =? 0 then (0, msg, st) else walk st
  else walk st.

(** *** Receiving *)

(** Modelled from the spec: the platform's stream read ([DkStreamRead] is
    not part of the modelled files).  It delivers at most [n] bytes of the
    next chunk, or nothing; a failure leaves its code in the error number. *)
Definition DkStreamRead (handle n : Z) (st : ipc_state)
  : list Z * ipc_state :=
  match default [] (streams st !! handle) with
  | Chunk d :: rest =>
      let left := drop (Z.to_nat n) d in
      (take (Z.to_nat n) d,
       set_streams
         (<[handle := match left with [] => rest | _ => Chunk left :: rest end]>
            (streams st)) st)
  | ReadFail e :: rest =>
      ([], set_pal_errno e (set_streams (<[handle := rest]> (streams st)) st))
  | [] => ([], st)
  end.

(** The caller's [msgptr]: [NULL], or a pointer to a message pointer that is
    [NULL] or points to a buffer whose [size] field is given. *)
Definition msgptr_t : Type := option (option Z).

(** What the routine leaves in [*msgptr]. *)
Inductive recv_out : Type :=
| OutUntouched
| OutNull
| OutMsg (hdr : shim_ipc_msg) (data : list Z).

Definition with_size (n : Z) (m : shim_ipc_msg) : shim_ipc_msg :=
  mkMsg (code m) n (src m) (dst m) (seq m).

(** [__response_ipc_message]; the message itself is built by a macro of
    [shim_ipc.h], so only its [retval] and routing are recorded. *)
Definition __response_ipc_message `{Env} (p dest ret seq_ : Z)
  (st : ipc_state) : Z * ipc_state :=
  let ret := if ret =? RESPONSE_CALLBACK then 0 else ret in
  let resp := mkMsg 0 0 cur_process_vmid dest seq_ in
  (send_ipc_message resp p, emit (EvResponse p dest ret seq_) st).

(** The lookup in [ipc_callbacks] and the call, for a message that was
    neither handed to the caller nor sent by this process. *)
Definition dispatch `{Env} (p : Z) (msg : shim_ipc_msg) (ret : Z)
  (st : ipc_state) : Z * ipc_state :=
  let callback := ipc_callbacks (code msg) in
  if negb (callback =? 0) then
    let ret := callback_ret callback msg p in
    let st := emit (EvCallback callback msg p) st in
    if ((ret <? 0) || (ret =? RESPONSE_CALLBACK)) && negb (seq msg =? 0)
    then __response_ipc_message p (src msg) ret (seq msg) st
    else (ret, st)
  else (ret, st).

(** The code after the [do { ... } while] loop. *)
Definition recv_finish (p : Z) (msgptr : msgptr_t) (ret : Z) (st : ipc_state)
  : outcome (Z * recv_out) :=
  Done (ret, match msgptr with Some _ => OutNull | None => OutUntouched end)
    (put_ipc_port p st).

(** From the self-message test to the loop condition of [do ... while]:
    skip or dispatch the message, then drop its bytes from the buffer. *)
Definition recv_process `{Env}
  (k : Z -> list Z -> Z -> ipc_state -> outcome (Z * recv_out))
  (p seq_ : Z) (msgptr : msgptr_t) (msg : shim_ipc_msg) (buf : list Z)
  (ret : Z) (st : ipc_state) : outcome (Z * recv_out) :=
  let '(ret, st) :=
    if src msg =? cur_process_vmid then (ret, st)
    else dispatch p msg ret st in
  (* next: *)
  let rest := drop (Z.to_nat (size msg)) buf in
  if (0 <? Z.of_nat (length rest)) ||
     (negb (seq_ =? 0) && negb (seq msg =? seq_))
  then k IPC_MSG_MINIMAL_SIZE rest ret st
  else recv_finish p msgptr ret st.

(** The body of the [do] loop from [if (!bytes)] on.  [k] re-enters the
    read loop ([goto retry_read], or the next round of [do]) with a new
    [expected_size]; [buf] holds the [bytes] read so far.  The size field
    and the byte counts are compared as integers, which is the comparison
    of the code as long as they fit its [int] variables. *)
Definition recv_after_read `{Env}
  (k : Z -> list Z -> Z -> ipc_state -> outcome (Z * recv_out))
  (p seq_ : Z) (msgptr : msgptr_t) (buf : list Z) (ret : Z) (st : ipc_state)
  : outcome (Z * recv_out) :=
  let bytes := Z.of_nat (length buf) in
  if bytes =? 0 then
    if negb (pal_errno st =? 0) then
      match del_ipc_port_fini p (to_uint (- ECHILD)) st with
      | Done _ st => recv_finish p msgptr (- PAL_ERRNO_of (pal_errno st)) st
      | Abort st => Abort st
      | Fuel st => Fuel st
      end
    else recv_finish p msgptr ret st
  else
    let msg := msg_view buf in
    let expected_size := size msg in
    if bytes <? expected_size then k expected_size buf ret st
    else
      match msgptr with
      | Some target =>
          if (seq_ =? 0) || (seq msg =? seq_) then
            let size' :=
              match target with
              | Some cap => if size msg >? cap then cap else size msg
              | None => size msg
              end in
            (* the cut of [msg->size] is a store into the buffer *)
            let buf' :=
              match target with
              | Some cap => if size msg >? cap then msg_set_size cap buf else buf
              | None => buf
              end in
            Done (0, OutMsg (with_size size' msg) (take (Z.to_nat size') buf')) st
          else recv_process k p seq_ msgptr msg buf ret st
      | None => recv_process k p seq_ msgptr msg buf ret st
      end.

(** The read loop [while (bytes < expected_size)] followed by the rest of
    the [do] body; every read and every message costs one unit of [fuel].
    The buffer is the list of the bytes read so far, so the doubling of
    [bufsize] and the copy into a larger [alloca] block have no counterpart
    here. *)
Fixpoint recv_loop `{Env} (fuel : nat) (p seq_ : Z) (msgptr : msgptr_t)
  (expected_size : Z) (buf : list Z) (ret : Z) (st : ipc_state)
  {struct fuel} : outcome (Z * recv_out) :=
  match fuel with
  | O => Fuel st
  | S fuel' =>
      let bytes := Z.of_nat (length buf) in
      if bytes <? expected_size then
        let '(data, st') :=
          DkStreamRead (pal_handle (port_at st p))
            (expected_size - bytes + IPC_MSG_READAHEAD) st in
        let ret' := Z.of_nat (length data) in
        if ret' =? 0
        then recv_after_read (recv_loop fuel' p seq_ msgptr) p seq_ msgptr
               buf ret' st'
        else recv_loop fuel' p seq_ msgptr expected_size (buf ++ data) ret' st'
      else
        recv_after_read (recv_loop fuel' p seq_ msgptr) p seq_ msgptr
          buf ret st
  end.

Definition receive_ipc_message `{Env} (fuel : nat) (p seq_ : Z)
  (msgptr : msgptr_t) (st : ipc_state) : outcome (Z * recv_out) :=
  recv_loop fuel p seq_ msgptr IPC_MSG_MINIMAL_SIZE [] 0 (get_ipc_port p st).

(** *** Lookup and the remaining evictions *)

Definition ESRCH : Z := 3.

Definition set_broadcast_port (p : Z) (st : ipc_state) : ipc_state :=
  mkState (ports st) (pobj_list st) (ipc_port_pool st)
    (ipc_helper_state st) (ipc_helper_thread st) (ipc_helper_update st)
    p (streams st) (pal_errno st) (trace st).

(** [&ipc_port_pool[PID_HASH(vmid)]] as the list of its entries. *)
Definition bucket_of (st : ipc_state) (vmid_ : Z) : list Z :=
  default [] (ipc_port_pool st !! Z.to_nat (PID_HASH vmid_)).

(** Result: the port found (with one more reference), or [NULL]. *)
Definition __lookup_ipc_port (vmid_ type_ : Z) (st : ipc_state)
  : Z * ipc_state :=
  match
    List.find
      (fun tmp =>
         (vmid (info (port_at st tmp)) =? vmid_) &&
         ((type_ =? 0) || tst (type (info (port_at st tmp))) type_))
      (bucket_of st vmid_)
  with
  | Some tmp => (tmp, __get_ipc_port tmp st)
  | None => (0, st)
  end.

Definition lookup_ipc_port := __lookup_ipc_port.

(** One round of [hlist_for_each_entry_safe] in [del_ipc_port_by_id]. *)
Definition del_by_id_step `{Env} (vmid_ type_ : Z)
  (acc : bool * ipc_state) (port : Z) : bool * ipc_state :=
  let '(need_restart, st) := acc in
  if vmid (info (port_at st port)) =? vmid_ then
    let '(r, st) := __del_ipc_port port type_ st in
    (if r then true else need_restart, st)
  else (need_restart, st).

Definition del_ipc_port_by_id `{Env} (vmid_ type_ : Z) (st : ipc_state)
  : ipc_state :=
  let '(need_restart, st) :=
    fold_left (del_by_id_step vmid_ type_) (bucket_of st vmid_) (false, st) in
  if need_restart then restart_ipc_helper false st else st.

(** One round of [list_for_each_entry_safe] in [del_all_ipc_ports]. *)
Definition del_all_step `{Env} (type_ : Z) (acc : bool * ipc_state)
  (pobj : Z) : bool * ipc_state :=
  let '(need_restart, st) := acc in
  if negb (pal_handle (port_at st pobj) =? 0) then
    let '(r, st) := __del_ipc_port pobj type_ st in
    (if r then true else need_restart, st)
  else (need_restart, st).

Definition del_all_ipc_ports `{Env} (type_ : Z) (st : ipc_state)
  : ipc_state :=
  let '(need_restart, st) :=
    fold_left (del_all_step type_) (pobj_list st) (false, st) in
  if need_restart then restart_ipc_helper false st else st.

(** The fini callback installed on the broadcast port. *)
Definition ipc_broadcast_exit (port : Z) (st : ipc_state) : ipc_state :=
  if port =? broadcast_port st
  then put_ipc_port port (set_broadcast_port 0 st)
  else st.

(** *** Ports made on demand *)

(** The object manager of the ports: the address of a new object, or [NULL]
    when it has none to give. *)
Class PortMgr := {
  get_mem_obj_from_mgr_enlarge : ipc_state -> Z
}.

Definition __get_new_ipc_port `{Env} `{PortMgr} (hdl : Z) (st : ipc_state)
  : Z * ipc_state :=
  let port := get_mem_obj_from_mgr_enlarge st in
  if port =? 0 then (0, st)
  else
    (port,
     set_ports
       (<[port := mkPort hdl (mkInfo 0 0) (mkInfo 0 0) true false
                    (replicate MAX_IPC_PORT_FINI_CB 0) [] 1]>) st).

(** [portptr] tells whether the caller passed a place for the port; the
    result is what is stored there.  Without such a place the store after a
    failed allocation goes through [NULL]. *)
Definition add_ipc_port_by_id `{Env} `{PortMgr} (vmid_ hdl type_ fini_ : Z)
  (portptr : bool) (st : ipc_state) : outcome (option Z) :=
  let '(port, st) :=
    if negb (vmid_ =? 0) then
      match
        List.find
          (fun tmp => (vmid (info (port_at st tmp)) =? vmid_) &&
                      (pal_handle (port_at st tmp) =? hdl))
          (bucket_of st vmid_)
      with
      | Some tmp => (tmp, __get_ipc_port tmp st)
      | None => (0, st)
      end
    else (0, st) in
  let '(port, st) :=
    if port =? 0 then
      match
        List.find (fun tmp => pal_handle (port_at st tmp) =? hdl) (pobj_list st)
      with
      | Some tmp => (tmp, __get_ipc_port tmp st)
      | None => (port, st)
      end
    else (port, st) in
  let '(port, st) :=
    if port =? 0 then __get_new_ipc_port hdl st else (port, st) in
  if port =? 0 then
    if portptr then Done (Some 0) st else Abort st
  else
    match __add_ipc_port port vmid_ type_ fini_ st with
    | Done need_restart st =>
        let st := if portptr then st else __put_ipc_port port st in
        Done (if portptr then Some port else None)
          (if need_restart then restart_ipc_helper true st else st)
    | Abort st => Abort st
    | Fuel st => Fuel st
    end.

(** *** Starting and stopping the helper *)

Definition init_ipc_helper `{Env} (st : ipc_state) : Z * ipc_state :=
  let need_helper := bool_decide (ipc_helper_state st = HELPER_DELAYED) in
  let st := set_helper_state HELPER_NOTALIVE st in
  (0, if need_helper then (create_ipc_helper st).2 else st).

Definition terminate_ipc_helper (st : ipc_state) : Z * ipc_state :=
  if ipc_helper_thread st =? 0 then (- ESRCH, st)
  else (0, emit EvSetEvent (set_helper_state HELPER_NOTALIVE st)).

(** The entry points that move the helper state machine. *)
Inductive helper_call : Type :=
| CallRestart (need_create : bool)
| CallCreate
| CallInit
| CallExit (handover : bool)
| CallTerminate.

Definition run_helper_call `{Env} (c : helper_call) (st : ipc_state)
  : ipc_state :=
  match c with
  | CallRestart b => restart_ipc_helper b st
  | CallCreate => (create_ipc_helper st).2
  | CallInit => (init_ipc_helper st).2
  | CallExit b => (exit_with_ipc_helper b st).2
  | CallTerminate => (terminate_ipc_helper st).2
  end.

(** *** Vocabulary of the statements *)

(** The roles that [__del_ipc_port] is asked to clear. *)
Definition cleared_roles (mask t0 : Z) : Z :=
  if mask =? 0 then t0 else Z.land mask t0.

(** The roles of a port that keep it in the registry: those outside the
    cleared ones, IFPOLL and KEEPALIVE. *)
Definition other_roles `{Env} (mask t0 : Z) : Z :=
  Z.land t0
    (Z.lnot (Z.lor (cleared_roles mask t0)
                   (Z.lor IPC_PORT_IFPOLL IPC_PORT_KEEPALIVE))).

(** A fini array is filled from the front: no callback follows a free
    slot. *)
Fixpoint fini_compact (l : list Z) : bool :=
  match l with
  | [] => true
  | cb :: l' => if cb =? 0 then forallb (Z.eqb 0) l' else fini_compact l'
  end.

(** The number of callbacks installed in a fini array. *)
Definition fini_count (l : list Z) : nat :=
  length (List.filter (fun cb => negb (cb =? 0)) l).

(** The callback events of a trace, and the messages sent in it. *)
Definition callbacks_of (tr : list event) : list event :=
  List.filter (fun e => match e with EvCallback _ _ _ => true | _ => false end)
    tr.

Definition sends_of (tr : list event) : list (shim_ipc_msg * Z) :=
  flat_map (fun e => match e with EvSend m q => [(m, q)] | _ => [] end) tr.

(** Whether the broadcast is meant for port [q]: its roles meet the target
    mask and it is not excluded. *)
Definition broadcast_recipient `{Env} (st : ipc_state) (exclude : list Z)
  (target_type q : Z) : bool :=
  tst (type (info (port_at st q))) target_type && negb (memb q exclude).

(** Every callback of a trace was run on a message from another process. *)
Definition no_self_callback `{Env} (tr : list event) : Prop :=
  forall cb m q, In (EvCallback cb m q) tr -> src m <> cur_process_vmid.

(** The state with the events [es] appended to its trace. *)
Definition emit_all (es : list event) (st : ipc_state) : ipc_state :=
  mkState (ports st) (pobj_list st) (ipc_port_pool st) (ipc_helper_state st)
    (ipc_helper_thread st) (ipc_helper_update st) (broadcast_port st)
    (streams st) (pal_errno st) (trace st ++ es).

(** [st'] has the trace of [st] followed by events that are no callbacks. *)
Definition quiet_step (st st' : ipc_state) : Prop :=
  exists es, trace st' = trace st ++ es /\ callbacks_of es = [].

(** The peer id of a port after [__add_ipc_port]: the given one if one is
    given and none was known. *)
Definition added_vmid (vmid_ : Z) (o : shim_ipc_port) : Z :=
  if negb (vmid_ =? 0) && (vmid (info o) =? 0) then vmid_ else vmid (info o).

(** The roles of a port after [__add_ipc_port]. *)
Definition added_type (type_ : Z) (o : shim_ipc_port) : Z :=
  if negb (Z.land (type (info o)) type_ =? type_)
  then Z.lor (type (info o)) type_ else type (info o).

(** The loop bodies of [del_all_ipc_ports] and [del_ipc_port_by_id]: evict
    the port if it passes the guard. *)
Definition sweep_step `{Env} (guard : shim_ipc_port -> bool) (type_ : Z)
  (acc : bool * ipc_state) (port : Z) : bool * ipc_state :=
  if guard (port_at acc.2 port) then
    ((if (__del_ipc_port port type_ acc.2).1 then true else acc.1),
     (__del_ipc_port port type_ acc.2).2)
  else acc.

(** The ports a sweep over [l] removes. *)
Definition swept `{Env} (guard : shim_ipc_port -> bool) (type_ : Z) (l : list Z)
  (st : ipc_state) (q : Z) : bool :=
  memb q l && guard (port_at st q)
  && (other_roles type_ (type (info (port_at st q))) =? 0).

(** A helper that is running, or was handed over, has its thread on
    record. *)
Definition helper_recorded (st : ipc_state) : Prop :=
  ipc_helper_state st = HELPER_ALIVE \/ ipc_helper_state st = HELPER_HANDEDOVER ->
  ipc_helper_thread st <> 0.

(** The state after a sequence of calls of the entry points. *)
Definition run_helper_calls `{Env} (cs : list helper_call) (st : ipc_state)
  : ipc_state :=
  fold_left (fun s c => run_helper_call c s) cs st.

(** The outside calls of reference counting and of waking the helper. *)
Definition bookkeeping_event (e : event) : bool :=
  match e with
  | EvObjectClose _ | EvFree _ | EvSetEvent => true
  | _ => false
  end.

(** [st'] has the trace of [st] followed by bookkeeping events only. *)
Definition bookkeeping_step (st st' : ipc_state) : Prop :=
  exists es, trace st' = trace st ++ es /\ forallb bookkeeping_event es = true.

(** A response goes to another process, answers a numbered request and
    carries no positive value. *)
Definition response_ok `{Env} (e : event) : bool :=
  match e with
  | EvResponse _ dest ret seq_ =>
      negb (dest =? cur_process_vmid) && negb (seq_ =? 0) && (ret <=? 0)
  | _ => true
  end.

(** What holds of a message [hdr], [data] left in [*msgptr]: the caller
    passed a [msgptr], the message has the awaited sequence number if one
    was awaited, and its size is cut down to the caller's buffer if one was
    passed. *)
Definition handed (msgptr : msgptr_t) (seq_ : Z) (hdr : shim_ipc_msg)
  (data : list Z) : Prop :=
  exists target,
    msgptr = Some target /\
    (seq_ = 0 \/ seq hdr = seq_) /\
    (length data <= Z.to_nat (size hdr))%nat /\
    (forall cap, target = Some cap -> size hdr <= cap).

(** [st'] has the trace of [st] followed by events that are no responses or
    are well-formed responses. *)
Definition response_step `{Env} (st st' : ipc_state) : Prop :=
  exists es, trace st' = trace st ++ es /\ forallb response_ok es = true.

End Ipc.

(** ** Sample environments

    Concrete values for the parameters above, used to run the definitions
    on explicit inputs. *)

(** Modelled from the spec: a host for the eventfd driver.  [pal.h] and
    [pal_host.h] are not among the modelled files; the poison index is the
    all-ones 32-bit value and [ERROR(0)] is one flag bit.  The host refuses
    the poison descriptor with [EBADF] and serves any other one. *)
Definition sample_eventfd_host : Eventfd.Host :=
  {| Eventfd.PAL_IDX_POISON := 2 ^ 32 - 1;
     Eventfd.ERROR0 := 512;
     Eventfd.unix_to_pal_error :=
       fun e => if e =? -9 then PAL_ERROR_BADHANDLE else PAL_ERROR_OTHER e;
     Eventfd.ocall_read := fun fd len => if fd =? 2 ^ 32 - 1 then -9 else 8;
     Eventfd.ocall_write := fun fd len => if fd =? 2 ^ 32 - 1 then -9 else 8;
     Eventfd.ocall_fionread := fun fd => 8;
     Eventfd.ocall_poll := fun fd events => (1, POLLIN) |}.

Definition open_eventfd : Eventfd.PAL_HANDLE :=
  Eventfd.mkHandle Eventfd.pal_type_eventfd 9 5 false.

Definition closed_eventfd : Eventfd.PAL_HANDLE :=
  Eventfd.mkHandle Eventfd.pal_type_eventfd 9 (2 ^ 32 - 1) false.

Definition pipe_handle : Eventfd.PAL_HANDLE :=
  Eventfd.mkHandle (Eventfd.pal_type_other 3) 9 5 false.

(** Modelled from the spec: a host for the multi-wait primitive.  The flag
    macros of [pal_host.h] are not among the modelled files; they are taken
    as one bit per kind and slot, with three slots per handle.  Its [ppoll]
    reports descriptor 3 readable and descriptor 4 hung up. *)
Definition sample_object_host : Object.Host :=
  {| Object.ERESTART := 85;
     Object.MAX_FDS := 3;
     Object.HAS_FDS := 63;
     Object.RFD := fun n => Z.shiftl 1 (Z.of_nat n);
     Object.WFD := fun n => Z.shiftl 8 (Z.of_nat n);
     Object.WRITEABLE := fun n => Z.shiftl 64 (Z.of_nat n);
     Object.ERROR := fun n => Z.shiftl 512 (Z.of_nat n);
     Object.PAL_IDX_POISON := 2 ^ 32 - 1;
     Object.unix_to_pal_error := fun e => PAL_ERROR_OTHER e;
     Object.ppoll := fun l _ =>
       Object.PollRet 2
         (map (fun p => if Object.pfd_fd p =? 3 then POLLIN
                        else if Object.pfd_fd p =? 4 then POLLHUP else 0) l);
     Object.ops_wait := fun _ => None |}.

(** Two stream handles at addresses 100 and 200, each readable on slot 0,
    and two event-like handles without descriptors at 300 and 400. *)
Definition sample_handles : gmap Z Object.PAL_HANDLE :=
  <[100 := Object.mkHandle 1 [3; 0; 0]]>
  (<[200 := Object.mkHandle 1 [4; 0; 0]]>
  (<[300 := Object.mkHandle 0 [0; 0; 0]]>
  (<[400 := Object.mkHandle 0 [0; 0; 0]]> ∅))).

(** The same handles and a stream handle at 500 that is readable on slot 0
    (descriptor 3) and on slot 1 (descriptor 4). *)
Definition sample_handles_pair : gmap Z Object.PAL_HANDLE :=
  <[500 := Object.mkHandle 3 [3; 4; 0]]> sample_handles.

(** Little-endian value of a byte string. *)
Definition le_value (l : list Z) : Z :=
  fold_right (fun b acc => b + 256 * acc) 0 l.

(** Little-endian bytes of a value. *)
Fixpoint le_bytes (n : nat) (v : Z) : list Z :=
  match n with
  | O => []
  | S n' => v mod 256 :: le_bytes n' (v / 256)
  end.

(** Modelled from the spec: the frame header of section 6 ([shim_ipc.h] is
    not among the modelled files): a 16-bit code, a 32-bit size, 32-bit
    source and destination ids and a 64-bit sequence number, 22 bytes. *)
Definition sample_msg_view (buf : list Z) : Ipc.shim_ipc_msg :=
  Ipc.mkMsg (le_value (take 2 buf))
            (le_value (take 4 (drop 2 buf)))
            (le_value (take 4 (drop 6 buf)))
            (le_value (take 4 (drop 10 buf)))
            (le_value (take 8 (drop 14 buf))).

(** The same layout, written: the 32-bit size field replaced. *)
Definition sample_msg_set_size (n : Z) (buf : list Z) : list Z :=
  take 2 buf ++ le_bytes 4 n ++ drop 6 buf.

Definition IPC_PORT_SERVER : Z := 1.
Definition IPC_PORT_LISTEN : Z := 2.
Definition IPC_PORT_DIRPRT : Z := 4.

(** Modelled from the spec: an environment for the port manager.  The role
    bits of [shim_ipc.h] are taken as one bit each, IFPOLL = 32 and
    KEEPALIVE = 64 next to the three above; at most three fini callbacks per
    port; this process has id 1 and runs on thread 7000; code 1 has a
    handler at 5001; sends to port 2000 fail. *)
Definition sample_env : Ipc.Env :=
  {| Ipc.IPC_PORT_IFPOLL := 32;
     Ipc.IPC_PORT_KEEPALIVE := 64;
     Ipc.MAX_IPC_PORT_FINI_CB := 3;
     Ipc.IPC_MSG_MINIMAL_SIZE := 22;
     Ipc.IPC_MSG_READAHEAD := 8;
     Ipc.RESPONSE_CALLBACK := 1;
     Ipc.cur_process_vmid := 1;
     Ipc.get_cur_thread := 7000;
     Ipc.PAL_ERRNO_of := fun e => e;
     Ipc.msg_view := sample_msg_view;
     Ipc.msg_set_size := sample_msg_set_size;
     Ipc.ipc_callbacks := fun c => if c =? 1 then 5001 else 0;
     Ipc.callback_ret := fun _ _ _ => 0;
     Ipc.send_ipc_message := fun _ p => if p =? 2000 then -32 else 0;
     Ipc.get_new_internal_thread := 7001;
     Ipc.thread_create := fun _ => inl 9000 |}.

Definition sample_port (handle vmid_ type_ : Z) (fini_ : list Z) (refs : Z)
  : Ipc.shim_ipc_port :=
  Ipc.mkPort handle (Ipc.mkInfo vmid_ type_) (Ipc.mkInfo vmid_ type_)
    false false fini_ [] refs.

Definition empty_pool : list (list Z) := replicate 64 [].

(** Three ports at addresses 1000, 2000 and 3000 for the peers 7, 8 and 9:
    a polled listener with a fini callback, a parent link and a kept-alive
    parent link.  Each is on the list and in its peer's bucket, and the
    helper is alive on thread 7001. *)
Definition sample_state : Ipc.ipc_state :=
  Ipc.mkState
    (<[1000 := sample_port 11 7 (2 + 32) [4001; 0; 0] 3]>
     (<[2000 := sample_port 12 8 4 [0; 0; 0] 2]>
      (<[3000 := sample_port 13 9 (4 + 64) [0; 0; 0] 2]> ∅)))
    [1000; 2000; 3000]
    (<[7%nat := [1000]]> (<[8%nat := [2000]]> (<[9%nat := [3000]]> empty_pool)))
    Ipc.HELPER_ALIVE 7001 false 0
    (<[11 := [Ipc.ReadFail 5]]> ∅)
    0 [].

(** A frame without payload, laid out as [sample_msg_view] reads it. *)
Definition sample_frame (code_ src_ dst_ seq_ : Z) : list Z :=
  le_bytes 2 code_ ++ le_bytes 4 22 ++ le_bytes 4 src_ ++ le_bytes 4 dst_
  ++ le_bytes 8 seq_.

(** The sample state with the stream of the listener at 1000 holding an
    echo of a message of this process followed by a message from peer 7. *)
Definition sample_state_echo : Ipc.ipc_state :=
  Ipc.set_streams
    (<[11 := [Ipc.Chunk (sample_frame 1 1 0 0 ++ sample_frame 1 7 1 0)]]> ∅)
    sample_state.

(** Modelled from the spec: the option bits of [pal.h] and the flag macros
    of [pal_host.h] for opening an eventfd (neither header is among the
    modelled files), with a host that hands out descriptor 5 and an
    allocator that succeeds. *)
Definition sample_open_host : Eventfd.OpenHost :=
  {| Eventfd.PAL_OPTION_NONBLOCK := 4;
     Eventfd.PAL_OPTION_CLOEXEC := 1;
     Eventfd.PAL_OPTION_EFD_SEMAPHORE := 2;
     Eventfd.URI_TYPE_EVENTFD := "eventfd"%string;
     Eventfd.RFD0 := 1;
     Eventfd.WFD0 := 8;
     Eventfd.ocall_eventfd := fun _ _ => 5;
     Eventfd.malloc_ok := true |}.


(** A host whose [nanosleep] is interrupted with 1.2 seconds left. *)
Definition sample_thread_host : Threading.Host :=
  {| Threading.nanosleep := fun _ => Some (1, 200000000) |}.

(** The sample state with one more port at 4000 that has a handle but no
    peer id and no role yet, and is neither on the list nor in a bucket. *)
Definition sample_state_fresh : Ipc.ipc_state :=
  Ipc.set_ports (<[4000 := sample_port 14 0 0 [0; 0; 0] 1]>) sample_state.

(** An object manager that hands out the address 4000. *)
Definition sample_port_mgr : Ipc.PortMgr :=
  {| Ipc.get_mem_obj_from_mgr_enlarge := fun _ => 4000 |}.

(** * Properties *)

(** ** The eventfd driver *)

Section EventfdFacts.

Import Eventfd.
Context `{Host}.

Lemma eventfd_close_poisons (h : PAL_HANDLE) :
  IS_HANDLE_TYPE_eventfd (hdr_type h) = true ->
  eventfd_fd (eventfd_pal_close h).1.2 = PAL_IDX_POISON.
Proof.
  intros Ht. unfold eventfd_pal_close. rewrite Ht.
  destruct (eventfd_fd h =? PAL_IDX_POISON) eqn:E; simpl; [lia | reflexivity].
Qed.

(** Closing a closed handle succeeds, changes nothing and calls nothing. *)
Lemma eventfd_close_idempotent (h : PAL_HANDLE) :
  eventfd_fd h = PAL_IDX_POISON ->
  eventfd_pal_close h = (Ret 0, h, []).
Proof.
  intros Hfd. unfold eventfd_pal_close.
  destruct (IS_HANDLE_TYPE_eventfd (hdr_type h)); [| reflexivity].
  rewrite Hfd, Z.eqb_refl. reflexivity.
Qed.

Lemma eventfd_close_twice (h : PAL_HANDLE) :
  let h1 := (eventfd_pal_close h).1.2 in
  IS_HANDLE_TYPE_eventfd (hdr_type h) = true ->
  eventfd_pal_close h1 = (Ret 0, h1, []).
Proof.
  intros h1 Ht. apply eventfd_close_idempotent.
  subst h1. now apply eventfd_close_poisons.
Qed.

(** The attribute query is guarded by the poison test. *)
Lemma eventfd_attrquery_closed (h : PAL_HANDLE) :
  eventfd_fd h = PAL_IDX_POISON ->
  eventfd_pal_attrquerybyhdl h = (Fail PAL_ERROR_BADHANDLE, None, []).
Proof.
  intros Hfd. unfold eventfd_pal_attrquerybyhdl.
  rewrite Hfd, Z.eqb_refl. reflexivity.
Qed.

(** C9.  Read and write have no such guard: on a closed eventfd handle
    (descriptor poisoned) with a valid offset and length each of them hands
    the poisoned descriptor to the host, and its result is whatever the host
    answers, while close and the attribute query behave as the claim says. *)
Theorem eventfd_rw_touch_poisoned_fd (h : PAL_HANDLE) (len : Z) :
  IS_HANDLE_TYPE_eventfd (hdr_type h) = true ->
  eventfd_fd h = PAL_IDX_POISON ->
  sizeof_uint64_t <= len ->
  (eventfd_pal_read h 0 len).2 = [OcallRead PAL_IDX_POISON len] /\
  (eventfd_pal_write h 0 len).2 = [OcallWrite PAL_IDX_POISON len] /\
  (0 <= ocall_read PAL_IDX_POISON len ->
   (eventfd_pal_read h 0 len).1 = Ret (ocall_read PAL_IDX_POISON len)) /\
  (0 <= ocall_write PAL_IDX_POISON len ->
   (eventfd_pal_write h 0 len).1 = Ret (ocall_write PAL_IDX_POISON len)) /\
  eventfd_pal_close h = (Ret 0, h, []) /\
  eventfd_pal_attrquerybyhdl h = (Fail PAL_ERROR_BADHANDLE, None, []).
Proof.
  intros Ht Hfd Hlen.
  unfold eventfd_pal_read, eventfd_pal_write.
  rewrite Ht, Hfd. simpl negb. cbv iota.
  destruct (len <? sizeof_uint64_t) eqn:El; [lia |].
  repeat split.
  - destruct (ocall_read PAL_IDX_POISON len <? 0); reflexivity.
  - destruct (ocall_write PAL_IDX_POISON len <? 0); reflexivity.
  - intros Hr. destruct (ocall_read PAL_IDX_POISON len <? 0) eqn:E; [lia | reflexivity].
  - intros Hr. destruct (ocall_write PAL_IDX_POISON len <? 0) eqn:E; [lia | reflexivity].
  - now apply eventfd_close_idempotent.
  - now apply eventfd_attrquery_closed.
Qed.

(** C10 (amended).  Read and write fail with the invalid-argument error,
    before any I/O, whenever the offset is non-zero, or the handle is of
    eventfd type and the length is below 8; with a zero offset they fail with
    the not-connection error, before any I/O, when the handle is not of
    eventfd type. *)
Theorem eventfd_rw_argument_checks (h : PAL_HANDLE) (offset len : Z) :
  (offset <> 0 \/
   (IS_HANDLE_TYPE_eventfd (hdr_type h) = true /\ len < sizeof_uint64_t) ->
   eventfd_pal_read h offset len = (Fail PAL_ERROR_INVAL, []) /\
   eventfd_pal_write h offset len = (Fail PAL_ERROR_INVAL, [])) /\
  (offset = 0 /\ IS_HANDLE_TYPE_eventfd (hdr_type h) = false ->
   eventfd_pal_read h offset len = (Fail PAL_ERROR_NOTCONNECTION, []) /\
   eventfd_pal_write h offset len = (Fail PAL_ERROR_NOTCONNECTION, [])).
Proof.
  unfold eventfd_pal_read, eventfd_pal_write. split.
  - intros [Ho | [Ht Hl]].
    + destruct (offset =? 0) eqn:E; [lia | simpl; auto].
    + destruct (offset =? 0); simpl; auto.
      rewrite Ht. simpl.
      destruct (len <? sizeof_uint64_t) eqn:E; [auto | lia].
  - intros [-> Ht]. rewrite Ht. simpl. auto.
Qed.

End EventfdFacts.

Lemma eventfd_rw_touch_poisoned_fd_witness :
  (Eventfd.eventfd_pal_read (H := sample_eventfd_host) closed_eventfd 0 8).2
  = [Eventfd.OcallRead (2 ^ 32 - 1) 8].
Proof.
  apply (eventfd_rw_touch_poisoned_fd (H := sample_eventfd_host)
           closed_eventfd 8);
    [reflexivity | reflexivity | unfold Eventfd.sizeof_uint64_t; lia].
Defined.

Lemma eventfd_rw_argument_checks_witness :
  Eventfd.eventfd_pal_read (H := sample_eventfd_host) open_eventfd 0 4
  = (Fail PAL_ERROR_INVAL, []) /\
  Eventfd.eventfd_pal_write (H := sample_eventfd_host) pipe_handle 0 8
  = (Fail PAL_ERROR_NOTCONNECTION, []).
Proof.
  split.
  - apply (eventfd_rw_argument_checks (H := sample_eventfd_host)
             open_eventfd 0 4).
    right. split; [reflexivity | unfold Eventfd.sizeof_uint64_t; lia].
  - apply (eventfd_rw_argument_checks (H := sample_eventfd_host)
             pipe_handle 0 8).
    split; reflexivity.
Defined.

(** C10 as stated fails: a handle that is not of eventfd type, read with a
    non-zero offset, gets the invalid-argument error and not the
    not-connection error. *)
Lemma eventfd_not_connection_counterexample :
  Eventfd.eventfd_pal_read (H := sample_eventfd_host) pipe_handle 1 8
  = (Fail PAL_ERROR_INVAL, []) /\
  Eventfd.eventfd_pal_read (H := sample_eventfd_host) pipe_handle 1 8
  <> (Fail PAL_ERROR_NOTCONNECTION, []).
Proof. split; [reflexivity | discriminate]. Qed.

(** ** The multi-wait primitive *)

Section ObjectFacts.

Import Object.
Context `{Host}.

Lemma land_lor_keep (a b m : Z) :
  Z.land a m = m -> Z.land (Z.lor a b) m = m.
Proof.
  intros Ha. apply Z.bits_inj'. intros n Hn.
  apply (f_equal (fun x => Z.testbit x n)) in Ha.
  rewrite Z.land_spec in Ha. rewrite Z.land_spec, Z.lor_spec.
  destruct (Z.testbit a n), (Z.testbit b n), (Z.testbit m n);
    simpl in *; congruence.
Qed.

Lemma land_lor_own (a m : Z) : Z.land (Z.lor a m) m = m.
Proof.
  apply Z.bits_inj'. intros n Hn. rewrite Z.land_spec, Z.lor_spec.
  destruct (Z.testbit a n), (Z.testbit m n); reflexivity.
Qed.

(** Noting an event never clears a flag. *)
Lemma note_revents_keeps (r : Z) (j : nat) (fl m : Z) :
  Z.land fl m = m -> Z.land (note_revents r j fl) m = m.
Proof.
  intros Hm. unfold note_revents.
  destruct (tst r POLLOUT), (tst r (Z.lor POLLHUP POLLERR));
    auto using land_lor_keep.
Qed.

(** A hang-up or error sets the error flag of the slot. *)
Lemma note_revents_error (r : Z) (j : nat) (fl : Z) :
  tst r (Z.lor POLLHUP POLLERR) = true ->
  Z.land (note_revents r j fl) (ERROR j) = ERROR j.
Proof.
  intros Hr. unfold note_revents. rewrite Hr. apply land_lor_own.
Qed.

(** Once a handle has been picked, the rest of the loop touches no other
    handle and only adds flags to the picked one. *)
Lemma record_revents_picked (l : list poll_entry) :
  forall (rs : list Z) (polled : Z) (heap : gmap Z PAL_HANDLE),
    polled <> 0 ->
    (record_revents l rs polled heap).1 = polled /\
    (forall a, a <> polled ->
               (record_revents l rs polled heap).2 !! a = heap !! a) /\
    (forall m, Z.land (flags (heap !!! polled)) m = m ->
               Z.land (flags ((record_revents l rs polled heap).2 !!! polled)) m
               = m).
Proof.
  induction l as [| e l IH]; intros rs polled heap Hp; simpl.
  - auto.
  - destruct (hd 0 rs =? 0); [now apply IH |].
    destruct (polled =? 0) eqn:E0; [lia |]. simpl.
    destruct (pe_hdl e =? polled) eqn:Eh; simpl; [| now apply IH].
    apply Z.eqb_eq in Eh. rewrite Eh.
    destruct (find_slot (heap !!! polled) (pe_fd e)) as [j |]; [| now apply IH].
    destruct (IH (tl rs) polled
                (<[polled := mkHandle
                     (note_revents (hd 0 rs) j (flags (heap !!! polled)))
                     (fds (heap !!! polled))]> heap) Hp) as (I1 & I2 & I3).
    split; [exact I1 |]. split.
    + intros a Ha. rewrite I2 by exact Ha. now apply lookup_insert_ne.
    + intros m Hm. apply I3.
      rewrite lookup_total_insert_eq. simpl. now apply note_revents_keeps.
Qed.

Lemma tst_keep (fl x m : Z) : tst fl m = true -> tst (Z.lor fl x) m = true.
Proof.
  unfold tst. intros Ha. apply negb_true_iff, Z.eqb_neq in Ha.
  apply negb_true_iff, Z.eqb_neq. intros Hz. apply Ha.
  rewrite Z.land_lor_distr_l in Hz. now apply Z.lor_eq_0_iff in Hz.
Qed.

(** Noting an event keeps every test on the flags that held before. *)
Lemma note_revents_tst (r : Z) (j : nat) (fl m : Z) :
  tst fl m = true -> tst (note_revents r j fl) m = true.
Proof.
  intros Hm. unfold note_revents.
  destruct (tst r POLLOUT), (tst r (Z.lor POLLHUP POLLERR));
    auto using tst_keep.
Qed.

Lemma tst_zero_l (m : Z) : tst 0 m = false.
Proof. unfold tst. now rewrite Z.land_0_l. Qed.

Lemma nth_tl (k : nat) (rs : list Z) : nth k (tl rs) 0 = nth (S k) rs 0.
Proof. destruct rs as [| r rs]; [now destruct k | reflexivity]. Qed.

Lemma hd_nth (rs : list Z) : hd 0 rs = nth 0 rs 0.
Proof. now destruct rs. Qed.

(** The slot search succeeds on a descriptor that some usable slot holds,
    and what it finds is a usable slot with that descriptor. *)
Lemma find_slot_usable (h : PAL_HANDLE) (fd : Z) (j0 : nat) :
  (j0 < MAX_FDS)%nat ->
  tst (flags h) (Z.lor (RFD j0) (WFD j0)) = true ->
  nth j0 (fds h) 0 = fd ->
  exists j, find_slot h fd = Some j /\ (j < MAX_FDS)%nat /\
            tst (flags h) (Z.lor (RFD j) (WFD j)) = true /\
            nth j (fds h) 0 = fd.
Proof.
  intros Hj Ht Hf. unfold find_slot.
  destruct (List.find _ (seq 0 MAX_FDS)) as [j |] eqn:Ef.
  - exists j. apply find_some in Ef as [Hin Hm].
    apply in_seq in Hin. apply andb_prop in Hm as [Hu He].
    apply Z.eqb_eq in He. repeat split; auto. lia.
  - exfalso. pose proof (find_none _ _ Ef j0) as Hn. simpl in Hn.
    rewrite Ht, Hf, Z.eqb_refl in Hn.
    assert (Hin : In j0 (seq 0 MAX_FDS)) by (apply in_seq; lia).
    specialize (Hn Hin). discriminate.
Qed.

(** Once a handle has been picked, every later entry of that handle with a
    hang-up or error sets the error flag of a usable slot that holds the
    entry's descriptor; the descriptors stay and no test on the flags is
    lost. *)
Lemma record_revents_later (l : list poll_entry) :
  forall (rs : list Z) (polled : Z) (heap : gmap Z PAL_HANDLE),
    polled <> 0 ->
    let res := record_revents l rs polled heap in
    fds (res.2 !!! polled) = fds (heap !!! polled) /\
    (forall m, tst (flags (heap !!! polled)) m = true ->
               tst (flags (res.2 !!! polled)) m = true) /\
    (forall k e,
       l !! k = Some e -> pe_hdl e = polled ->
       tst (nth k rs 0) (Z.lor POLLHUP POLLERR) = true ->
       (exists j0, (j0 < MAX_FDS)%nat /\
          tst (flags (heap !!! polled)) (Z.lor (RFD j0) (WFD j0)) = true /\
          nth j0 (fds (heap !!! polled)) 0 = pe_fd e) ->
       exists j, (j < MAX_FDS)%nat /\
         nth j (fds (heap !!! polled)) 0 = pe_fd e /\
         tst (flags (res.2 !!! polled)) (Z.lor (RFD j) (WFD j)) = true /\
         Z.land (flags (res.2 !!! polled)) (ERROR j) = ERROR j).
Proof.
  induction l as [| e0 l IH]; intros rs polled heap Hp; cbv zeta.
  - simpl. split; [reflexivity |]. split; [auto |].
    intros k e Hk. destruct k; discriminate.
  - assert (Hskip :
      forall heap1,
        fds (heap1 !!! polled) = fds (heap !!! polled) ->
        (forall m, tst (flags (heap !!! polled)) m = true ->
                   tst (flags (heap1 !!! polled)) m = true) ->
        let res := record_revents l (tl rs) polled heap1 in
        fds (res.2 !!! polled) = fds (heap !!! polled) /\
        (forall m, tst (flags (heap !!! polled)) m = true ->
                   tst (flags (res.2 !!! polled)) m = true) /\
        (forall k e,
           l !! k = Some e -> pe_hdl e = polled ->
           tst (nth (S k) rs 0) (Z.lor POLLHUP POLLERR) = true ->
           (exists j0, (j0 < MAX_FDS)%nat /\
              tst (flags (heap !!! polled)) (Z.lor (RFD j0) (WFD j0)) = true /\
              nth j0 (fds (heap !!! polled)) 0 = pe_fd e) ->
           exists j, (j < MAX_FDS)%nat /\
             nth j (fds (heap !!! polled)) 0 = pe_fd e /\
             tst (flags (res.2 !!! polled)) (Z.lor (RFD j) (WFD j)) = true /\
             Z.land (flags (res.2 !!! polled)) (ERROR j) = ERROR j)).
    { intros heap1 Hf1 Ht1. cbv zeta.
      destruct (IH (tl rs) polled heap1 Hp) as (I1 & I2 & I3).
      cbv zeta in I1, I2, I3.
      split; [now rewrite I1 |]. split; [auto |].
      intros k e Hk He Hr (j0 & Hj0 & Hu0 & Hd0).
      rewrite <- nth_tl in Hr.
      destruct (I3 k e Hk He Hr) as (j & Hj & Hd & Hu & Hs).
      { exists j0. rewrite Hf1. auto. }
      exists j. rewrite <- Hf1. auto. }
    simpl record_revents.
    destruct (hd 0 rs =? 0) eqn:Er.
    + destruct (Hskip heap eq_refl ltac:(auto)) as (S1 & S2 & S3).
      cbv zeta in S1, S2, S3.
      split; [exact S1 |]. split; [exact S2 |].
      intros [| k] e Hk He Hr Ho; [| now apply (S3 k e)].
      apply Z.eqb_eq in Er. rewrite <- hd_nth, Er, tst_zero_l in Hr.
      discriminate.
    + destruct (polled =? 0) eqn:E0; [lia |]. simpl negb. cbv iota.
      rewrite andb_true_l.
      destruct (pe_hdl e0 =? polled) eqn:Eh; simpl negb; cbv iota.
      * apply Z.eqb_eq in Eh. rewrite Eh.
        destruct (find_slot (heap !!! polled) (pe_fd e0)) as [j |] eqn:Ej.
        -- set (heap1 := <[polled := mkHandle
                             (note_revents (hd 0 rs) j (flags (heap !!! polled)))
                             (fds (heap !!! polled))]> heap).
           assert (Hf1 : fds (heap1 !!! polled) = fds (heap !!! polled))
             by (unfold heap1; now rewrite lookup_total_insert_eq).
           assert (Hfl1 : flags (heap1 !!! polled)
                          = note_revents (hd 0 rs) j (flags (heap !!! polled)))
             by (unfold heap1; now rewrite lookup_total_insert_eq).
           assert (Ht1 : forall m, tst (flags (heap !!! polled)) m = true ->
                                   tst (flags (heap1 !!! polled)) m = true)
             by (intros m Hm; rewrite Hfl1; now apply note_revents_tst).
           destruct (Hskip heap1 Hf1 Ht1) as (S1 & S2 & S3).
           cbv zeta in S1, S2, S3.
           split; [exact S1 |]. split; [exact S2 |].
           intros [| k] e Hk He Hr Ho; [| now apply (S3 k e)].
           injection Hk as <-. rewrite <- hd_nth in Hr.
           destruct Ho as (j0 & Hj0 & Hu0 & Hd0).
           destruct (find_slot_usable _ _ j0 Hj0 Hu0 Hd0)
             as (j' & Hfind & Hj' & Hu' & Hd').
           rewrite Ej in Hfind. injection Hfind as <-.
           exists j. split; [exact Hj' |]. split; [exact Hd' |].
           destruct (record_revents_picked l (tl rs) polled heap1 Hp)
             as (_ & _ & K3).
           split.
           ++ apply S2. exact Hu'.
           ++ apply K3. rewrite Hfl1. now apply note_revents_error.
        -- destruct (Hskip heap eq_refl ltac:(auto)) as (S1 & S2 & S3).
           cbv zeta in S1, S2, S3.
           split; [exact S1 |]. split; [exact S2 |].
           intros [| k] e Hk He Hr Ho; [| now apply (S3 k e)].
           injection Hk as <-.
           destruct Ho as (j0 & Hj0 & Hu0 & Hd0).
           destruct (find_slot_usable _ _ j0 Hj0 Hu0 Hd0)
             as (j' & Hfind & _).
           rewrite Ej in Hfind. discriminate.
      * destruct (Hskip heap eq_refl ltac:(auto)) as (S1 & S2 & S3).
        cbv zeta in S1, S2, S3.
        split; [exact S1 |]. split; [exact S2 |].
        intros [| k] e Hk He Hr Ho; [| now apply (S3 k e)].
        injection Hk as <-. apply Z.eqb_neq in Eh. contradiction.
Qed.

(** Entries without events are passed over. *)
Lemma record_revents_skip (i : nat) :
  forall (l : list poll_entry) (rs : list Z) (polled : Z)
         (heap : gmap Z PAL_HANDLE),
    (forall k, (k < i)%nat -> nth k rs 0 = 0) ->
    record_revents l rs polled heap
    = record_revents (drop i l) (drop i rs) polled heap.
Proof.
  induction i as [| i IH]; intros l rs polled heap Hz.
  - now rewrite !drop_0.
  - destruct l as [| e l].
    + simpl. now destruct (drop (S i) rs).
    + simpl record_revents at 1.
      assert (H0 : hd 0 rs = 0).
      { specialize (Hz 0%nat ltac:(lia)). destruct rs; simpl in *; auto. }
      rewrite H0. simpl.
      rewrite (IH l (tl rs)).
      * destruct rs; simpl; [now rewrite drop_nil | reflexivity].
      * intros k Hk. specialize (Hz (S k) ltac:(lia)).
        destruct rs; simpl in *; [now destruct k | exact Hz].
Qed.

Lemma nth_tl_drop (i k : nat) (rs : list Z) :
  nth k (tl (drop i rs)) 0 = nth (S i + k) rs 0.
Proof.
  revert rs. induction i as [| i IH]; intros rs.
  - rewrite drop_0. apply nth_tl.
  - destruct rs as [| r rs]; [now destruct k |]. simpl. apply IH.
Qed.

(** The loop as a whole, when entry [i] is the first with events: its
    handle is the one picked, no other handle changes, the picked handle
    keeps its descriptors, and every entry of the picked handle with a
    hang-up or error sets the error flag of a usable slot that holds the
    entry's descriptor (for entry [i] itself, of the slot that the search
    finds on the handle as it was). *)
Lemma record_revents_first (l : list poll_entry) (rs : list Z)
  (heap : gmap Z PAL_HANDLE) (i : nat) (e : poll_entry) :
  l !! i = Some e ->
  pe_hdl e <> 0 ->
  (forall k, (k < i)%nat -> nth k rs 0 = 0) ->
  nth i rs 0 <> 0 ->
  let res := record_revents l rs 0 heap in
  res.1 = pe_hdl e /\
  (forall a, a <> pe_hdl e -> res.2 !! a = heap !! a) /\
  (forall j, find_slot (heap !!! pe_hdl e) (pe_fd e) = Some j ->
             tst (nth i rs 0) (Z.lor POLLHUP POLLERR) = true ->
             Z.land (flags (res.2 !!! pe_hdl e)) (ERROR j) = ERROR j) /\
  fds (res.2 !!! pe_hdl e) = fds (heap !!! pe_hdl e) /\
  (forall k e',
     l !! k = Some e' -> pe_hdl e' = pe_hdl e ->
     tst (nth k rs 0) (Z.lor POLLHUP POLLERR) = true ->
     (exists j0, (j0 < MAX_FDS)%nat /\
        tst (flags (heap !!! pe_hdl e)) (Z.lor (RFD j0) (WFD j0)) = true /\
        nth j0 (fds (heap !!! pe_hdl e)) 0 = pe_fd e') ->
     exists j, (j < MAX_FDS)%nat /\
       nth j (fds (heap !!! pe_hdl e)) 0 = pe_fd e' /\
       tst (flags (res.2 !!! pe_hdl e)) (Z.lor (RFD j) (WFD j)) = true /\
       Z.land (flags (res.2 !!! pe_hdl e)) (ERROR j) = ERROR j).
Proof.
  intros Hl Hh Hz Hr res. subst res.
  rewrite (record_revents_skip i) by exact Hz.
  apply take_drop_middle in Hl as Hsplit.
  assert (Hd : drop i l = e :: drop (S i) l).
  { rewrite <- Hsplit at 1. rewrite drop_app_length'; [reflexivity |].
    rewrite length_take. apply lookup_lt_Some in Hl. lia. }
  rewrite Hd. simpl record_revents.
  assert (Hhd : hd 0 (drop i rs) = nth i rs 0).
  { clear. revert rs. induction i as [| i IHi]; intros [| r rs]; simpl; auto. }
  rewrite Hhd.
  destruct (nth i rs 0 =? 0) eqn:E; [lia |]. simpl.
  assert (Hlater : forall k e', l !! k = Some e' -> (i < k)%nat ->
                   drop (S i) l !! (k - S i)%nat = Some e' /\
                   nth (k - S i) (tl (drop i rs)) 0 = nth k rs 0).
  { intros k e' Hk Hik. split.
    - rewrite lookup_drop. replace (S i + (k - S i))%nat with k by lia.
      exact Hk.
    - rewrite nth_tl_drop. f_equal. lia. }
  assert (Hearly : forall k, (k < i)%nat ->
                   tst (nth k rs 0) (Z.lor POLLHUP POLLERR) = true -> False).
  { intros k Hk Ht. rewrite (Hz k Hk), tst_zero_l in Ht. discriminate. }
  destruct (find_slot (heap !!! pe_hdl e) (pe_fd e)) as [j |] eqn:Ej.
  - set (heap1 := <[pe_hdl e := mkHandle
                      (note_revents (nth i rs 0) j (flags (heap !!! pe_hdl e)))
                      (fds (heap !!! pe_hdl e))]> heap).
    assert (Hf1 : fds (heap1 !!! pe_hdl e) = fds (heap !!! pe_hdl e))
      by (unfold heap1; now rewrite lookup_total_insert_eq).
    assert (Hfl1 : flags (heap1 !!! pe_hdl e)
                   = note_revents (nth i rs 0) j (flags (heap !!! pe_hdl e)))
      by (unfold heap1; now rewrite lookup_total_insert_eq).
    destruct (record_revents_picked (drop (S i) l) (tl (drop i rs)) (pe_hdl e)
                heap1 Hh) as (I1 & I2 & I3).
    destruct (record_revents_later (drop (S i) l) (tl (drop i rs)) (pe_hdl e)
                heap1 Hh) as (L1 & L2 & L3).
    cbv zeta in L1, L2, L3.
    split; [exact I1 |]. split.
    { intros a Ha. rewrite I2 by exact Ha. now apply lookup_insert_ne. }
    split.
    { intros j' Hj' Hr'. injection Hj' as <-. apply I3.
      rewrite Hfl1. now apply note_revents_error. }
    split; [now rewrite L1 |].
    intros k e' Hk He' Ht (j0 & Hj0 & Hu0 & Hd0).
    destruct (Nat.lt_trichotomy k i) as [Hlt | [-> | Hgt]].
    + exfalso. now apply (Hearly k).
    + rewrite Hl in Hk. injection Hk as <-.
      destruct (find_slot_usable _ _ j0 Hj0 Hu0 Hd0)
        as (j' & Hfind & Hj' & Hu' & Hd').
      rewrite Ej in Hfind. injection Hfind as <-.
      exists j. split; [exact Hj' |]. split; [exact Hd' |]. split.
      * apply L2. rewrite Hfl1. now apply note_revents_tst.
      * apply I3. rewrite Hfl1. now apply note_revents_error.
    + destruct (Hlater k e' Hk Hgt) as [Hk' Hn'].
      rewrite <- Hn' in Ht.
      destruct (L3 _ e' Hk' He' Ht) as (j' & Hj' & Hd' & Hu' & Hs').
      { exists j0. rewrite Hf1, Hfl1.
        split; [exact Hj0 |]. split; [now apply note_revents_tst | exact Hd0]. }
      exists j'. rewrite <- Hf1. auto.
  - destruct (record_revents_picked (drop (S i) l) (tl (drop i rs)) (pe_hdl e)
                heap Hh) as (I1 & I2 & I3).
    destruct (record_revents_later (drop (S i) l) (tl (drop i rs)) (pe_hdl e)
                heap Hh) as (L1 & L2 & L3).
    cbv zeta in L1, L2, L3.
    split; [exact I1 |]. split; [exact I2 |].
    split; [intros j' Hj'; discriminate |].
    split; [exact L1 |].
    intros k e' Hk He' Ht (j0 & Hj0 & Hu0 & Hd0).
    destruct (Nat.lt_trichotomy k i) as [Hlt | [-> | Hgt]].
    + exfalso. now apply (Hearly k).
    + rewrite Hl in Hk. injection Hk as <-.
      destruct (find_slot_usable _ _ j0 Hj0 Hu0 Hd0) as (j' & Hfind & _).
      rewrite Ej in Hfind. discriminate.
    + destruct (Hlater k e' Hk Hgt) as [Hk' Hn'].
      rewrite <- Hn' in Ht.
      apply (L3 _ e' Hk' He' Ht). exists j0. auto.
Qed.

(** Only non-null handles are polled. *)
Lemma poll_entries_hdl (heap : gmap Z PAL_HANDLE) (arr : list Z)
  (e : poll_entry) :
  e ∈ poll_entries heap arr -> pe_hdl e <> 0.
Proof.
  unfold poll_entries. intros He.
  apply list_elem_of_In, in_concat in He as (x & Hx & Hin).
  apply list_elem_of_In, elem_of_lookup_imap in Hx as (i & hdl & -> & Hi).
  destruct (hdl =? 0) eqn:E0; [inversion Hin |].
  destruct (repeated arr i hdl); [inversion Hin |].
  unfold handle_entries in Hin. apply in_flat_map in Hin as (j & _ & Hj).
  destruct (_ && _); [| inversion Hj].
  destruct Hj as [<- | []]. simpl. lia.
Qed.

Lemma tst_lor_l (x a b : Z) : tst x a = true -> tst x (Z.lor a b) = true.
Proof.
  unfold tst. intros Ha. apply negb_true_iff, Z.eqb_neq in Ha.
  apply negb_true_iff, Z.eqb_neq. intros Hz. apply Ha.
  rewrite Z.land_lor_distr_r in Hz. now apply Z.lor_eq_0_iff in Hz.
Qed.

Lemma tst_lor_r (x a b : Z) : tst x b = true -> tst x (Z.lor a b) = true.
Proof. rewrite Z.lor_comm. apply tst_lor_l. Qed.

(** What is asked of a slot: nothing once its error flag is set, input only
    on a read slot, output only on a write slot that is not yet writable. *)
Lemma poll_events_cases (fl : Z) (j : nat) :
  (tst fl (ERROR j) = true -> poll_events fl j = 0) /\
  (poll_events fl j <> 0 ->
     tst fl (Z.lor (RFD j) (WFD j)) = true /\ tst fl (ERROR j) = false) /\
  (tst (poll_events fl j) POLLIN = true -> tst fl (RFD j) = true) /\
  (tst (poll_events fl j) POLLOUT = true ->
     tst fl (WFD j) = true /\ tst fl (WRITEABLE j) = false).
Proof.
  unfold poll_events.
  destruct (tst fl (RFD j)) eqn:Er, (tst fl (WFD j)) eqn:Ew,
           (tst fl (WRITEABLE j)) eqn:Ewr, (tst fl (ERROR j)) eqn:Ee;
    simpl; repeat split; intros; try reflexivity; try discriminate;
    try contradiction; try (vm_compute in *; congruence);
    try (now apply tst_lor_l); try (now apply tst_lor_r).
Qed.

(** The entries built for [ppoll], traced back to their handles. *)
Lemma poll_entries_origin (heap : gmap Z PAL_HANDLE) (handleArray : list Z)
  (e : poll_entry) :
  In e (poll_entries heap handleArray) ->
  pe_hdl e <> 0 /\ In (pe_hdl e) handleArray /\
  pe_fd e <> PAL_IDX_POISON /\
  exists j, (j < MAX_FDS)%nat /\
    let h := heap !!! pe_hdl e in
    pe_fd e = nth j (fds h) 0 /\
    tst (flags h) (ERROR j) = false /\
    tst (flags h) (Z.lor (RFD j) (WFD j)) = true /\
    pe_events e = with_hup_err (poll_events (flags h) j) /\
    tst (pe_events e) (Z.lor POLLHUP POLLERR) = true /\
    (tst (pe_events e) POLLOUT = true ->
       tst (flags h) (WFD j) = true /\ tst (flags h) (WRITEABLE j) = false).
Proof.
  unfold poll_entries. intros He.
  apply in_concat in He as (x & Hx & Hin).
  apply list_elem_of_In, elem_of_lookup_imap in Hx as (i & hdl & -> & Hi).
  destruct (hdl =? 0) eqn:E0; [inversion Hin |].
  destruct (repeated handleArray i hdl); [inversion Hin |].
  unfold handle_entries in Hin. apply in_flat_map in Hin as (j & Hj & Hin).
  apply in_seq in Hj.
  destruct (poll_events (flags (heap !!! hdl)) j =? 0) eqn:Eev;
    [inversion Hin |].
  destruct (nth j (fds (heap !!! hdl)) 0 =? PAL_IDX_POISON) eqn:Ep;
    [inversion Hin |].
  destruct Hin as [<- | []]. simpl.
  apply Z.eqb_neq in Eev.
  destruct (poll_events_cases (flags (heap !!! hdl)) j) as (_ & C2 & _ & C4).
  destruct (C2 Eev) as [Hrw Herr].
  split; [lia |].
  split; [apply list_elem_of_In, list_elem_of_lookup; eauto |].
  split; [lia |].
  exists j. split; [lia |].
  split; [reflexivity |]. split; [exact Herr |]. split; [exact Hrw |].
  split; [reflexivity |]. split.
  - unfold with_hup_err, tst. rewrite land_lor_own. reflexivity.
  - intros Hout. apply C4. revert Hout. unfold with_hup_err, poll_events.
    destruct (tst (flags (heap !!! hdl)) (RFD j) && _),
             (tst (flags (heap !!! hdl)) (WFD j) && _ && _);
      vm_compute; congruence.
Qed.

(** The wait on two or more handles. *)
Lemma waitany_many (count : Z) (handleArray : list Z) (timeout : Z)
  (heap : gmap Z PAL_HANDLE) :
  2 <= count ->
  all_have_fds heap (take (Z.to_nat count) handleArray) = true ->
  let l := poll_entries heap (take (Z.to_nat count) handleArray) in
  let answer :=
    ppoll (map (fun e => mkPollfd (pe_fd e) (pe_events e)) l)
      (timeout_ts timeout) in
  let res := _DkObjectsWaitAny count handleArray timeout heap in
  (l = [] -> res = (Fail PAL_ERROR_TRYAGAIN, None, heap)) /\
  (l <> [] -> forall rs, answer = PollRet 0 rs ->
     res = (Fail PAL_ERROR_TRYAGAIN, None, heap)) /\
  (l <> [] -> forall n rs, answer = PollRet n rs -> n <> 0 ->
     (forall k, nth k rs 0 = 0) ->
     res = (Fail PAL_ERROR_TRYAGAIN, Some 0, heap)) /\
  (l <> [] -> forall e, answer = PollErr e -> e = EINTR \/ e = ERESTART ->
     res = (Fail PAL_ERROR_INTERRUPTED, None, heap)) /\
  (l <> [] -> forall n rs i e, answer = PollRet n rs -> n <> 0 ->
     l !! i = Some e ->
     (forall k, (k < i)%nat -> nth k rs 0 = 0) ->
     nth i rs 0 <> 0 ->
     res.1 = (Ret 0, Some (pe_hdl e)) /\
     (forall a, a <> pe_hdl e -> res.2 !! a = heap !! a) /\
     (forall j, find_slot (heap !!! pe_hdl e) (pe_fd e) = Some j ->
                tst (nth i rs 0) (Z.lor POLLHUP POLLERR) = true ->
                Z.land (flags (res.2 !!! pe_hdl e)) (ERROR j) = ERROR j) /\
     fds (res.2 !!! pe_hdl e) = fds (heap !!! pe_hdl e) /\
     (forall k e',
        l !! k = Some e' -> pe_hdl e' = pe_hdl e ->
        tst (nth k rs 0) (Z.lor POLLHUP POLLERR) = true ->
        exists j, (j < MAX_FDS)%nat /\
          nth j (fds (heap !!! pe_hdl e)) 0 = pe_fd e' /\
          tst (flags (res.2 !!! pe_hdl e)) (Z.lor (RFD j) (WFD j)) = true /\
          Z.land (flags (res.2 !!! pe_hdl e)) (ERROR j) = ERROR j)) /\
  (l <> [] -> forall e, answer = PollErr e -> e <> EINTR -> e <> ERESTART ->
     res = (Fail (unix_to_pal_error e), None, heap)).
Proof.
  intros Hc Hfds l answer res.
  assert (Hres : res =
    if (length l =? 0)%nat then (Fail PAL_ERROR_TRYAGAIN, None, heap)
    else match answer with
         | PollErr e =>
             if (e =? EINTR) || (e =? ERESTART)
             then (Fail PAL_ERROR_INTERRUPTED, None, heap)
             else (Fail (unix_to_pal_error e), None, heap)
         | PollRet ret rs =>
             if ret =? 0 then (Fail PAL_ERROR_TRYAGAIN, None, heap)
             else
               let '(polled_hdl, heap') := record_revents l rs 0 heap in
               (if polled_hdl =? 0 then Fail PAL_ERROR_TRYAGAIN else Ret 0,
                Some polled_hdl, heap')
         end).
  { subst res. unfold _DkObjectsWaitAny.
    destruct (count <=? 0) eqn:E0; [lia |].
    destruct (count =? 1) eqn:E1; [lia |].
    rewrite Hfds. reflexivity. }
  assert (Hne : l <> [] -> (length l =? 0)%nat = false).
  { intros Hl. destruct l; [congruence | reflexivity]. }
  split; [| split; [| split; [| split; [| split]]]].
  - intros ->. exact Hres.
  - intros Hl rs Ha. rewrite Hres, (Hne Hl), Ha. reflexivity.
  - intros Hl n rs Ha Hn Hz. rewrite Hres, (Hne Hl), Ha.
    destruct (n =? 0) eqn:En; [lia |].
    rewrite (record_revents_skip (length l)) by (intros; apply Hz).
    rewrite drop_all. reflexivity.
  - intros Hl e Ha He. rewrite Hres, (Hne Hl), Ha.
    destruct He as [-> | ->]; rewrite Z.eqb_refl, ?orb_true_r; reflexivity.
  - intros Hl n rs i e Ha Hn Hi Hz Hr.
    rewrite Hres, (Hne Hl), Ha. destruct (n =? 0) eqn:En; [lia |].
    assert (Hh : pe_hdl e <> 0).
    { eapply poll_entries_hdl, list_elem_of_lookup_2. exact Hi. }
    destruct (record_revents_first l rs heap i e Hi Hh Hz Hr)
      as (I1 & I2 & I3 & I4 & I5).
    destruct (record_revents l rs 0 heap) as [polled heap']. simpl in *.
    subst polled. destruct (pe_hdl e =? 0) eqn:E; [lia |].
    split; [reflexivity |]. split; [exact I2 |]. split; [exact I3 |].
    split; [exact I4 |].
    intros k e' Hk He' Ht. apply (I5 k e' Hk He' Ht).
    assert (Hin : In e' l)
      by (apply list_elem_of_In; eapply list_elem_of_lookup_2; exact Hk).
    apply poll_entries_origin in Hin as (_ & _ & _ & j0 & Hj0 & Ho).
    cbv zeta in Ho. destruct Ho as (Hfd & _ & Hu & _).
    rewrite He' in Hfd, Hu. exists j0. auto.
  - intros Hl e Ha He1 He2. rewrite Hres, (Hne Hl), Ha.
    apply Z.eqb_neq in He1, He2. now rewrite He1, He2.
Qed.

(** Noting the events of one handle: flags are only added, and a hang-up or
    error on entry [i] sets the error flag of its slot. *)
Lemma waitone_record_keeps (l : list (pollfd * nat)) :
  forall (rs : list Z) (fl m : Z),
    Z.land fl m = m -> Z.land (waitone_record l rs fl) m = m.
Proof.
  induction l as [| [pfd off] l IH]; intros rs fl m Hm; simpl; [exact Hm |].
  apply IH. destruct (hd 0 rs =? 0); [exact Hm | now apply note_revents_keeps].
Qed.

Lemma tst_nonzero (r m : Z) : tst r m = true -> r <> 0.
Proof.
  unfold tst. intros Ht ->. rewrite Z.land_0_l in Ht. discriminate.
Qed.

Lemma waitone_record_error (l : list (pollfd * nat)) :
  forall (rs : list Z) (fl : Z) (i : nat) (pfd : pollfd) (off : nat),
    l !! i = Some (pfd, off) ->
    tst (nth i rs 0) (Z.lor POLLHUP POLLERR) = true ->
    Z.land (waitone_record l rs fl) (ERROR off) = ERROR off.
Proof.
  induction l as [| [pfd0 off0] l IH]; intros rs fl i pfd off Hi Hr;
    [inversion Hi |].
  destruct i as [| i]; simpl in Hi |- *.
  - injection Hi as -> ->. apply waitone_record_keeps.
    assert (Hhd : hd 0 rs = nth 0 rs 0) by (now destruct rs).
    rewrite Hhd. pose proof (tst_nonzero _ _ Hr) as Hnz.
    destruct (nth 0 rs 0 =? 0) eqn:E; [lia |]. now apply note_revents_error.
  - apply (IH (tl rs) _ i pfd off Hi).
    destruct rs as [| r rs]; simpl in *; [now destruct i | exact Hr].
Qed.

(** The wait on a single handle that carries file descriptors. *)
Lemma waitany_single (handleArray : list Z) (timeout : Z)
  (heap : gmap Z PAL_HANDLE) :
  let hdl := nth 0 handleArray 0 in
  let h := heap !!! hdl in
  let l := waitone_fds h in
  let answer := ppoll (map fst l) (timeout_ts timeout) in
  let res := _DkObjectsWaitAny 1 handleArray timeout heap in
  tst (flags h) HAS_FDS = true ->
  res.1.2 = Some hdl /\
  (forall a, a <> hdl -> res.2 !! a = heap !! a) /\
  (l = [] -> res.1.1 = Fail PAL_ERROR_TRYAGAIN) /\
  (l <> [] -> forall rs, answer = PollRet 0 rs ->
     res.1.1 = Fail PAL_ERROR_TRYAGAIN) /\
  (l <> [] -> forall e, answer = PollErr e -> e = EINTR \/ e = ERESTART ->
     res.1.1 = Fail PAL_ERROR_INTERRUPTED) /\
  (l <> [] -> forall n rs, answer = PollRet n rs -> n <> 0 ->
     res.1.1 = Ret 0 /\
     (forall i pfd off, l !! i = Some (pfd, off) ->
        tst (nth i rs 0) (Z.lor POLLHUP POLLERR) = true ->
        Z.land (flags (res.2 !!! hdl)) (ERROR off) = ERROR off)) /\
  (l <> [] -> forall e, answer = PollErr e -> e <> EINTR -> e <> ERESTART ->
     res.1.1 = Fail (unix_to_pal_error e)).
Proof.
  intros hdl h l answer res Hfds. subst res.
  unfold _DkObjectsWaitAny. simpl. fold hdl. fold h.
  unfold _DkObjectWaitOne. rewrite Hfds. fold l. fold answer.
  assert (Hne : l <> [] -> (length l =? 0)%nat = false).
  { intros Hl. destruct l; [congruence | reflexivity]. }
  split; [| split; [| split; [| split; [| split; [| split]]]]].
  - destruct (length l =? 0)%nat; [reflexivity |].
    destruct answer as [e | n rs]; [destruct (_ || _); reflexivity |].
    destruct (n =? 0); reflexivity.
  - intros a Ha.
    destruct (length l =? 0)%nat; [now apply lookup_insert_ne |].
    destruct answer as [e | n rs];
      [destruct (_ || _); now apply lookup_insert_ne |].
    destruct (n =? 0); now apply lookup_insert_ne.
  - intros ->. reflexivity.
  - intros Hl rs ->. rewrite (Hne Hl). reflexivity.
  - intros Hl e -> He. rewrite (Hne Hl).
    destruct He as [-> | ->]; rewrite Z.eqb_refl, ?orb_true_r; reflexivity.
  - intros Hl n rs -> Hn. rewrite (Hne Hl).
    destruct (n =? 0) eqn:En; [lia |]. simpl. split; [reflexivity |].
    intros i pfd off Hi Hr. rewrite lookup_total_insert_eq. simpl.
    now apply (waitone_record_error l rs (flags h) i pfd off).
  - intros Hl e -> He1 He2. rewrite (Hne Hl).
    apply Z.eqb_neq in He1, He2. now rewrite He1, He2.
Qed.

(** C7 (amended).  A wait on a single handle that carries file descriptors
    and a wait on two or more handles whose non-null members all carry file
    descriptors return try-again when no descriptor is eligible for polling
    and when the poll reports nothing ready, return interrupted when the
    poll fails with EINTR or ERESTART, and return the translation of the
    error number when it fails otherwise.  When the poll reports something
    ready the wait succeeds: for a single handle every POLLHUP or POLLERR
    becomes the error flag of its slot; for several handles the handle of
    the first entry with an event is reported, every POLLHUP or POLLERR on
    an entry of that handle becomes the error flag of a usable slot of the
    handle that holds the entry's descriptor (for the first entry: of the
    slot the search finds), the handle keeps its descriptors, and every
    other handle is left as it was.  A wait on no handle returns 0, and a
    wait on two or more handles one of which carries no file descriptors
    returns not-supported. *)
Theorem waitany_outcomes (count : Z) (handleArray : list Z) (timeout : Z)
  (heap : gmap Z PAL_HANDLE) :
  (count = 1 ->
   let hdl := nth 0 handleArray 0 in
   let h := heap !!! hdl in
   let l := waitone_fds h in
   let answer := ppoll (map fst l) (timeout_ts timeout) in
   let res := _DkObjectsWaitAny count handleArray timeout heap in
   tst (flags h) HAS_FDS = true ->
   res.1.2 = Some hdl /\
   (forall a, a <> hdl -> res.2 !! a = heap !! a) /\
   (l = [] -> res.1.1 = Fail PAL_ERROR_TRYAGAIN) /\
   (l <> [] -> forall rs, answer = PollRet 0 rs ->
      res.1.1 = Fail PAL_ERROR_TRYAGAIN) /\
   (l <> [] -> forall e, answer = PollErr e -> e = EINTR \/ e = ERESTART ->
      res.1.1 = Fail PAL_ERROR_INTERRUPTED) /\
   (l <> [] -> forall n rs, answer = PollRet n rs -> n <> 0 ->
      res.1.1 = Ret 0 /\
      (forall i pfd off, l !! i = Some (pfd, off) ->
         tst (nth i rs 0) (Z.lor POLLHUP POLLERR) = true ->
         Z.land (flags (res.2 !!! hdl)) (ERROR off) = ERROR off)) /\
   (l <> [] -> forall e, answer = PollErr e -> e <> EINTR -> e <> ERESTART ->
      res.1.1 = Fail (unix_to_pal_error e))) /\
  (2 <= count ->
   all_have_fds heap (take (Z.to_nat count) handleArray) = true ->
   let l := poll_entries heap (take (Z.to_nat count) handleArray) in
   let answer :=
     ppoll (map (fun e => mkPollfd (pe_fd e) (pe_events e)) l)
       (timeout_ts timeout) in
   let res := _DkObjectsWaitAny count handleArray timeout heap in
   (l = [] -> res = (Fail PAL_ERROR_TRYAGAIN, None, heap)) /\
   (l <> [] -> forall rs, answer = PollRet 0 rs ->
      res = (Fail PAL_ERROR_TRYAGAIN, None, heap)) /\
   (l <> [] -> forall n rs, answer = PollRet n rs -> n <> 0 ->
      (forall k, nth k rs 0 = 0) ->
      res = (Fail PAL_ERROR_TRYAGAIN, Some 0, heap)) /\
   (l <> [] -> forall e, answer = PollErr e -> e = EINTR \/ e = ERESTART ->
      res = (Fail PAL_ERROR_INTERRUPTED, None, heap)) /\
   (l <> [] -> forall n rs i e, answer = PollRet n rs -> n <> 0 ->
      l !! i = Some e ->
      (forall k, (k < i)%nat -> nth k rs 0 = 0) ->
      nth i rs 0 <> 0 ->
      res.1 = (Ret 0, Some (pe_hdl e)) /\
      (forall a, a <> pe_hdl e -> res.2 !! a = heap !! a) /\
      (forall j, find_slot (heap !!! pe_hdl e) (pe_fd e) = Some j ->
                 tst (nth i rs 0) (Z.lor POLLHUP POLLERR) = true ->
                 Z.land (flags (res.2 !!! pe_hdl e)) (ERROR j) = ERROR j) /\
      fds (res.2 !!! pe_hdl e) = fds (heap !!! pe_hdl e) /\
      (forall k e',
         l !! k = Some e' -> pe_hdl e' = pe_hdl e ->
         tst (nth k rs 0) (Z.lor POLLHUP POLLERR) = true ->
         exists j, (j < MAX_FDS)%nat /\
           nth j (fds (heap !!! pe_hdl e)) 0 = pe_fd e' /\
           tst (flags (res.2 !!! pe_hdl e)) (Z.lor (RFD j) (WFD j)) = true /\
           Z.land (flags (res.2 !!! pe_hdl e)) (ERROR j) = ERROR j)) /\
   (l <> [] -> forall e, answer = PollErr e -> e <> EINTR -> e <> ERESTART ->
      res = (Fail (unix_to_pal_error e), None, heap))) /\
  (count <= 0 ->
   _DkObjectsWaitAny count handleArray timeout heap = (Ret 0, None, heap)) /\
  (2 <= count ->
   all_have_fds heap (take (Z.to_nat count) handleArray) = false ->
   _DkObjectsWaitAny count handleArray timeout heap
   = (Fail PAL_ERROR_NOTSUPPORT, None, heap)).
Proof.
  split; [| split; [| split]].
  - intros ->. apply waitany_single.
  - apply waitany_many.
  - intros Hc. unfold _DkObjectsWaitAny.
    destruct (count <=? 0) eqn:E; [reflexivity | lia].
  - intros Hc Hfds. unfold _DkObjectsWaitAny.
    destruct (count <=? 0) eqn:E0; [lia |].
    destruct (count =? 1) eqn:E1; [lia |].
    rewrite Hfds. reflexivity.
Qed.

End ObjectFacts.

Lemma waitany_outcomes_witness :
  let res := Object._DkObjectsWaitAny (H := sample_object_host) 2 [500; 200]
               (-1) sample_handles_pair in
  res.1 = (Ret 0, Some 500) /\
  exists j, (j < 3)%nat /\
    nth j (Object.fds (sample_handles_pair !!! 500)) 0 = 4 /\
    Z.land (Object.flags (res.2 !!! 500))
      (Object.ERROR (Host := sample_object_host) j)
    = Object.ERROR (Host := sample_object_host) j.
Proof.
  pose proof (waitany_outcomes (H := sample_object_host) 2 [500; 200] (-1)
                sample_handles_pair) as (_ & Hmany & _).
  destruct (Hmany ltac:(lia) ltac:(vm_compute; reflexivity))
    as (_ & _ & _ & _ & Hready & _).
  destruct (Hready ltac:(vm_compute; discriminate) 2
              [POLLIN; POLLHUP; POLLHUP] 0%nat
              (Object.mkEntry 3 (Object.with_hup_err POLLIN) 500)
              ltac:(vm_compute; reflexivity) ltac:(lia)
              ltac:(vm_compute; reflexivity) ltac:(intros k Hk; lia)
              ltac:(vm_compute; discriminate))
    as (Hres & _ & _ & _ & Hall).
  split; [exact Hres |].
  destruct (Hall 1%nat (Object.mkEntry 4 (Object.with_hup_err POLLIN) 500)
              ltac:(vm_compute; reflexivity) ltac:(reflexivity)
              ltac:(vm_compute; reflexivity))
    as (j & Hj & Hfd & _ & Herr).
  exists j. split; [exact Hj |]. split; [exact Hfd | exact Herr].
Defined.

(** C7 as stated fails in two ways.  With handles 100 and 200 both polled
    and the second one hung up, the wait succeeds for handle 100 and leaves
    no error flag on handle 200.  With two handles that carry no file
    descriptors, no descriptor is eligible for polling and the wait returns
    the not-supported error instead of try-again. *)
Lemma waitany_counterexample :
  let res := Object._DkObjectsWaitAny (H := sample_object_host) 2 [100; 200]
               (-1) sample_handles in
  let res' := Object._DkObjectsWaitAny (H := sample_object_host) 2 [300; 400]
                (-1) sample_handles in
  Object.ppoll (Host := sample_object_host)
    [Object.mkPollfd 3 25; Object.mkPollfd 4 25] None
  = Object.PollRet 2 [POLLIN; POLLHUP] /\
  res.1 = (Ret 0, Some 100) /\
  Z.land (Object.flags (res.2 !!! 200)) (Object.ERROR (Host := sample_object_host) 0) = 0 /\
  Object.poll_entries (H := sample_object_host) sample_handles [300; 400] = [] /\
  res'.1 = (Fail PAL_ERROR_NOTSUPPORT, None) /\
  res'.1 <> (Fail PAL_ERROR_TRYAGAIN, None).
Proof. vm_compute. repeat split; try reflexivity; discriminate. Qed.

(** ** The helper state machine *)

Section HelperFacts.

Import Ipc.
Context `{Env}.

(** Creating the helper from NOTALIVE: with a thread at hand the task is
    started, and it stays started when the platform accepts it. *)
Lemma create_ipc_helper_notalive (st : ipc_state) :
  ipc_helper_state st = HELPER_NOTALIVE ->
  get_new_internal_thread <> 0 ->
  let st' := (create_ipc_helper st).2 in
  trace st' = trace st ++ [EvEnableLocking; EvThreadCreate get_new_internal_thread]
              ++ match thread_create get_new_internal_thread with
                 | inl _ => []
                 | inr _ => [EvPutThread get_new_internal_thread]
                 end /\
  (forall handle, thread_create get_new_internal_thread = inl handle ->
     ipc_helper_state st' = HELPER_ALIVE /\
     ipc_helper_thread st' = get_new_internal_thread /\
     (create_ipc_helper st).1 = 0).
Proof.
  intros Hs Hn. unfold create_ipc_helper.
  destruct (decide (ipc_helper_state st = HELPER_ALIVE)); [congruence |].
  destruct (get_new_internal_thread =? 0) eqn:E; [lia |].
  simpl.
  destruct (decide (ipc_helper_state st = HELPER_ALIVE)); [congruence |].
  destruct (thread_create get_new_internal_thread) as [h | e]; simpl.
  - rewrite <- app_assoc. simpl. split; [reflexivity |]. auto.
  - rewrite <- !app_assoc. simpl. split; [reflexivity |]. discriminate.
Qed.

(** C4.  [restart_ipc_helper] follows the helper state machine: from
    UNINITIALIZED it only moves the state to DELAYED; in DELAYED it changes
    nothing; in NOTALIVE it changes nothing without [need_create] and runs
    the helper creation with it; in ALIVE it sets the update flag when the
    caller is the helper thread and otherwise only signals the wakeup event;
    in HANDEDOVER it only sets the update flag. *)
Theorem restart_ipc_helper_contract (need_create : bool) (st : ipc_state) :
  let st' := restart_ipc_helper need_create st in
  (ipc_helper_state st = HELPER_UNINITIALIZED ->
     st' = set_helper_state HELPER_DELAYED st /\
     ipc_helper_state st' = HELPER_DELAYED /\ trace st' = trace st) /\
  (ipc_helper_state st = HELPER_DELAYED -> st' = st) /\
  (ipc_helper_state st = HELPER_NOTALIVE ->
     (need_create = false -> st' = st) /\
     (need_create = true -> st' = (create_ipc_helper st).2) /\
     (In (EvThreadCreate get_new_internal_thread) (trace st') ->
      ~ In (EvThreadCreate get_new_internal_thread) (trace st) ->
      need_create = true) /\
     (need_create = true -> get_new_internal_thread <> 0 ->
      In (EvThreadCreate get_new_internal_thread) (trace st'))) /\
  (ipc_helper_state st = HELPER_ALIVE ->
     (IN_HELPER st = true ->
        st' = set_helper_update true st /\
        ipc_helper_update st' = true /\ trace st' = trace st) /\
     (IN_HELPER st = false ->
        st' = emit EvSetEvent st /\
        trace st' = trace st ++ [EvSetEvent] /\
        ipc_helper_update st' = ipc_helper_update st)) /\
  (ipc_helper_state st = HELPER_HANDEDOVER ->
     st' = set_helper_update true st /\
     ipc_helper_update st' = true /\ trace st' = trace st).
Proof.
  intros st'. subst st'. unfold restart_ipc_helper.
  split; [| split; [| split; [| split]]]; intros Hs; rewrite Hs.
  - auto.
  - reflexivity.
  - split; [intros ->; reflexivity |].
    split; [intros ->; reflexivity |].
    split.
    + destruct need_create; [reflexivity | contradiction].
    + intros -> Hn. simpl.
      destruct (create_ipc_helper_notalive st Hs Hn) as [Htr _].
      rewrite Htr. apply in_or_app. right. simpl. auto.
  - split; intros Hin; rewrite Hin; auto.
  - auto.
Qed.

(** C5 (amended).  When called from a thread other than the helper while the
    helper is ALIVE: if handover is requested and some port of the insertion
    list carries KEEPALIVE, the state becomes HANDEDOVER and the call returns
    the non-zero code -EAGAIN; otherwise the state becomes NOTALIVE and the
    call returns 0; in both cases the wakeup event is signaled, once.  When
    called from the helper thread, or in any state but ALIVE, the call
    returns 0 and changes and signals nothing. *)
Theorem exit_with_ipc_helper_contract (handover : bool) (st : ipc_state) :
  let r := (exit_with_ipc_helper handover st).1 in
  let st' := (exit_with_ipc_helper handover st).2 in
  (IN_HELPER st = false -> ipc_helper_state st = HELPER_ALIVE ->
     trace st' = trace st ++ [EvSetEvent] /\
     (handover = true /\ any_keepalive st = true ->
        ipc_helper_state st' = HELPER_HANDEDOVER /\ r = - EAGAIN /\ r <> 0) /\
     (handover = false \/ any_keepalive st = false ->
        ipc_helper_state st' = HELPER_NOTALIVE /\ r = 0)) /\
  (IN_HELPER st = true \/ ipc_helper_state st <> HELPER_ALIVE ->
     r = 0 /\ st' = st).
Proof.
  intros r st'. subst r st'. unfold exit_with_ipc_helper. split.
  - intros Hin Hs. rewrite Hin, Hs. simpl. split; [| split].
    + reflexivity.
    + intros [-> ->]. simpl. repeat split. unfold EAGAIN. lia.
    + intros [-> | Hk]; [simpl; auto |].
      rewrite Hk. destruct handover; simpl; auto.
  - intros [Hin | Hs].
    + rewrite Hin. simpl. auto.
    + destruct (IN_HELPER st); simpl; [auto |].
      rewrite bool_decide_eq_false_2 by exact Hs. simpl. auto.
Qed.

(** [any_keepalive] is the search the claim speaks of. *)
Lemma any_keepalive_iff (st : ipc_state) :
  any_keepalive st = true <->
  exists p, In p (pobj_list st) /\
            tst (type (info (port_at st p))) IPC_PORT_KEEPALIVE = true.
Proof. unfold any_keepalive. apply existsb_exists. Qed.

End HelperFacts.

Lemma restart_ipc_helper_contract_witness :
  Ipc.trace (Ipc.restart_ipc_helper (H := sample_env) false sample_state)
  = [Ipc.EvSetEvent].
Proof.
  pose proof (restart_ipc_helper_contract (H := sample_env) false sample_state)
    as (_ & _ & _ & Halive & _).
  destruct (Halive ltac:(reflexivity)) as [_ Hout].
  destruct (Hout ltac:(reflexivity)) as (_ & Htr & _).
  exact Htr.
Defined.

Lemma exit_with_ipc_helper_contract_witness :
  Ipc.ipc_helper_state
    (Ipc.exit_with_ipc_helper (H := sample_env) true sample_state).2
  = Ipc.HELPER_HANDEDOVER.
Proof.
  pose proof (exit_with_ipc_helper_contract (H := sample_env) true sample_state)
    as [Hrun _].
  destruct (Hrun ltac:(reflexivity) ltac:(reflexivity)) as (_ & Hho & _).
  apply Hho. split; [reflexivity | vm_compute; reflexivity].
Defined.

(** C5 as stated fails: with the helper not alive, a handover request with a
    kept-alive port on the list returns 0, leaves the state as it is and
    signals nothing. *)
Lemma exit_with_ipc_helper_counterexample :
  let st := Ipc.set_helper_state Ipc.HELPER_NOTALIVE sample_state in
  Ipc.any_keepalive (H := sample_env) st = true /\
  Ipc.exit_with_ipc_helper (H := sample_env) true st = (0, st) /\
  Ipc.ipc_helper_state
    (Ipc.exit_with_ipc_helper (H := sample_env) true st).2
  <> Ipc.HELPER_HANDEDOVER /\
  Ipc.trace (Ipc.exit_with_ipc_helper (H := sample_env) true st).2 = [].
Proof.
  repeat split; try (vm_compute; reflexivity). vm_compute. discriminate.
Qed.

(** ** The port registry *)

Section RegistryFacts.

Import Ipc.
Context `{Env}.

Lemma port_at_upd_port_eq (p : Z) (f : shim_ipc_port -> shim_ipc_port)
  (st : ipc_state) :
  port_at (upd_port p f st) p = f (port_at st p).
Proof. unfold port_at, upd_port. simpl. apply lookup_total_insert_eq. Qed.

Lemma port_at_upd_port_ne (p q : Z) (f : shim_ipc_port -> shim_ipc_port)
  (st : ipc_state) :
  p <> q -> port_at (upd_port q f st) p = port_at st p.
Proof.
  intros Hne. unfold port_at, upd_port. simpl.
  apply lookup_total_insert_ne. congruence.
Qed.

Lemma memb_remove_addr (p : Z) (l : list Z) : memb p (remove_addr p l) = false.
Proof.
  unfold memb, remove_addr. induction l as [| q l IH]; simpl; [reflexivity |].
  destruct (q =? p) eqn:E; simpl; [exact IH |].
  rewrite Z.eqb_sym, E. exact IH.
Qed.

Lemma remove_addr_absent (p : Z) (l : list Z) :
  memb p l = false -> remove_addr p l = l.
Proof.
  unfold memb, remove_addr. induction l as [| q l IH]; simpl; [reflexivity |].
  intros Hm. apply orb_false_elim in Hm as [Hq Hl].
  rewrite Z.eqb_sym, Hq. simpl. now rewrite IH.
Qed.

Lemma unhashed_after_del (p : Z) (pool : list (list Z)) :
  forallb (fun b => negb (memb p b)) (map (remove_addr p) pool) = true.
Proof.
  induction pool as [| b pool IH]; simpl; [reflexivity |].
  now rewrite memb_remove_addr, IH.
Qed.

Lemma remove_addr_unhashed (p : Z) (pool : list (list Z)) :
  forallb (fun b => negb (memb p b)) pool = true ->
  map (remove_addr p) pool = pool.
Proof.
  induction pool as [| b pool IH]; simpl; [reflexivity |].
  intros Hb. apply andb_prop in Hb as [Hb Hp].
  apply negb_true_iff in Hb. now rewrite remove_addr_absent, IH.
Qed.

(** Dropping a reference: what it leaves alone and what it changes. *)
Lemma put_ipc_port_frame (p : Z) (st : ipc_state) :
  let st' := __put_ipc_port p st in
  pobj_list st' = pobj_list st /\
  ipc_port_pool st' = ipc_port_pool st /\
  info (port_at st' p) = info (port_at st p) /\
  update (port_at st' p) = update (port_at st p) /\
  fini (port_at st' p) = fini (port_at st p) /\
  ref_count (port_at st' p) = ref_count (port_at st p) - 1 /\
  (forall q, q <> p -> port_at st' q = port_at st q).
Proof.
  unfold __put_ipc_port.
  set (st1 := upd_port p (fun o => with_ref_count (ref_count o - 1) o) st).
  assert (H1 : port_at st1 p
               = with_ref_count (ref_count (port_at st p) - 1) (port_at st p))
    by (subst st1; now rewrite port_at_upd_port_eq).
  assert (Hq : forall q, q <> p -> port_at st1 q = port_at st q)
    by (intros q Hq; now apply port_at_upd_port_ne).
  destruct (ref_count (port_at st1 p) =? 0).
  - destruct (pal_handle (port_at st1 p) =? 0); simpl.
    + change (port_at (emit (EvFree p) st1) p) with (port_at st1 p).
      rewrite H1. simpl. repeat split; auto.
    + set (st2 := emit (EvObjectClose (pal_handle (port_at st1 p))) st1).
      change (port_at (emit (EvFree p) (upd_port p (with_pal_handle 0) st2)) p)
        with (port_at (upd_port p (with_pal_handle 0) st2) p).
      rewrite port_at_upd_port_eq.
      change (port_at st2 p) with (port_at st1 p). rewrite H1. simpl.
      repeat split; auto.
      intros q Hne.
      change (port_at (emit (EvFree p) (upd_port p (with_pal_handle 0) st2)) q)
        with (port_at (upd_port p (with_pal_handle 0) st2) q).
      rewrite port_at_upd_port_ne by exact Hne. now apply Hq.
  - rewrite H1. simpl. repeat split; auto.
Qed.

Lemma land_lnot_lor_self (t x : Z) : Z.land t (Z.lnot (Z.lor t x)) = 0.
Proof.
  apply Z.bits_inj'. intros n Hn.
  rewrite Z.land_spec, Z.lnot_spec, Z.lor_spec, Z.bits_0 by exact Hn.
  destruct (Z.testbit t n), (Z.testbit x n); reflexivity.
Qed.

Lemma del_ipc_port_unfold (p mask : Z) (st : ipc_state) :
  let t0 := type (info (port_at st p)) in
  let c := cleared_roles mask t0 in
  __del_ipc_port p mask st =
  if negb (other_roles mask t0 =? 0) then
    (negb (Z.lxor (Z.land c IPC_PORT_KEEPALIVE)
                  (Z.land t0 IPC_PORT_KEEPALIVE) =? 0),
     upd_port p (with_update true)
       (upd_port p (fun o => with_type (Z.land (type (info o)) (Z.lnot c)) o)
          st))
  else
    let st1 :=
      if negb (list_empty st p) then
        __put_ipc_port p
          (upd_port p
             (fun o => with_type (Z.land (type (info o)) IPC_PORT_IFPOLL) o)
             (list_del_init p st))
      else st in
    let st2 :=
      if negb (hlist_unhashed st1 p)
      then __put_ipc_port p (hlist_del_init p st1)
      else st1 in
    (if tst t0 IPC_PORT_IFPOLL then true
     else negb (Z.lxor (Z.land c IPC_PORT_KEEPALIVE)
                       (Z.land t0 IPC_PORT_KEEPALIVE) =? 0),
     upd_port p (with_update true) st2).
Proof.
  unfold __del_ipc_port, other_roles, cleared_roles, tst. simpl.
  destruct (mask =? 0); reflexivity.
Qed.

(** What [__del_ipc_port] does to the port, the two collections and the
    other ports, by the roles that remain. *)
Lemma del_ipc_port_cases (p mask : Z) (st : ipc_state) :
  let o := port_at st p in
  let t0 := type (info o) in
  let res := __del_ipc_port p mask st in
  let o' := port_at res.2 p in
  update o' = true /\
  (forall q, q <> p -> port_at res.2 q = port_at st q) /\
  (other_roles mask t0 <> 0 ->
     type (info o') = Z.land t0 (Z.lnot (cleared_roles mask t0)) /\
     pobj_list res.2 = pobj_list st /\
     ipc_port_pool res.2 = ipc_port_pool st /\
     ref_count o' = ref_count o) /\
  (other_roles mask t0 = 0 ->
     pobj_list res.2 = remove_addr p (pobj_list st) /\
     ipc_port_pool res.2 = map (remove_addr p) (ipc_port_pool st) /\
     list_empty res.2 p = true /\
     hlist_unhashed res.2 p = true /\
     ref_count o' = ref_count o - (if list_empty st p then 0 else 1)
                                - (if hlist_unhashed st p then 0 else 1) /\
     type (info o') = (if list_empty st p then t0
                       else Z.land t0 IPC_PORT_IFPOLL) /\
     (tst t0 IPC_PORT_IFPOLL = true -> res.1 = true)) /\
  (tst t0 IPC_PORT_KEEPALIVE = false ->
     (res.1 = true <->
      other_roles mask t0 = 0 /\ tst t0 IPC_PORT_IFPOLL = true)).
Proof.
  intros o t0 res o'. subst o' res.
  rewrite del_ipc_port_unfold. fold o. fold t0.
  assert (Hxor : tst t0 IPC_PORT_KEEPALIVE = false ->
                 negb (Z.lxor (Z.land (cleared_roles mask t0) IPC_PORT_KEEPALIVE)
                              (Z.land t0 IPC_PORT_KEEPALIVE) =? 0) = false).
  { unfold tst. intros Hk. apply negb_false_iff, Z.eqb_eq in Hk.
    unfold cleared_roles. destruct (mask =? 0).
    - rewrite Hk. reflexivity.
    - rewrite <- Z.land_assoc, Hk, Z.land_0_r. reflexivity. }
  destruct (other_roles mask t0 =? 0) eqn:Eo; simpl negb; cbv iota zeta.
  - (* the port is removed *)
    apply Z.eqb_eq in Eo.
    set (st1 := if negb (list_empty st p) then _ else st).
    set (st2 := if negb (hlist_unhashed st1 p) then _ else st1).
    assert (S1 : pobj_list st1 = remove_addr p (pobj_list st) /\
                 ipc_port_pool st1 = ipc_port_pool st /\
                 ref_count (port_at st1 p)
                 = ref_count o - (if list_empty st p then 0 else 1) /\
                 type (info (port_at st1 p))
                 = (if list_empty st p then t0 else Z.land t0 IPC_PORT_IFPOLL) /\
                 (forall q, q <> p -> port_at st1 q = port_at st q)).
    { subst st1. destruct (list_empty st p) eqn:El; simpl.
      - unfold list_empty in El. apply negb_true_iff in El.
        rewrite remove_addr_absent by exact El.
        repeat split; auto. fold o. lia.
      - destruct (put_ipc_port_frame p
                    (upd_port p
                       (fun o => with_type (Z.land (type (info o)) IPC_PORT_IFPOLL) o)
                       (list_del_init p st)))
          as (F1 & F2 & F3 & _ & _ & F6 & F7).
        rewrite F1, F2, F3, F6, port_at_upd_port_eq. simpl.
        repeat split; auto.
        intros q Hq. rewrite F7 by exact Hq.
        now rewrite port_at_upd_port_ne. }
    destruct S1 as (A1 & A2 & A3 & A4 & A5).
    assert (Hh : hlist_unhashed st1 p = hlist_unhashed st p).
    { unfold hlist_unhashed. now rewrite A2. }
    assert (S2 : pobj_list st2 = remove_addr p (pobj_list st) /\
                 ipc_port_pool st2 = map (remove_addr p) (ipc_port_pool st) /\
                 ref_count (port_at st2 p)
                 = ref_count o - (if list_empty st p then 0 else 1)
                               - (if hlist_unhashed st p then 0 else 1) /\
                 type (info (port_at st2 p))
                 = (if list_empty st p then t0 else Z.land t0 IPC_PORT_IFPOLL) /\
                 (forall q, q <> p -> port_at st2 q = port_at st q)).
    { subst st2. rewrite Hh. destruct (hlist_unhashed st p) eqn:Eh; simpl.
      - unfold hlist_unhashed in Eh.
        rewrite remove_addr_unhashed by exact Eh.
        repeat split; auto. lia.
      - destruct (put_ipc_port_frame p (hlist_del_init p st1))
          as (F1 & F2 & F3 & _ & _ & F6 & F7).
        rewrite F1, F2, F3, F6. simpl. rewrite A2.
        change (port_at (hlist_del_init p st1) p) with (port_at st1 p).
        rewrite A3, A4. repeat split; auto.
        intros q Hq. rewrite F7 by exact Hq. now apply A5. }
    destruct S2 as (B1 & B2 & B3 & B4 & B5).
    cbn [fst snd].
    rewrite port_at_upd_port_eq. simpl.
    split; [reflexivity |].
    split; [intros q Hq; rewrite port_at_upd_port_ne by exact Hq; now apply B5 |].
    split; [intros Hne; contradiction |].
    split.
    + intros _. rewrite B1, B2, B3, B4.
      unfold list_empty, hlist_unhashed. simpl. rewrite B1, B2.
      rewrite memb_remove_addr, unhashed_after_del.
      repeat split; auto. intros ->. reflexivity.
    + intros Hk. rewrite (Hxor Hk).
      destruct (tst t0 IPC_PORT_IFPOLL); split; auto.
      intros [_ ?]. discriminate.
  - (* other roles remain *)
    apply Z.eqb_neq in Eo. cbn [fst snd].
    rewrite !port_at_upd_port_eq. simpl. fold o. fold t0.
    split; [reflexivity |].
    split; [intros q Hq; now rewrite !port_at_upd_port_ne by exact Hq |].
    split; [intros _; auto |].
    split; [intros He; contradiction |].
    intros Hk. rewrite (Hxor Hk). split; [discriminate | intros [? _]; contradiction].
Qed.

(** C6 (amended).  With [cleared] = [role_mask ∩ port.role_mask] (all roles
    when [role_mask = 0]): the port is always marked dirty.  If a role bit
    outside [cleared], IFPOLL and KEEPALIVE remains, exactly the cleared
    roles are removed and both memberships and the reference count are left
    as they are.  Otherwise the port leaves the insertion list and the peer
    index and loses one reference per membership it had; a port taken off
    the list keeps of its roles only IFPOLL (one that was on no list keeps
    them all); and a helper update is requested whenever the port carried
    IFPOLL.  For a port without the KEEPALIVE role a helper update is
    requested exactly when the port is removed while carrying IFPOLL. *)
Theorem del_ipc_port_effect (p mask : Z) (st : ipc_state) :
  let o := port_at st p in
  let t0 := type (info o) in
  let res := __del_ipc_port p mask st in
  let o' := port_at res.2 p in
  update o' = true /\
  (forall q, q <> p -> port_at res.2 q = port_at st q) /\
  (other_roles mask t0 <> 0 ->
     type (info o') = Z.land t0 (Z.lnot (cleared_roles mask t0)) /\
     pobj_list res.2 = pobj_list st /\
     ipc_port_pool res.2 = ipc_port_pool st /\
     ref_count o' = ref_count o) /\
  (other_roles mask t0 = 0 ->
     pobj_list res.2 = remove_addr p (pobj_list st) /\
     ipc_port_pool res.2 = map (remove_addr p) (ipc_port_pool st) /\
     list_empty res.2 p = true /\
     hlist_unhashed res.2 p = true /\
     ref_count o' = ref_count o - (if list_empty st p then 0 else 1)
                                - (if hlist_unhashed st p then 0 else 1) /\
     type (info o') = (if list_empty st p then t0
                       else Z.land t0 IPC_PORT_IFPOLL) /\
     (tst t0 IPC_PORT_IFPOLL = true -> res.1 = true)) /\
  (tst t0 IPC_PORT_KEEPALIVE = false ->
     (res.1 = true <->
      other_roles mask t0 = 0 /\ tst t0 IPC_PORT_IFPOLL = true)).
Proof. apply del_ipc_port_cases. Qed.

(** *** Fini callbacks *)

Lemma fini_upd_port (p q : Z) (f : shim_ipc_port -> shim_ipc_port)
  (st : ipc_state) :
  (forall o, fini (f o) = fini o) ->
  fini (port_at (upd_port q f st) p) = fini (port_at st p).
Proof.
  intros Hf. destruct (decide (p = q)) as [-> | Hne].
  - now rewrite port_at_upd_port_eq.
  - now rewrite port_at_upd_port_ne.
Qed.

(** Where the scan of the fini array stops. *)
Lemma fini_scan_spec (l : list Z) (f : Z) (n : nat) :
  forall i,
    let k := fini_scan l f n i in
    (i <= k <= i + n)%nat /\
    (forall j, (i <= j < k)%nat -> nth j l 0 <> 0 /\ nth j l 0 <> f) /\
    ((k < i + n)%nat -> nth k l 0 = 0 \/ nth k l 0 = f).
Proof.
  induction n as [| n IH]; intros i; simpl.
  - repeat split; try lia.
  - destruct (nth i l 0 =? 0) eqn:E0; simpl.
    + repeat split; try lia; intros _; left; lia.
    + destruct (nth i l 0 =? f) eqn:Ef; simpl.
      * repeat split; try lia; intros _; right; lia.
      * destruct (IH (S i)) as (K1 & K2 & K3).
        split; [lia |]. split.
        -- intros j Hj. destruct (decide (j = i)) as [-> | Hne].
           ++ split; lia.
           ++ apply K2. lia.
        -- intros Hk. apply K3. lia.
Qed.

Lemma fini_compact_spec (l : list Z) :
  fini_compact l = true ->
  forall i j, (i <= j)%nat -> nth i l 0 = 0 -> nth j l 0 = 0.
Proof.
  induction l as [| x l IH]; simpl; intros Hc i j Hij Hi.
  - now destruct j.
  - destruct (x =? 0) eqn:Ex.
    + destruct j as [| j]; [lia |].
      destruct (nth_in_or_default j l 0) as [Hin | Hd]; [| exact Hd].
      rewrite forallb_forall in Hc. specialize (Hc _ Hin). lia.
    + destruct i as [| i]; [lia |]. destruct j as [| j]; [lia |].
      apply (IH Hc i j); [lia | exact Hi].
Qed.

Lemma fini_compact_zeros (l : list Z) :
  forallb (Z.eqb 0) l = true -> fini_compact l = true.
Proof.
  induction l as [| x l IH]; simpl; [reflexivity |].
  intros Hz. apply andb_prop in Hz as [Hx Hl].
  destruct (x =? 0); auto.
Qed.

(** Filling the first free slot keeps the array filled from the front and
    adds one callback. *)
Lemma fini_install_free (f : Z) (l : list Z) :
  forall k,
    f <> 0 ->
    fini_compact l = true ->
    (k < length l)%nat ->
    (forall j, (j < k)%nat -> nth j l 0 <> 0) ->
    nth k l 0 = 0 ->
    fini_compact (<[k := f]> l) = true /\
    fini_count (<[k := f]> l) = S (fini_count l).
Proof.
  unfold fini_count.
  induction l as [| x l IH]; intros k Hf Hc Hk Hpre Hz; simpl in *; [lia |].
  destruct k as [| k]; simpl.
  - subst x. simpl in Hc.
    destruct (f =? 0) eqn:Ef; [lia |]. simpl.
    split; [now apply fini_compact_zeros | reflexivity].
  - assert (Hx : x <> 0) by (apply (Hpre 0%nat); lia).
    destruct (x =? 0) eqn:Ex; [lia |]. simpl.
    destruct (IH k Hf Hc ltac:(lia)
                (fun j Hj => Hpre (S j) ltac:(lia)) Hz) as [I1 I2].
    split; [exact I1 | now rewrite I2].
Qed.

Lemma lookup_nth_lt (l : list Z) (k : nat) :
  (k < length l)%nat -> l !! k = Some (nth k l 0).
Proof.
  intros Hk. rewrite nth_lookup. destruct (l !! k) eqn:E; [reflexivity |].
  apply lookup_ge_None in E. lia.
Qed.

(** An array with [k] callbacks in front and free slots behind holds [k]
    callbacks. *)
Lemma fini_count_prefix (l : list Z) :
  forall k,
    (k <= length l)%nat ->
    (forall j, (k <= j)%nat -> nth j l 0 = 0) ->
    (forall j, (j < k)%nat -> nth j l 0 <> 0) ->
    fini_count l = k.
Proof.
  unfold fini_count.
  induction l as [| x l IH]; intros k Hk Hz Hnz; simpl in *; [lia |].
  destruct k as [| k].
  - pose proof (Hz 0%nat ltac:(lia)) as H0. simpl in H0. subst x. simpl.
    apply (IH 0%nat); [lia | | intros; lia].
    intros j Hj. apply (Hz (S j)). lia.
  - pose proof (Hnz 0%nat ltac:(lia)) as H0. simpl in H0.
    destruct (x =? 0) eqn:Ex; [lia |]. simpl. f_equal.
    apply IH; [lia | |].
    + intros j Hj. apply (Hz (S j)). lia.
    + intros j Hj. apply (Hnz (S j)). lia.
Qed.

(** The steps of [__add_ipc_port] around the installation leave the fini
    array alone. *)
Lemma add_ipc_port_fini_unfold (p vmid_ type_ fini_ : Z) (st st' : ipc_state)
  (b : bool) :
  __add_ipc_port p vmid_ type_ fini_ st = Done b st' ->
  let l := fini (port_at st p) in
  if negb (fini_ =? 0) && tst type_ (Z.lnot IPC_PORT_IFPOLL) then
    (fini_scan l fini_ MAX_IPC_PORT_FINI_CB 0 < MAX_IPC_PORT_FINI_CB)%nat /\
    fini (port_at st' p)
    = <[fini_scan l fini_ MAX_IPC_PORT_FINI_CB 0 := fini_]> l
  else fini (port_at st' p) = l.
Proof.
  unfold __add_ipc_port.
  destruct (vmid_ =? cur_process_vmid); [discriminate |].
  set (st1 := if negb (vmid_ =? 0) && (vmid (info (port_at st p)) =? 0)
              then upd_port p (fun o => with_update true (with_vmid vmid_ o)) st
              else st).
  assert (F1 : fini (port_at st1 p) = fini (port_at st p)).
  { subst st1. destruct (_ && _); [| reflexivity]. now apply fini_upd_port. }
  clearbody st1.
  set (st2 := if negb (vmid (info (port_at st1 p)) =? 0) && hlist_unhashed st1 p
              then hlist_add_head p (PID_HASH vmid_) (__get_ipc_port p st1)
              else st1).
  assert (F2 : fini (port_at st2 p) = fini (port_at st p)).
  { subst st2. destruct (_ && _); [| exact F1].
    change (port_at (hlist_add_head p (PID_HASH vmid_) (__get_ipc_port p st1)) p)
      with (port_at (__get_ipc_port p st1) p).
    unfold __get_ipc_port. rewrite fini_upd_port; [exact F1 | reflexivity]. }
  clearbody st2.
  set (st3 := if negb (Z.land (type (info (port_at st2 p))) type_ =? type_)
              then upd_port p
                     (fun o => with_update true
                                 (with_type (Z.lor (type (info o)) type_) o))
                     st2
              else st2).
  assert (F3 : fini (port_at st3 p) = fini (port_at st p)).
  { subst st3. destruct (negb _); [| exact F2].
    rewrite fini_upd_port; [exact F2 | reflexivity]. }
  clearbody st3.
  intros Hrun.
  assert (Hlist : forall s s' r,
             (if negb (tst (type (info (port_at st2 p))) IPC_PORT_IFPOLL) &&
                 tst type_ IPC_PORT_IFPOLL
              then
                if list_empty s p then
                  Done true
                    (upd_port p (with_recent true)
                       (list_add p (__get_ipc_port p s)))
                else if negb (recent (port_at s p)) then
                  Done true
                    (upd_port p (with_recent true)
                       (list_add p (list_del_init p s)))
                else Done true s
              else if list_empty s p then
                Done false (list_add_tail p (__get_ipc_port p s))
              else Done false s) = Done r s' ->
             fini (port_at s' p) = fini (port_at s p)).
  { intros s s' r Hs.
    repeat case_match; simplify_eq;
      try reflexivity;
      try (rewrite fini_upd_port by reflexivity);
      try (change (port_at (list_add p ?x) p) with (port_at x p));
      try (change (port_at (list_add_tail p ?x) p) with (port_at x p));
      try (change (port_at (list_del_init p ?x) p) with (port_at x p));
      try reflexivity;
      unfold __get_ipc_port; now rewrite fini_upd_port. }
  destruct (negb (fini_ =? 0) && tst type_ (Z.lnot IPC_PORT_IFPOLL)).
  - rewrite F3 in Hrun.
    destruct (_ <? _)%nat eqn:Ek in Hrun; [| discriminate].
    apply Nat.ltb_lt in Ek. split; [exact Ek |].
    apply Hlist in Hrun. rewrite Hrun, port_at_upd_port_eq. simpl.
    now rewrite F3.
  - apply Hlist in Hrun. now rewrite Hrun.
Qed.

(** C8 (amended).  For every call that returns, on a port whose fini array
    is filled from the front: a supplied callback that is already present
    leaves the array unchanged, and so does a call without a callback or
    with a role mask inside IFPOLL; the array keeps its MAX_FINI slots and
    stays filled from the front; and a supplied callback that is not yet
    present is put into the first free slot, behind the callbacks already
    installed, by every call whose role mask has a bit outside IFPOLL. *)
Theorem add_ipc_port_fini (p vmid_ type_ fini_ : Z) (st st' : ipc_state)
  (b : bool) :
  __add_ipc_port p vmid_ type_ fini_ st = Done b st' ->
  length (fini (port_at st p)) = MAX_IPC_PORT_FINI_CB ->
  fini_compact (fini (port_at st p)) = true ->
  let l := fini (port_at st p) in
  let l' := fini (port_at st' p) in
  length l' = MAX_IPC_PORT_FINI_CB /\
  (fini_count l' <= MAX_IPC_PORT_FINI_CB)%nat /\
  fini_compact l' = true /\
  (fini_ = 0 \/ tst type_ (Z.lnot IPC_PORT_IFPOLL) = false -> l' = l) /\
  (fini_ <> 0 -> In fini_ l -> l' = l) /\
  (fini_ <> 0 -> ~ In fini_ l -> tst type_ (Z.lnot IPC_PORT_IFPOLL) = true ->
     l' = <[fini_count l := fini_]> l /\
     l !! fini_count l = Some 0 /\
     fini_count l' = S (fini_count l)).
Proof.
  intros Hrun Hlen Hc l l'.
  pose proof (add_ipc_port_fini_unfold _ _ _ _ _ _ _ Hrun) as Hu.
  cbv zeta in Hu. fold l l' in Hu. fold l in Hlen, Hc.
  assert (Hcount : forall m, length m = MAX_IPC_PORT_FINI_CB ->
                             (fini_count m <= MAX_IPC_PORT_FINI_CB)%nat).
  { intros m <-. unfold fini_count. apply filter_length_le. }
  destruct (fini_ =? 0) eqn:Ef; simpl in Hu.
  { (* no callback supplied *)
    rewrite Hu. apply Z.eqb_eq in Ef.
    repeat split; auto; intros; try reflexivity; contradiction. }
  apply Z.eqb_neq in Ef.
  destruct (tst type_ (Z.lnot IPC_PORT_IFPOLL)) eqn:Et.
  2:{ rewrite Hu. repeat split; auto; intros; try reflexivity; discriminate. }
  destruct Hu as [Hk Hl'].
  set (k := fini_scan l fini_ MAX_IPC_PORT_FINI_CB 0) in *.
  destruct (fini_scan_spec l fini_ MAX_IPC_PORT_FINI_CB 0%nat)
    as (_ & Hpre & Hat).
  fold k in Hpre, Hat. specialize (Hat ltac:(lia)).
  assert (Hlen' : length l' = MAX_IPC_PORT_FINI_CB)
    by (rewrite Hl', length_insert; exact Hlen).
  assert (Hk' : (k < length l)%nat) by lia.
  destruct Hat as [Hfree | Hsame].
  - (* the scan stopped at a free slot: the callback is new *)
    assert (Hnot : ~ In fini_ l).
    { intros Hin. apply (In_nth _ _ 0) in Hin as (j & Hj & Hjf).
      destruct (le_lt_dec k j) as [Hkj | Hjk].
      - pose proof (fini_compact_spec l Hc k j Hkj Hfree). lia.
      - destruct (Hpre j ltac:(lia)) as [_ Hne]. contradiction. }
    destruct (fini_install_free fini_ l k Ef Hc Hk'
                (fun j Hj => proj1 (Hpre j ltac:(lia))) Hfree) as [Hc' Hn'].
    assert (Hcnt : fini_count l = k).
    { apply fini_count_prefix; [lia | |].
      - intros j Hj. now apply (fini_compact_spec l Hc k j).
      - intros j Hj. apply Hpre. lia. }
    rewrite Hl', Hcnt.
    split; [now rewrite <- Hl' |].
    split; [rewrite <- Hl'; now apply Hcount |].
    split; [exact Hc' |].
    split; [intros [? | ?]; [contradiction | discriminate] |].
    split; [intros _ Hin; contradiction |].
    intros _ _ _. split; [reflexivity |]. split; [| rewrite Hn', Hcnt; reflexivity].
    rewrite <- Hfree. now apply lookup_nth_lt.
  - (* the scan stopped at the callback itself *)
    assert (Hid : l' = l).
    { rewrite Hl'. apply list_insert_id.
      rewrite <- Hsame. now apply lookup_nth_lt. }
    rewrite Hid.
    split; [exact Hlen |]. split; [now apply Hcount |]. split; [exact Hc |].
    split; [auto |]. split; [auto |].
    intros _ Hnot _. exfalso. apply Hnot. rewrite <- Hsame.
    now apply nth_In.
Qed.

(** With the array full of other callbacks the call does not return. *)
Lemma add_ipc_port_fini_full (p vmid_ type_ fini_ : Z) (st : ipc_state) :
  fini_ <> 0 ->
  tst type_ (Z.lnot IPC_PORT_IFPOLL) = true ->
  length (fini (port_at st p)) = MAX_IPC_PORT_FINI_CB ->
  (forall cb, In cb (fini (port_at st p)) -> cb <> 0 /\ cb <> fini_) ->
  forall b st', __add_ipc_port p vmid_ type_ fini_ st <> Done b st'.
Proof.
  intros Hf Ht Hlen Hfull b st' Hrun.
  pose proof (add_ipc_port_fini_unfold _ _ _ _ _ _ _ Hrun) as Hu.
  cbv zeta in Hu. rewrite Ht in Hu.
  destruct (fini_ =? 0) eqn:Ef; [lia |]. simpl in Hu. destruct Hu as [Hk _].
  destruct (fini_scan_spec (fini (port_at st p)) fini_ MAX_IPC_PORT_FINI_CB 0%nat)
    as (_ & _ & Hat).
  specialize (Hat ltac:(lia)).
  assert (Hin : In (nth (fini_scan (fini (port_at st p)) fini_
                           MAX_IPC_PORT_FINI_CB 0) (fini (port_at st p)) 0)
                   (fini (port_at st p))) by (apply nth_In; lia).
  apply Hfull in Hin. lia.
Qed.

End RegistryFacts.

Lemma del_ipc_port_effect_witness :
  (Ipc.__del_ipc_port (H := sample_env) 1000 IPC_PORT_LISTEN sample_state).1
  = true.
Proof.
  pose proof (del_ipc_port_effect (H := sample_env) 1000 IPC_PORT_LISTEN
                sample_state) as (_ & _ & _ & Hremoved & _).
  apply Hremoved; vm_compute; reflexivity.
Defined.

(** C6 as stated fails.  Evicting LISTEN from the polled listener at 1000
    removes the port; KEEPALIVE was not set before or after and IFPOLL is not
    among the cleared roles, yet a helper update is requested.  Evicting
    DIRPRT from the kept-alive parent link at 3000 removes the port and
    clears KEEPALIVE as well, which is not among the cleared roles. *)
Lemma del_ipc_port_counterexample :
  let res := Ipc.__del_ipc_port (H := sample_env) 1000 IPC_PORT_LISTEN
               sample_state in
  let t0 := Ipc.type (Ipc.info (Ipc.port_at sample_state 1000)) in
  let t1 := Ipc.type (Ipc.info (Ipc.port_at res.2 1000)) in
  let res' := Ipc.__del_ipc_port (H := sample_env) 3000 IPC_PORT_DIRPRT
                sample_state in
  let t0' := Ipc.type (Ipc.info (Ipc.port_at sample_state 3000)) in
  let t1' := Ipc.type (Ipc.info (Ipc.port_at res'.2 3000)) in
  (Ipc.cleared_roles IPC_PORT_LISTEN t0 = IPC_PORT_LISTEN /\
   Ipc.list_empty res.2 1000 = true /\
   tst t0 64 = false /\ tst t1 64 = false /\
   tst (Ipc.cleared_roles IPC_PORT_LISTEN t0) 32 = false /\
   res.1 = true) /\
  (Ipc.cleared_roles IPC_PORT_DIRPRT t0' = IPC_PORT_DIRPRT /\
   t0' = 68 /\ t1' = 0 /\
   t1' <> Z.land t0' (Z.lnot (Ipc.cleared_roles IPC_PORT_DIRPRT t0'))).
Proof. vm_compute. repeat split; try reflexivity. discriminate. Qed.

Lemma add_ipc_port_fini_witness :
  exists st',
    Ipc.__add_ipc_port (H := sample_env) 2000 8 IPC_PORT_DIRPRT 4002
      sample_state = Ipc.Done false st' /\
    Ipc.fini (Ipc.port_at st' 2000) = [4002; 0; 0].
Proof.
  eexists. split; [vm_compute; reflexivity |].
  match goal with
  | |- Ipc.fini (Ipc.port_at ?s 2000) = _ =>
      pose proof (add_ipc_port_fini (H := sample_env) 2000 8 IPC_PORT_DIRPRT
                    4002 sample_state s false
                    ltac:(vm_compute; reflexivity)
                    ltac:(vm_compute; reflexivity)
                    ltac:(vm_compute; reflexivity))
        as (_ & _ & _ & _ & _ & Hnew)
  end.
  destruct Hnew as (Hl' & _ & _).
  - lia.
  - vm_compute. intuition lia.
  - vm_compute. reflexivity.
  - rewrite Hl'. vm_compute. reflexivity.
Defined.

(** C8 as stated fails: a call that supplies the new callback 4002 with
    the role mask IFPOLL, or with an empty role mask, returns and leaves the
    fini array of the port empty. *)
Lemma add_ipc_port_fini_counterexample :
  exists st' st'',
    Ipc.__add_ipc_port (H := sample_env) 2000 8 32 4002 sample_state
    = Ipc.Done true st' /\
    Ipc.__add_ipc_port (H := sample_env) 2000 8 0 4002 sample_state
    = Ipc.Done false st'' /\
    Ipc.fini (Ipc.port_at sample_state 2000) = [0; 0; 0] /\
    Ipc.fini (Ipc.port_at st' 2000) = [0; 0; 0] /\
    ~ In 4002 (Ipc.fini (Ipc.port_at st' 2000)) /\
    Ipc.fini (Ipc.port_at st'' 2000) = [0; 0; 0] /\
    ~ In 4002 (Ipc.fini (Ipc.port_at st'' 2000)).
Proof.
  eexists. eexists.
  split; [vm_compute; reflexivity |].
  split; [vm_compute; reflexivity |].
  vm_compute. repeat split; try reflexivity; intuition lia.
Qed.

(** ** Broadcast *)

Section BroadcastFacts.

Import Ipc.
Context `{Env}.

Lemma memb_nil_guard (q : Z) (exclude : list Z) :
  negb (length exclude =? 0)%nat && memb q exclude = memb q exclude.
Proof. destruct exclude; reflexivity. Qed.

(** The walk over the insertion list sends one message to each recipient,
    addressed to its peer, whatever the sends return. *)
Lemma broadcast_walk (exclude : list Z) (target_type : Z) (l : list Z) :
  forall (msg0 msg : shim_ipc_msg) (st : ipc_state),
    (forall d, with_dst d msg = with_dst d msg0) ->
    let sent :=
      map (fun q => EvSend (with_dst (vmid (info (port_at st q))) msg0) q)
        (List.filter (broadcast_recipient st exclude target_type) l) in
    (fold_left (broadcast_one exclude target_type) l (msg, st)).2
    = emit_all sent st.
Proof.
  induction l as [| q l IH]; intros msg0 msg st Hm; simpl.
  - unfold emit_all. rewrite app_nil_r. now destruct st.
  - unfold broadcast_recipient at 1.
    rewrite memb_nil_guard.
    destruct (tst (type (info (port_at st q))) target_type); simpl.
    + destruct (memb q exclude); simpl.
      * now apply IH.
      * rewrite (IH msg0);
          [| intros d; transitivity (with_dst d msg); [reflexivity | apply Hm]].
        rewrite Hm. unfold emit_all, emit. simpl.
        rewrite <- app_assoc. reflexivity.
    + now apply IH.
Qed.

Lemma sends_of_app (tr1 tr2 : list event) :
  sends_of (tr1 ++ tr2) = sends_of tr1 ++ sends_of tr2.
Proof. unfold sends_of. apply flat_map_app. Qed.

Lemma sends_of_send_events (f : Z -> shim_ipc_msg) (l : list Z) :
  sends_of (map (fun q => EvSend (f q) q) l) = map (fun q => (f q, q)) l.
Proof. induction l as [| q l IH]; simpl; [reflexivity | now rewrite <- IH]. Qed.

Lemma put_ipc_port_sends (p : Z) (st : ipc_state) :
  sends_of (trace (__put_ipc_port p st)) = sends_of (trace st).
Proof.
  unfold __put_ipc_port.
  destruct (ref_count _ =? 0); [| reflexivity].
  destruct (negb _); simpl; rewrite !sends_of_app; simpl;
    now rewrite ?app_nil_r.
Qed.

(** In a list without duplicates a port receives one message. *)
Lemma one_send_per_port (f : Z -> shim_ipc_msg) (l : list Z) (q : Z) :
  NoDup l -> In q l ->
  List.filter (fun s : shim_ipc_msg * Z => s.2 =? q)
    (map (fun q' => (f q', q')) l) = [(f q, q)].
Proof.
  induction l as [| x l IH]; intros Hnd Hin; [inversion Hin |].
  apply NoDup_cons in Hnd as [Hx Hnd]. simpl.
  destruct (x =? q) eqn:E.
  - apply Z.eqb_eq in E. subst x. f_equal.
    clear IH Hin Hnd. induction l as [| y l IH]; simpl; [reflexivity |].
    destruct (y =? q) eqn:Ey.
    + apply Z.eqb_eq in Ey. subst y. exfalso. apply Hx. now left.
    + apply IH. intros Hq. apply Hx. now right.
  - destruct Hin as [-> | Hin]; [rewrite Z.eqb_refl in E; discriminate |].
    now apply IH.
Qed.

Lemma NoDup_bool_filter (f : Z -> bool) (l : list Z) :
  NoDup l -> NoDup (List.filter f l).
Proof.
  induction l as [| x l IH]; intros Hnd; simpl; [constructor |].
  apply NoDup_cons in Hnd as [Hx Hnd].
  destruct (f x); [| now apply IH].
  apply NoDup_cons. split; [| now apply IH].
  intros Hin. apply Hx. apply list_elem_of_In in Hin.
  apply filter_In in Hin as [Hin _]. now apply list_elem_of_In.
Qed.

Lemma tst_zero (x : Z) : tst x 0 = false.
Proof. unfold tst. now rewrite Z.land_0_r. Qed.

(** C2.  Whatever the message, the exclusion list, the target role mask and
    the results of the individual sends: broadcast returns 0, sends nothing
    to a port of the exclusion list, and sends to every port of the
    insertion list whose roles meet the target mask and which is not
    excluded exactly one message, with [dst] set to that port's peer id. *)
Theorem broadcast_ipc_delivery (msg : shim_ipc_msg) (exclude : list Z)
  (target_type : Z) (st : ipc_state) :
  NoDup (pobj_list st) ->
  let res := broadcast_ipc msg exclude target_type st in
  exists sent,
    sends_of (trace res.2) = sends_of (trace st) ++ sent /\
    res.1.1 = 0 /\
    (forall m q, In (m, q) sent -> ~ In q exclude) /\
    (forall q, In q (pobj_list st) ->
               tst (type (info (port_at st q))) target_type = true ->
               ~ In q exclude ->
               List.filter (fun s : shim_ipc_msg * Z => s.2 =? q) sent
               = [(with_dst (vmid (info (port_at st q))) msg, q)]).
Proof.
  intros Hnd res.
  assert (Hmemb : forall q, memb q exclude = true <-> In q exclude).
  { intros q. unfold memb. rewrite existsb_exists. split.
    - intros (x & Hx & Hq). apply Z.eqb_eq in Hq. now subst.
    - intros Hq. exists q. split; [exact Hq | apply Z.eqb_refl]. }
  assert (Hwalk : forall s,
    let r := fold_left (broadcast_one exclude target_type) (pobj_list s)
               (msg, s) in
    sends_of (trace r.2)
    = sends_of (trace s)
      ++ map (fun q => (with_dst (vmid (info (port_at s q))) msg, q))
           (List.filter (broadcast_recipient s exclude target_type)
              (pobj_list s))).
  { intros s r. subst r. rewrite (broadcast_walk _ _ _ msg) by reflexivity.
    simpl. rewrite sends_of_app. f_equal.
    apply (sends_of_send_events
             (fun q => with_dst (vmid (info (port_at s q))) msg)). }
  assert (Hdirect : forall s,
    pobj_list s = pobj_list st ->
    (forall q, port_at s q = port_at st q) \/ target_type = 0 ->
    let r := fold_left (broadcast_one exclude target_type) (pobj_list s)
               (msg, s) in
    exists sent,
      sends_of (trace r.2) = sends_of (trace s) ++ sent /\
      (forall m q, In (m, q) sent -> ~ In q exclude) /\
      (forall q, In q (pobj_list st) ->
                 tst (type (info (port_at st q))) target_type = true ->
                 ~ In q exclude ->
                 List.filter (fun s : shim_ipc_msg * Z => s.2 =? q) sent
                 = [(with_dst (vmid (info (port_at st q))) msg, q)])).
  { intros s Hl Hp r. eexists. split; [apply Hwalk |]. split.
    - intros m q Hin. apply in_map_iff in Hin as (q' & Heq & Hq').
      injection Heq as _ ->. apply filter_In in Hq' as [_ Hr].
      unfold broadcast_recipient in Hr. apply andb_prop in Hr as [_ Hr].
      apply negb_true_iff in Hr. intros Hex. apply Hmemb in Hex. congruence.
    - intros q Hq Ht Hex. destruct Hp as [Hp | ->];
        [| rewrite tst_zero in Ht; discriminate].
      rewrite <- (Hp q).
      apply (one_send_per_port
               (fun q => with_dst (vmid (info (port_at s q))) msg)).
      + apply NoDup_bool_filter. now rewrite Hl.
      + apply filter_In. split; [now rewrite Hl |].
        unfold broadcast_recipient. rewrite Hp, Ht. simpl.
        apply negb_true_iff. destruct (memb q exclude) eqn:E; [| reflexivity].
        apply Hmemb in E. contradiction. }
  subst res. unfold broadcast_ipc.
  destruct ((target_type =? 0) && negb (broadcast_port st =? 0)) eqn:Eb.
  - apply andb_prop in Eb as [Et Eb]. apply Z.eqb_eq in Et. subst target_type.
    destruct (memb (broadcast_port st) exclude) eqn:Ex.
    + exists []. simpl. rewrite app_nil_r.
      split; [reflexivity |]. split; [reflexivity |]. split.
      * intros m q [].
      * intros q _ Ht. rewrite tst_zero in Ht. discriminate.
    + set (st2 := put_ipc_port (broadcast_port st)
                    (emit (EvSend msg (broadcast_port st))
                       (get_ipc_port (broadcast_port st) st))).
      assert (Hs2 : sends_of (trace st2)
                    = sends_of (trace st) ++ [(msg, broadcast_port st)]).
      { subst st2. unfold put_ipc_port. rewrite put_ipc_port_sends.
        simpl. now rewrite sends_of_app. }
      assert (Hbp : ~ In (broadcast_port st) exclude).
      { intros Hin. apply Hmemb in Hin. congruence. }
      destruct (send_ipc_message msg (broadcast_port st) =? 0).
      * exists [(msg, broadcast_port st)]. simpl.
        split; [exact Hs2 |]. split; [reflexivity |]. split.
        -- intros m q [Heq | []]. injection Heq as _ <-. exact Hbp.
        -- intros q _ Ht. rewrite tst_zero in Ht. discriminate.
      * assert (Hl2 : pobj_list st2 = pobj_list st).
        { subst st2. unfold put_ipc_port.
          destruct (put_ipc_port_frame (broadcast_port st)
                      (emit (EvSend msg (broadcast_port st))
                         (get_ipc_port (broadcast_port st) st))) as [F1 _].
          rewrite F1. reflexivity. }
        destruct (Hdirect st2 Hl2 (or_intror eq_refl)) as (sent & S1 & S2 & S3).
        exists ((msg, broadcast_port st) :: sent).
        destruct (fold_left _ _ _) as [m' s'] eqn:Ef. simpl in *.
        rewrite S1, Hs2, <- app_assoc. simpl.
        split; [reflexivity |]. split; [reflexivity |]. split.
        -- intros m q [Heq | Hin]; [injection Heq as _ <-; exact Hbp |].
           now apply (S2 m q).
        -- intros q _ Ht. rewrite tst_zero in Ht. discriminate.
  - destruct (Hdirect st eq_refl (or_introl (fun q => eq_refl)))
      as (sent & S1 & S2 & S3).
    exists sent. destruct (fold_left _ _ _) as [m' s'] eqn:Ef. simpl in *.
    split; [exact S1 |]. split; [reflexivity |]. split; [exact S2 | exact S3].
Qed.

End BroadcastFacts.

Lemma broadcast_ipc_delivery_witness :
  exists sent,
    Ipc.sends_of
      (Ipc.trace
         (Ipc.broadcast_ipc (H := sample_env) (Ipc.mkMsg 1 22 1 0 0) [3000]
            IPC_PORT_DIRPRT sample_state).2)
    = Ipc.sends_of (Ipc.trace sample_state) ++ sent /\
    (forall m, In (m, 3000) sent -> False) /\
    List.filter (fun s : Ipc.shim_ipc_msg * Z => s.2 =? 2000) sent
    = [(Ipc.mkMsg 1 22 1 8 0, 2000)].
Proof.
  destruct (broadcast_ipc_delivery (H := sample_env) (Ipc.mkMsg 1 22 1 0 0)
              [3000] IPC_PORT_DIRPRT sample_state)
    as (sent & Hs & _ & Hex & Hone).
  - apply (bool_decide_unpack _). vm_compute. exact I.
  - exists sent. split; [exact Hs |]. split.
    + intros m Hin. apply (Hex m 3000 Hin). simpl. lia.
    + apply (Hone 2000).
      * simpl. lia.
      * vm_compute. reflexivity.
      * simpl. lia.
Defined.

(** A sample run: the parent link at 2000 is the only recipient, and the
    failure of the send to it changes nothing. *)
Example broadcast_ipc_sample :
  Ipc.sends_of
    (Ipc.trace
       (Ipc.broadcast_ipc (H := sample_env) (Ipc.mkMsg 1 22 1 0 0) [3000]
          IPC_PORT_DIRPRT sample_state).2)
  = [(Ipc.mkMsg 1 22 1 8 0, 2000)].
Proof. vm_compute. reflexivity. Qed.

(** ** The receive routine *)

Section ReceiveFacts.

Import Ipc.
Context `{Env}.

Lemma quiet_refl (st : ipc_state) : quiet_step st st.
Proof. exists []. now rewrite app_nil_r. Qed.

Lemma quiet_same (st st' : ipc_state) :
  trace st' = trace st -> quiet_step st st'.
Proof. intros Ht. exists []. now rewrite app_nil_r. Qed.

Lemma quiet_trans (st1 st2 st3 : ipc_state) :
  quiet_step st1 st2 -> quiet_step st2 st3 -> quiet_step st1 st3.
Proof.
  intros (es1 & T1 & C1) (es2 & T2 & C2). exists (es1 ++ es2). split.
  - now rewrite T2, T1, app_assoc.
  - unfold callbacks_of in *. now rewrite List.filter_app, C1, C2.
Qed.

Lemma quiet_emit (e : event) (st : ipc_state) :
  callbacks_of [e] = [] -> quiet_step st (emit e st).
Proof. intros He. now exists [e]. Qed.

Lemma quiet_put (p : Z) (st : ipc_state) : quiet_step st (__put_ipc_port p st).
Proof.
  unfold __put_ipc_port.
  destruct (ref_count _ =? 0); [| now apply quiet_same].
  destruct (negb _).
  - exists [EvObjectClose
              (pal_handle
                 (port_at
                    (upd_port p (fun o => with_ref_count (ref_count o - 1) o) st)
                    p));
            EvFree p].
    split; [simpl; now rewrite <- app_assoc | reflexivity].
  - exists [EvFree p]. split; reflexivity.
Qed.

Lemma quiet_restart_false (st : ipc_state) :
  quiet_step st (restart_ipc_helper false st).
Proof.
  unfold restart_ipc_helper.
  destruct (ipc_helper_state st); try (now apply quiet_same).
  destruct (IN_HELPER st); [now apply quiet_same | now apply quiet_emit].
Qed.

Lemma quiet_del (p mask : Z) (st : ipc_state) :
  quiet_step st (__del_ipc_port p mask st).2.
Proof.
  rewrite del_ipc_port_unfold. cbv zeta.
  destruct (negb (other_roles _ _ =? 0)); cbn [fst snd];
    [now apply quiet_same |].
  eapply quiet_trans; [| now apply quiet_same].
  set (st1 := if negb (list_empty st p) then _ else st).
  assert (Q1 : quiet_step st st1).
  { subst st1. destruct (negb (list_empty st p)); [| apply quiet_refl].
    eapply quiet_trans; [| apply quiet_put]. now apply quiet_same. }
  destruct (negb (hlist_unhashed st1 p)); [| exact Q1].
  eapply quiet_trans; [exact Q1 |].
  eapply quiet_trans; [| apply quiet_put]. now apply quiet_same.
Qed.

Lemma quiet_fold (A : Type) (f : ipc_state -> A -> ipc_state) (l : list A) :
  (forall st a, quiet_step st (f st a)) ->
  forall st, quiet_step st (fold_left f l st).
Proof.
  intros Hf. induction l as [| a l IH]; intros st; simpl; [apply quiet_refl |].
  eapply quiet_trans; [apply Hf | apply IH].
Qed.

Lemma quiet_wake (st : ipc_state) (m : shim_ipc_msg_obj) :
  quiet_step st (wake_msg st m).
Proof.
  unfold wake_msg. destruct (negb _).
  - exists [EvMsgRetval (mo_addr m) (- ECONNRESET); EvThreadWakeup (mo_thread m)].
    split; [simpl; now rewrite <- app_assoc | reflexivity].
  - now apply quiet_emit.
Qed.

(** The steps of [del_ipc_port_fini], for a port that passes its asserts. *)
Lemma del_ipc_port_fini_unfold (p exitcode : Z) (st st' : ipc_state) :
  del_ipc_port_fini p exitcode st = Done tt st' ->
  let vmid_ := vmid (info (port_at st p)) in
  let slots := take MAX_IPC_PORT_FINI_CB (fini (port_at st p)) in
  let st1 := __get_ipc_port p
    (upd_port p
       (fun o => with_fini (map (fun _ => 0) slots
                            ++ drop MAX_IPC_PORT_FINI_CB (fini o)) o) st) in
  let st2 := (__del_ipc_port p 0 st1).2 in
  let st3 := fold_left (fun st cb => emit (EvFini cb p vmid_ exitcode) st)
               (List.filter (fun cb => negb (cb =? 0)) slots) st2 in
  exists st4,
    quiet_step st3 st4 /\ quiet_step st4 st' /\
    pobj_list st4 = pobj_list st3 /\ ipc_port_pool st4 = ipc_port_pool st3 /\
    pobj_list st' = pobj_list st4 /\ ipc_port_pool st' = ipc_port_pool st4.
Proof.
  unfold del_ipc_port_fini.
  destruct (negb (0 <? ref_count (port_at st p))); [discriminate |].
  cbv zeta.
  destruct (__del_ipc_port p 0 _) as [need_restart st2] eqn:Ed. cbn [snd].
  set (st3 := fold_left _ _ st2).
  set (st3' := if negb (list_empty st3 p) then _ else st3).
  assert (Q3 : quiet_step st3 st3' /\ pobj_list st3' = pobj_list st3 /\
               ipc_port_pool st3' = ipc_port_pool st3).
  { subst st3'. destruct (negb (list_empty st3 p)).
    - split; [| split].
      + eapply quiet_trans; [| now apply quiet_same].
        apply quiet_fold. apply quiet_wake.
      + simpl. generalize (msgs (port_at st3 p)). intros l. generalize st3.
        induction l as [| m l IH]; intros s; simpl; [reflexivity |].
        rewrite IH. unfold wake_msg. now destruct (negb _).
      + simpl. generalize (msgs (port_at st3 p)). intros l. generalize st3.
        induction l as [| m l IH]; intros s; simpl; [reflexivity |].
        rewrite IH. unfold wake_msg. now destruct (negb _).
    - split; [apply quiet_refl | split; reflexivity]. }
  destruct Q3 as (Q3 & L3 & P3).
  destruct (put_ipc_port_frame p st3') as (F1 & F2 & _).
  destruct (negb (0 <? ref_count (port_at (put_ipc_port p st3') p)));
    [discriminate |].
  intros Hd. injection Hd as <-.
  exists (put_ipc_port p st3'). unfold put_ipc_port.
  split; [eapply quiet_trans; [exact Q3 | apply quiet_put] |].
  split; [destruct need_restart; [apply quiet_restart_false | apply quiet_refl] |].
  split; [now rewrite F1, L3 |]. split; [now rewrite F2, P3 |].
  assert (Hr : forall s, pobj_list (restart_ipc_helper false s) = pobj_list s /\
                         ipc_port_pool (restart_ipc_helper false s)
                         = ipc_port_pool s).
  { intros s. unfold restart_ipc_helper.
    destruct (ipc_helper_state s); try (split; reflexivity).
    destruct (IN_HELPER s); split; reflexivity. }
  destruct need_restart; [apply Hr | split; reflexivity].
Qed.

Lemma quiet_del_ipc_port_fini (p exitcode : Z) (st : ipc_state) :
  quiet_step st (final_state (del_ipc_port_fini p exitcode st)).
Proof.
  unfold del_ipc_port_fini.
  destruct (negb (0 <? ref_count (port_at st p))); [apply quiet_refl |].
  cbv zeta.
  set (st1 := __get_ipc_port p _).
  assert (Q1 : quiet_step st st1) by now apply quiet_same.
  pose proof (quiet_del p 0 st1) as Q2.
  destruct (__del_ipc_port p 0 st1) as [need_restart st2]. cbn [snd] in Q2.
  set (st3 := fold_left _ _ st2).
  assert (Q3 : quiet_step st2 st3).
  { subst st3. apply quiet_fold. intros s cb. now apply quiet_emit. }
  set (st3' := if negb (list_empty st3 p) then _ else st3).
  assert (Q3' : quiet_step st3 st3').
  { subst st3'. destruct (negb (list_empty st3 p)); [| apply quiet_refl].
    eapply quiet_trans; [| now apply quiet_same].
    apply quiet_fold. apply quiet_wake. }
  assert (Q4 : quiet_step st (put_ipc_port p st3')).
  { eapply quiet_trans; [exact Q1 |]. eapply quiet_trans; [exact Q2 |].
    eapply quiet_trans; [exact Q3 |]. eapply quiet_trans; [exact Q3' |].
    apply quiet_put. }
  destruct (negb (0 <? ref_count (port_at (put_ipc_port p st3') p)));
    [exact Q4 |].
  simpl. destruct need_restart; [| exact Q4].
  eapply quiet_trans; [exact Q4 | apply quiet_restart_false].
Qed.

Lemma fold_emit_trace (A : Type) (f : A -> event) (l : list A) :
  forall st,
    let st' := fold_left (fun s a => emit (f a) s) l st in
    trace st' = trace st ++ map f l /\
    pobj_list st' = pobj_list st /\ ipc_port_pool st' = ipc_port_pool st.
Proof.
  induction l as [| a l IH]; intros st; simpl.
  - now rewrite app_nil_r.
  - destruct (IH (emit (f a) st)) as (T & L & P).
    rewrite T, L, P. simpl. now rewrite <- app_assoc.
Qed.

(** Tearing a port down takes it off both collections and runs each of its
    fini callbacks with the given exit code. *)
Lemma del_ipc_port_fini_teardown (p exitcode : Z) (st st' : ipc_state) :
  del_ipc_port_fini p exitcode st = Done tt st' ->
  list_empty st' p = true /\
  hlist_unhashed st' p = true /\
  (forall cb, In cb (take MAX_IPC_PORT_FINI_CB (fini (port_at st p))) ->
              cb <> 0 ->
              In (EvFini cb p (vmid (info (port_at st p))) exitcode)
                 (trace st')).
Proof.
  intros Hd. apply del_ipc_port_fini_unfold in Hd. cbv zeta in Hd.
  destruct Hd as (st4 & Q4 & Q' & L4 & P4 & L' & P').
  set (st1 := __get_ipc_port p _) in *.
  pose proof (del_ipc_port_cases p 0 st1) as (_ & _ & _ & Hrm & _).
  cbv zeta in Hrm.
  destruct Hrm as (_ & _ & Hl & Hh & _).
  { unfold other_roles, cleared_roles. simpl. apply land_lnot_lor_self. }
  set (st2 := (__del_ipc_port p 0 st1).2) in *.
  destruct (fold_emit_trace Z
              (fun cb => EvFini cb p (vmid (info (port_at st p))) exitcode)
              (List.filter (fun cb => negb (cb =? 0))
                 (take MAX_IPC_PORT_FINI_CB (fini (port_at st p)))) st2)
    as (T3 & L3 & P3).
  cbv zeta in T3, L3, P3.
  set (st3 := fold_left _ _ st2) in *.
  split; [| split].
  - unfold list_empty in *. now rewrite L', L4, L3.
  - unfold hlist_unhashed in *. now rewrite P', P4, P3.
  - intros cb Hin Hnz.
    destruct Q4 as (es4 & T4 & _). destruct Q' as (es' & T' & _).
    rewrite T', T4, T3. apply in_or_app. left. apply in_or_app. left.
    apply in_or_app. right.
    apply (in_map (fun cb => EvFini cb p (vmid (info (port_at st p))) exitcode)).
    apply filter_In. split; [exact Hin |].
    apply negb_true_iff. now apply Z.eqb_neq.
Qed.

(** C1 (amended).  Whenever the read loop ends with no byte accumulated and
    the platform error number is set, the port is torn down by
    [del_ipc_port_fini] with exit code -ECHILD and the routine returns the
    negated error: the port leaves the insertion list and the peer index,
    and each of its fini callbacks is called with -ECHILD. *)
Theorem receive_read_error_teardown (fuel : nat) (p seq_ : Z)
  (msgptr : msgptr_t) (expected_size ret : Z) (st : ipc_state) :
  0 < expected_size ->
  let rd := DkStreamRead (pal_handle (port_at st p))
              (expected_size - 0 + IPC_MSG_READAHEAD) st in
  rd.1 = [] ->
  pal_errno rd.2 <> 0 ->
  let run := recv_loop (S fuel) p seq_ msgptr expected_size [] ret st in
  run = match del_ipc_port_fini p (to_uint (- ECHILD)) rd.2 with
        | Done _ st2 =>
            recv_finish p msgptr (- PAL_ERRNO_of (pal_errno st2)) st2
        | Abort st2 => Abort st2
        | Fuel st2 => Fuel st2
        end /\
  (forall st2,
     del_ipc_port_fini p (to_uint (- ECHILD)) rd.2 = Done tt st2 ->
     run = Done (- PAL_ERRNO_of (pal_errno st2),
                 match msgptr with Some _ => OutNull | None => OutUntouched end)
             (put_ipc_port p st2) /\
     list_empty (final_state run) p = true /\
     hlist_unhashed (final_state run) p = true /\
     (forall cb,
        In cb (take MAX_IPC_PORT_FINI_CB (fini (port_at rd.2 p))) ->
        cb <> 0 ->
        In (EvFini cb p (vmid (info (port_at rd.2 p))) (to_uint (- ECHILD)))
           (trace (final_state run)))).
Proof.
  intros Hexp rd Hdata Herr run.
  assert (Hrun : run = match del_ipc_port_fini p (to_uint (- ECHILD)) rd.2 with
                       | Done _ st2 =>
                           recv_finish p msgptr
                             (- PAL_ERRNO_of (pal_errno st2)) st2
                       | Abort st2 => Abort st2
                       | Fuel st2 => Fuel st2
                       end).
  { subst run. cbn [recv_loop length]. change (Z.of_nat 0) with 0.
    rewrite (proj2 (Z.ltb_lt 0 expected_size) Hexp).
    fold rd. destruct rd as [data st1]. simpl in Hdata, Herr.
    subst data. cbn [length]. change (Z.of_nat 0 =? 0) with true. cbv iota.
    unfold recv_after_read. cbn [length]. change (Z.of_nat 0 =? 0) with true.
    cbv iota. destruct (pal_errno st1 =? 0) eqn:Ee; [lia |]. reflexivity. }
  split; [exact Hrun |].
  intros st2 Hd. rewrite Hrun, Hd. unfold recv_finish. simpl.
  split; [reflexivity |].
  destruct (del_ipc_port_fini_teardown _ _ _ _ Hd) as (Hl & Hh & Hf).
  destruct (put_ipc_port_frame p st2) as (F1 & F2 & _).
  unfold put_ipc_port.
  split; [| split].
  - unfold list_empty in *. now rewrite F1.
  - unfold hlist_unhashed in *. now rewrite F2.
  - intros cb Hin Hnz. destruct (quiet_put p st2) as (es & T & _).
    rewrite T. apply in_or_app. left. now apply Hf.
Qed.

(** *** Messages from this process *)

Lemma no_self_callback_quiet (st st' : ipc_state) :
  quiet_step st st' ->
  no_self_callback (trace st) -> no_self_callback (trace st').
Proof.
  intros (es & T & C) Hn cb m q Hin. rewrite T in Hin.
  apply in_app_or in Hin as [Hin | Hin]; [now apply (Hn cb m q) |].
  assert (Hc : In (EvCallback cb m q) (callbacks_of es))
    by (apply filter_In; split; [exact Hin | reflexivity]).
  rewrite C in Hc. inversion Hc.
Qed.

(** A dispatched message is one from another process. *)
Lemma dispatch_no_self (p : Z) (msg : shim_ipc_msg) (ret : Z)
  (st : ipc_state) :
  src msg <> cur_process_vmid ->
  no_self_callback (trace st) ->
  no_self_callback (trace (dispatch p msg ret st).2).
Proof.
  intros Hsrc Hn. unfold dispatch.
  destruct (negb (ipc_callbacks (code msg) =? 0)); [| exact Hn].
  assert (Hc : no_self_callback
                 (trace (emit (EvCallback (ipc_callbacks (code msg)) msg p) st))).
  { intros cb m q Hin. simpl in Hin.
    apply in_app_or in Hin as [Hin | [Heq | []]]; [now apply (Hn cb m q) |].
    injection Heq as _ <- _. exact Hsrc. }
  destruct (_ && _); [| exact Hc].
  unfold __response_ipc_message. cbn [snd].
  eapply no_self_callback_quiet; [| exact Hc]. now apply quiet_emit.
Qed.

Lemma recv_finish_no_self (p : Z) (msgptr : msgptr_t) (ret : Z)
  (st : ipc_state) :
  no_self_callback (trace st) ->
  no_self_callback (trace (final_state (recv_finish p msgptr ret st))).
Proof.
  intros Hn. simpl. eapply no_self_callback_quiet; [apply quiet_put | exact Hn].
Qed.

(** A message from this process goes through [recv_process] without any
    effect: no callback, no response, same return value. *)
Lemma recv_process_self
  (k : Z -> list Z -> Z -> ipc_state -> outcome (Z * recv_out))
  (p seq_ : Z) (msgptr : msgptr_t) (msg : shim_ipc_msg) (buf : list Z)
  (ret : Z) (st : ipc_state) :
  src msg = cur_process_vmid ->
  recv_process k p seq_ msgptr msg buf ret st
  = if (0 <? Z.of_nat (length (drop (Z.to_nat (size msg)) buf))) ||
       (negb (seq_ =? 0) && negb (seq msg =? seq_))
    then k IPC_MSG_MINIMAL_SIZE (drop (Z.to_nat (size msg)) buf) ret st
    else recv_finish p msgptr ret st.
Proof.
  intros Hsrc. unfold recv_process. rewrite Hsrc, Z.eqb_refl. reflexivity.
Qed.

Lemma recv_process_no_self
  (k : Z -> list Z -> Z -> ipc_state -> outcome (Z * recv_out))
  (p seq_ : Z) (msgptr : msgptr_t) (msg : shim_ipc_msg) (buf : list Z)
  (ret : Z) (st : ipc_state) :
  (forall e b r s, no_self_callback (trace s) ->
                   no_self_callback (trace (final_state (k e b r s)))) ->
  no_self_callback (trace st) ->
  no_self_callback
    (trace (final_state (recv_process k p seq_ msgptr msg buf ret st))).
Proof.
  intros Hk Hn. unfold recv_process.
  destruct (src msg =? cur_process_vmid) eqn:Es.
  - destruct (_ || _); [now apply Hk | now apply recv_finish_no_self].
  - apply Z.eqb_neq in Es.
    pose proof (dispatch_no_self p msg ret st Es Hn) as Hd.
    destruct (dispatch p msg ret st) as [ret' st'']. cbn [snd] in Hd.
    destruct (_ || _); [now apply Hk | now apply recv_finish_no_self].
Qed.

Lemma recv_after_read_no_self
  (k : Z -> list Z -> Z -> ipc_state -> outcome (Z * recv_out))
  (p seq_ : Z) (msgptr : msgptr_t) (buf : list Z) (ret : Z) (st : ipc_state) :
  (forall e b r s, no_self_callback (trace s) ->
                   no_self_callback (trace (final_state (k e b r s)))) ->
  no_self_callback (trace st) ->
  no_self_callback
    (trace (final_state (recv_after_read k p seq_ msgptr buf ret st))).
Proof.
  intros Hk Hn. unfold recv_after_read.
  destruct (Z.of_nat (length buf) =? 0).
  - destruct (negb (pal_errno st =? 0)); [| now apply recv_finish_no_self].
    pose proof (quiet_del_ipc_port_fini p (to_uint (- ECHILD)) st) as Hq.
    apply no_self_callback_quiet in Hq; [| exact Hn].
    destruct (del_ipc_port_fini p (to_uint (- ECHILD)) st) as [[] s | s | s];
      simpl in Hq; [now apply recv_finish_no_self | exact Hq | exact Hq].
  - destruct (Z.of_nat (length buf) <? size (msg_view buf)); [now apply Hk |].
    destruct msgptr as [target |]; [| now apply recv_process_no_self].
    destruct ((seq_ =? 0) || (seq (msg_view buf) =? seq_));
      [exact Hn | now apply recv_process_no_self].
Qed.

Lemma DkStreamRead_trace (handle n : Z) (st : ipc_state) :
  trace (DkStreamRead handle n st).2 = trace st.
Proof.
  unfold DkStreamRead.
  destruct (default [] (streams st !! handle)) as [| [d | e] rest]; reflexivity.
Qed.

Lemma recv_loop_no_self (fuel : nat) (p seq_ : Z) (msgptr : msgptr_t) :
  forall (expected_size : Z) (buf : list Z) (ret : Z) (st : ipc_state),
    no_self_callback (trace st) ->
    no_self_callback
      (trace (final_state
                (recv_loop fuel p seq_ msgptr expected_size buf ret st))).
Proof.
  induction fuel as [| fuel IH]; intros expected_size buf ret st Hn;
    [exact Hn |].
  cbn [recv_loop].
  destruct (Z.of_nat (length buf) <? expected_size).
  - pose proof (DkStreamRead_trace (pal_handle (port_at st p))
                  (expected_size - Z.of_nat (length buf) + IPC_MSG_READAHEAD)
                  st) as Ht.
    destruct (DkStreamRead _ _ st) as [data st1]. cbn [snd] in Ht.
    rewrite <- Ht in Hn.
    destruct (Z.of_nat (length data) =? 0).
    + now apply recv_after_read_no_self.
    + now apply IH.
  - now apply recv_after_read_no_self.
Qed.

(** C3.  In the receive routine a message whose [src] is the current
    process id and which is not handed to the caller by the sequence match
    is dropped: its bytes leave the buffer and the state and return value
    pass on unchanged, so no callback runs and no response is sent for it.
    Over a whole run, whatever the stream delivers and wherever the run
    stops, no callback is dispatched for a message of this process. *)
Theorem receive_drops_own_messages (fuel : nat) (p seq_ : Z)
  (msgptr : msgptr_t) (st : ipc_state) :
  (forall k buf ret s,
     src (msg_view buf) = cur_process_vmid ->
     0 < Z.of_nat (length buf) ->
     size (msg_view buf) <= Z.of_nat (length buf) ->
     msgptr = None \/ (seq_ <> 0 /\ seq (msg_view buf) <> seq_) ->
     recv_after_read k p seq_ msgptr buf ret s
     = if (0 <? Z.of_nat (length (drop (Z.to_nat (size (msg_view buf))) buf)))
          || (negb (seq_ =? 0) && negb (seq (msg_view buf) =? seq_))
       then k IPC_MSG_MINIMAL_SIZE
              (drop (Z.to_nat (size (msg_view buf))) buf) ret s
       else recv_finish p msgptr ret s) /\
  (no_self_callback (trace st) ->
   no_self_callback
     (trace (final_state (receive_ipc_message fuel p seq_ msgptr st)))).
Proof.
  split.
  - intros k buf ret s Hsrc Hlen Hsize Hmatch. unfold recv_after_read.
    destruct (Z.of_nat (length buf) =? 0) eqn:E0; [lia |].
    destruct (Z.of_nat (length buf) <? size (msg_view buf)) eqn:E1; [lia |].
    destruct Hmatch as [-> | [Hs Hm]].
    + now apply recv_process_self.
    + destruct msgptr as [target |]; [| now apply recv_process_self].
      assert (Hc : (seq_ =? 0) || (seq (msg_view buf) =? seq_) = false)
        by (apply orb_false_intro; now apply Z.eqb_neq).
      rewrite Hc. now apply recv_process_self.
  - intros Hn. unfold receive_ipc_message. now apply recv_loop_no_self.
Qed.

End ReceiveFacts.

Lemma receive_read_error_teardown_witness :
  exists st',
    Ipc.receive_ipc_message (H := sample_env) 1 1000 0 None sample_state
    = Ipc.Done (-5, Ipc.OutUntouched) st' /\
    Ipc.list_empty st' 1000 = true /\
    In (Ipc.EvFini 4001 1000 7 (Ipc.to_uint (- ECHILD))) (Ipc.trace st').
Proof.
  pose proof (receive_read_error_teardown (H := sample_env) 0 1000 0 None 22 0
                (Ipc.get_ipc_port 1000 sample_state)
                ltac:(lia)
                ltac:(vm_compute; reflexivity)
                ltac:(vm_compute; discriminate)) as [_ Hdown].
  destruct (Ipc.del_ipc_port_fini (H := sample_env) 1000
              (Ipc.to_uint (- ECHILD))
              (Ipc.DkStreamRead
                 (Ipc.pal_handle
                    (Ipc.port_at (Ipc.get_ipc_port 1000 sample_state) 1000))
                 (22 - 0 + 8) (Ipc.get_ipc_port 1000 sample_state)).2)
    as [[] st2 | st2 | st2] eqn:Ed;
    [| vm_compute in Ed; discriminate | vm_compute in Ed; discriminate].
  destruct (Hdown st2 Ed) as (Hrun & Hl & _ & Hf).
  exists (Ipc.put_ipc_port 1000 st2). split; [| split].
  - unfold Ipc.receive_ipc_message.
    replace (-5) with (- Ipc.PAL_ERRNO_of (Env := sample_env) (Ipc.pal_errno st2)).
    + exact Hrun.
    + vm_compute in Ed. injection Ed as <-. reflexivity.
  - unfold Ipc.receive_ipc_message in Hl. rewrite Hrun in Hl. exact Hl.
  - unfold Ipc.receive_ipc_message in Hf. rewrite Hrun in Hf.
    apply (Hf 4001); [vm_compute; auto | lia].
Defined.

(** C1 as stated fails: when the first read on the polled listener fails,
    its fini callback is called with exit code -ECHILD, not -ECONNRESET. *)
Lemma receive_read_error_counterexample :
  let run := Ipc.receive_ipc_message (H := sample_env) 1 1000 0 None
               sample_state in
  Ipc.trace (Ipc.final_state run)
  = [Ipc.EvFini 4001 1000 7 (Ipc.to_uint (- ECHILD)); Ipc.EvSetEvent] /\
  Ipc.to_uint (- ECHILD) <> Ipc.to_uint (- ECONNRESET) /\
  ~ In (Ipc.EvFini 4001 1000 7 (Ipc.to_uint (- ECONNRESET)))
       (Ipc.trace (Ipc.final_state run)).
Proof.
  vm_compute. split; [reflexivity |]. split; [discriminate |].
  intros [Hin | [Hin | []]]; discriminate.
Qed.

Lemma receive_drops_own_messages_witness :
  Ipc.no_self_callback (H := sample_env)
    (Ipc.trace
       (Ipc.final_state
          (Ipc.receive_ipc_message (H := sample_env) 10 1000 0 None
             sample_state_echo))).
Proof.
  apply (receive_drops_own_messages (H := sample_env) 10 1000 0 None
           sample_state_echo).
  simpl. intros cb m q [].
Defined.

(** A sample run: the echo is skipped, the message from peer 7 reaches the
    handler of its code, and the routine returns its result. *)
Example receive_echo_sample :
  Ipc.receive_ipc_message (H := sample_env) 10 1000 0 None sample_state_echo
  = Ipc.Done (0, Ipc.OutUntouched)
      (Ipc.emit (Ipc.EvCallback 5001 (Ipc.mkMsg 1 22 7 1 0) 1000)
         (Ipc.set_streams (<[11 := []]> (<[11 := []]> (<[11 := []]> ∅)))
            sample_state)).
Proof. vm_compute. reflexivity. Qed.

(** ** More on the eventfd driver *)

Section EventfdOpenFacts.

Import Eventfd.
Context `{Host} `{OpenHost}.

(** The eventfd flags are the translation of the three options and nothing
    else. *)
Theorem eventfd_type_flags (options : Z) :
  tst (eventfd_type options) EFD_NONBLOCK = tst options PAL_OPTION_NONBLOCK /\
  tst (eventfd_type options) EFD_CLOEXEC = tst options PAL_OPTION_CLOEXEC /\
  tst (eventfd_type options) EFD_SEMAPHORE
  = tst options PAL_OPTION_EFD_SEMAPHORE /\
  Z.land (eventfd_type options)
    (Z.lnot (Z.lor EFD_NONBLOCK (Z.lor EFD_CLOEXEC EFD_SEMAPHORE))) = 0.
Proof.
  unfold eventfd_type.
  destruct (tst options PAL_OPTION_NONBLOCK),
           (tst options PAL_OPTION_CLOEXEC),
           (tst options PAL_OPTION_EFD_SEMAPHORE);
    vm_compute; auto.
Qed.


(** A handle that was opened is closed by exactly one host call on its
    descriptor; closing it again calls nothing, and the closed handle is
    refused by the attribute query. *)
Theorem eventfd_open_close (type uri : string) (create options : Z)
  (h : PAL_HANDLE) :
  (eventfd_pal_open type uri create options).1.2 = Some h ->
  eventfd_fd h <> PAL_IDX_POISON ->
  let closed := (eventfd_pal_close h).1.2 in
  eventfd_nonblocking h = tst options PAL_OPTION_NONBLOCK /\
  eventfd_pal_close h = (Ret 0, closed, [OcallClose (eventfd_fd h)]) /\
  eventfd_fd closed = PAL_IDX_POISON /\
  eventfd_pal_close closed = (Ret 0, closed, []) /\
  eventfd_pal_attrquerybyhdl closed = (Fail PAL_ERROR_BADHANDLE, None, []).
Proof.
  intros Hopen Hfd closed.
  assert (Ht : hdr_type h = pal_type_eventfd /\
               eventfd_nonblocking h = tst options PAL_OPTION_NONBLOCK).
  { unfold eventfd_pal_open in Hopen.
    destruct (_ || _); [discriminate |].
    destruct (tst options PAL_OPTION_EFD_SEMAPHORE).
    - destruct (create <? 0); [discriminate |].
      destruct malloc_ok; [| discriminate].
      injection Hopen as <-. auto.
    - destruct (ocall_eventfd _ _ <? 0); [discriminate |].
      destruct malloc_ok; [| discriminate].
      injection Hopen as <-. auto. }
  destruct Ht as [Ht Hnb].
  assert (Hc : eventfd_pal_close h
               = (Ret 0,
                  mkHandle (hdr_type h) (hdr_flags h) PAL_IDX_POISON
                    (eventfd_nonblocking h),
                  [OcallClose (eventfd_fd h)])).
  { unfold eventfd_pal_close. rewrite Ht. simpl.
    destruct (eventfd_fd h =? PAL_IDX_POISON) eqn:E; [lia | reflexivity]. }
  subst closed. rewrite Hc. simpl.
  split; [exact Hnb |]. split; [reflexivity |]. split; [reflexivity |].
  split.
  - now apply eventfd_close_idempotent.
  - now apply eventfd_attrquery_closed.
Qed.

Lemma land_through (r m a v : Z) :
  Z.land r m = v -> Z.land m a = a -> Z.land r a = Z.land v a.
Proof. intros <- Ha. now rewrite <- Z.land_assoc, Ha. Qed.

(** The attribute query reports a handle readable only when the poll found
    exactly one ready descriptor with POLLIN and without POLLERR and POLLHUP,
    and writable only when it found POLLOUT without them; it reports the
    descriptor itself and the pending size the host gave. *)
Theorem eventfd_attrquery_ready (h : PAL_HANDLE) (attr : PAL_STREAM_ATTR) :
  (eventfd_pal_attrquerybyhdl h).1.2 = Some attr ->
  let answer := ocall_poll (eventfd_fd h) (Z.lor POLLIN POLLOUT) in
  eventfd_fd h <> PAL_IDX_POISON /\
  (eventfd_pal_attrquerybyhdl h).1.1 = Ret 0 /\
  no_of_fds attr = 1 /\ fds0 attr = eventfd_fd h /\
  pending_size attr = ocall_fionread (eventfd_fd h) /\
  0 <= pending_size attr /\
  (readable attr = true ->
     answer.1 = 1 /\ tst answer.2 POLLIN = true /\
     tst answer.2 POLLERR = false /\ tst answer.2 POLLHUP = false) /\
  (writable attr = true ->
     answer.1 = 1 /\ tst answer.2 POLLOUT = true /\
     tst answer.2 POLLERR = false /\ tst answer.2 POLLHUP = false).
Proof.
  unfold eventfd_pal_attrquerybyhdl.
  destruct (eventfd_fd h =? PAL_IDX_POISON) eqn:Ep; [discriminate |].
  destruct (ocall_fionread (eventfd_fd h) <? 0) eqn:Ef; [discriminate |].
  destruct (ocall_poll (eventfd_fd h) (Z.lor POLLIN POLLOUT)) as [ret revents].
  destruct (ret <? 0); [discriminate |].
  simpl. intros Ha. injection Ha as <-. simpl.
  split; [lia |]. split; [reflexivity |]. split; [reflexivity |].
  split; [reflexivity |]. split; [reflexivity |]. split; [lia |].
  unfold tst. split.
  - intros Hr. apply andb_prop in Hr as [Hret Hbits].
    apply Z.eqb_eq in Hret, Hbits. split; [exact Hret |].
    rewrite (land_through revents _ POLLIN _ Hbits eq_refl).
    rewrite (land_through revents _ POLLERR _ Hbits eq_refl).
    rewrite (land_through revents _ POLLHUP _ Hbits eq_refl).
    repeat split; reflexivity.
  - intros Hw. apply andb_prop in Hw as [Hret Hbits].
    apply Z.eqb_eq in Hret, Hbits. split; [exact Hret |].
    rewrite (land_through revents _ POLLOUT _ Hbits eq_refl).
    rewrite (land_through revents _ POLLERR _ Hbits eq_refl).
    rewrite (land_through revents _ POLLHUP _ Hbits eq_refl).
    repeat split; reflexivity.
Qed.

End EventfdOpenFacts.


Lemma eventfd_open_close_witness :
  exists h,
    (Eventfd.eventfd_pal_open (H := sample_eventfd_host)
       (H0 := sample_open_host) "eventfd" EmptyString 0 4).1.2 = Some h /\
    (Eventfd.eventfd_pal_close (H := sample_eventfd_host) h).2
    = [Eventfd.OcallClose 5].
Proof.
  eexists. split; [vm_compute; reflexivity |].
  match goal with
  | |- (Eventfd.eventfd_pal_close ?h).2 = _ =>
      destruct (eventfd_open_close (H := sample_eventfd_host)
                  (H0 := sample_open_host) "eventfd" EmptyString 0 4 h
                  ltac:(vm_compute; reflexivity)
                  ltac:(vm_compute; discriminate)) as (_ & Hc & _)
  end.
  rewrite Hc. reflexivity.
Defined.

Lemma eventfd_attrquery_ready_witness :
  exists attr,
    (Eventfd.eventfd_pal_attrquerybyhdl (H := sample_eventfd_host)
       open_eventfd).1.2 = Some attr /\
    Eventfd.fds0 attr = 5.
Proof.
  eexists. split; [vm_compute; reflexivity |].
  match goal with
  | |- Eventfd.fds0 ?a = _ =>
      destruct (eventfd_attrquery_ready (H := sample_eventfd_host)
                  open_eventfd a ltac:(vm_compute; reflexivity))
        as (_ & _ & _ & Hfd & _)
  end.
  rewrite Hfd. reflexivity.
Defined.

(** ** More on the multi-wait primitive *)

Section ObjectMoreFacts.

Import Object.
Context `{Host}.

(** Every entry handed to [ppoll] by a wait on several handles belongs to a
    non-null handle of the array, is a descriptor of one of its slots other
    than the poison value, on a slot without error flag, and asks for
    hang-up and error besides what the slot allows. *)
Theorem poll_entries_lawful (heap : gmap Z PAL_HANDLE) (handleArray : list Z)
  (e : poll_entry) :
  In e (poll_entries heap handleArray) ->
  pe_hdl e <> 0 /\ In (pe_hdl e) handleArray /\
  pe_fd e <> PAL_IDX_POISON /\
  exists j, (j < MAX_FDS)%nat /\
    let h := heap !!! pe_hdl e in
    pe_fd e = nth j (fds h) 0 /\
    tst (flags h) (ERROR j) = false /\
    tst (flags h) (Z.lor (RFD j) (WFD j)) = true /\
    pe_events e = with_hup_err (poll_events (flags h) j) /\
    tst (pe_events e) (Z.lor POLLHUP POLLERR) = true /\
    (tst (pe_events e) POLLOUT = true ->
       tst (flags h) (WFD j) = true /\ tst (flags h) (WRITEABLE j) = false).
Proof. apply poll_entries_origin. Qed.

(** The slots counted for [maxfds] include every slot that yields an
    entry. *)
Lemma handle_entries_bound (hdl : Z) (h : PAL_HANDLE) :
  (length (handle_entries hdl h) <= handle_maxfds h)%nat.
Proof.
  unfold handle_entries, handle_maxfds.
  induction (seq 0 MAX_FDS) as [| j l IH]; simpl; [lia |].
  rewrite length_app.
  destruct (poll_events_cases (flags h) j) as (_ & C2 & _).
  destruct (poll_events (flags h) j =? 0) eqn:Eev; simpl.
  - destruct (tst (flags h) (Z.lor (RFD j) (WFD j))); simpl; lia.
  - apply Z.eqb_neq in Eev. destruct (C2 Eev) as [-> _].
    destruct (negb _); simpl; lia.
Qed.

(** The arrays [fds] and [hdls] are allocated with [maxfds] elements, and
    the second loop never fills more than that. *)
Theorem poll_entries_fit (heap : gmap Z PAL_HANDLE) (handleArray : list Z) :
  (length (poll_entries heap handleArray)
   <= count_maxfds heap handleArray)%nat.
Proof.
  unfold poll_entries, count_maxfds.
  generalize (repeated handleArray). intros f. revert f.
  induction handleArray as [| hdl l IH]; intros f; [simpl; lia |].
  rewrite !imap_cons. simpl. rewrite length_app.
  specialize (IH (fun i => f (S i))). unfold compose.
  pose proof (handle_entries_bound hdl (heap !!! hdl)).
  destruct (hdl =? 0); [simpl; lia |].
  destruct (f 0%nat hdl); simpl; lia.
Qed.

(** Whatever was already picked, the last loop leaves the descriptors of
    every handle alone and never clears a flag. *)
Lemma record_revents_frame (l : list poll_entry) :
  forall (rs : list Z) (polled : Z) (heap : gmap Z PAL_HANDLE) (a : Z),
    fds ((record_revents l rs polled heap).2 !!! a) = fds (heap !!! a) /\
    (forall m, Z.land (flags (heap !!! a)) m = m ->
               Z.land (flags ((record_revents l rs polled heap).2 !!! a)) m
               = m).
Proof.
  induction l as [| e l IH]; intros rs polled heap a; simpl; [auto |].
  destruct (hd 0 rs =? 0); [apply IH |].
  destruct (negb (polled =? 0) && negb (pe_hdl e =? polled)); [apply IH |].
  destruct (find_slot (heap !!! pe_hdl e) (pe_fd e)) as [j |]; [| apply IH].
  destruct (IH (tl rs) (pe_hdl e)
              (<[pe_hdl e := mkHandle
                   (note_revents (hd 0 rs) j (flags (heap !!! pe_hdl e)))
                   (fds (heap !!! pe_hdl e))]> heap) a) as [I1 I2].
  destruct (decide (a = pe_hdl e)) as [-> | Hne].
  - rewrite lookup_total_insert_eq in I1, I2. simpl in I1, I2.
    split; [exact I1 |]. intros m Hm. apply I2. now apply note_revents_keeps.
  - rewrite lookup_total_insert_ne in I1, I2 by congruence. auto.
Qed.

(** When the last loop picks nothing, it changes nothing. *)
Lemma record_revents_none (l : list poll_entry) :
  forall (rs : list Z) (heap heap' : gmap Z PAL_HANDLE),
    (forall e, In e l -> pe_hdl e <> 0) ->
    record_revents l rs 0 heap = (0, heap') -> heap' = heap.
Proof.
  induction l as [| e l IH]; intros rs heap heap' Hnz Er; simpl in Er.
  - now injection Er as <-.
  - assert (Hl : forall e', In e' l -> pe_hdl e' <> 0)
      by (intros e' He'; apply Hnz; now right).
    destruct (hd 0 rs =? 0); [now apply (IH (tl rs)) |].
    simpl in Er. exfalso.
    assert (He : pe_hdl e <> 0) by (apply Hnz; now left).
    destruct (find_slot (heap !!! pe_hdl e) (pe_fd e)) as [j |].
    + destruct (record_revents_picked l (tl rs) (pe_hdl e)
                  (<[pe_hdl e := mkHandle
                       (note_revents (hd 0 rs) j (flags (heap !!! pe_hdl e)))
                       (fds (heap !!! pe_hdl e))]> heap) He) as [Hp _].
      rewrite Er in Hp. simpl in Hp. congruence.
    + destruct (record_revents_picked l (tl rs) (pe_hdl e) heap He) as [Hp _].
      rewrite Er in Hp. simpl in Hp. congruence.
Qed.

(** A wait, on any number of handles and whatever the poll answers, never
    changes the descriptors of a handle and never clears one of its flags,
    and a wait that does not return success leaves every handle as it
    was. *)
Theorem waitany_frame (count : Z) (handleArray : list Z) (timeout : Z)
  (heap : gmap Z PAL_HANDLE) (a : Z) :
  let res := _DkObjectsWaitAny count handleArray timeout heap in
  fds (res.2 !!! a) = fds (heap !!! a) /\
  (forall m, Z.land (flags (heap !!! a)) m = m ->
             Z.land (flags (res.2 !!! a)) m = m) /\
  (res.1.1 <> Ret 0 -> res.2 !!! a = heap !!! a).
Proof.
  intros res. subst res. unfold _DkObjectsWaitAny.
  destruct (count <=? 0); [simpl; auto |].
  destruct (count =? 1) eqn:E1.
  - set (hdl := nth 0 handleArray 0).
    assert (Hone : fds (_DkObjectWaitOne hdl (heap !!! hdl) timeout).2
                   = fds (heap !!! hdl) /\
                   (forall m, Z.land (flags (heap !!! hdl)) m = m ->
                      Z.land (flags (_DkObjectWaitOne hdl (heap !!! hdl)
                                       timeout).2) m = m) /\
                   ((_DkObjectWaitOne hdl (heap !!! hdl) timeout).1 <> Ret 0 ->
                    (_DkObjectWaitOne hdl (heap !!! hdl) timeout).2
                    = heap !!! hdl)).
    { unfold _DkObjectWaitOne.
      destruct (tst (flags (heap !!! hdl)) HAS_FDS).
      - destruct (length _ =? 0)%nat; [simpl; auto |].
        destruct (ppoll _ _) as [e | n rs]; [destruct (_ || _); simpl; auto |].
        destruct (n =? 0); simpl; [auto |].
        split; [reflexivity |]. split.
        + intros m Hm. now apply waitone_record_keeps.
        + intros Hc. now contradiction Hc.
      - destruct (ops_wait hdl); simpl; auto. }
    destruct (_DkObjectWaitOne hdl (heap !!! hdl) timeout) as [r h'].
    simpl in *. destruct Hone as (O1 & O2 & O3).
    destruct (decide (a = hdl)) as [-> | Hne].
    + rewrite lookup_total_insert_eq. auto.
    + rewrite lookup_total_insert_ne by congruence. auto.
  - destruct (negb (all_have_fds heap _)); [simpl; auto |].
    destruct (length _ =? 0)%nat; [simpl; auto |].
    destruct (ppoll _ _) as [e | n rs]; [destruct (_ || _); simpl; auto |].
    destruct (n =? 0); [simpl; auto |].
    set (l := poll_entries heap (take (Z.to_nat count) handleArray)).
    destruct (record_revents_frame l rs 0 heap a) as [F1 F2].
    pose proof (record_revents_none l rs heap) as Hnone.
    destruct (record_revents l rs 0 heap) as [polled heap'] eqn:Er.
    simpl in *. split; [exact F1 |]. split; [exact F2 |].
    intros Hfail. destruct (polled =? 0) eqn:Ep; [| now contradiction Hfail].
    apply Z.eqb_eq in Ep. subst polled.
    rewrite (Hnone heap'); [reflexivity | | reflexivity].
    intros e0 He0. apply (poll_entries_hdl heap (take (Z.to_nat count) handleArray)).
    now apply list_elem_of_In.
Qed.

(** The entries of an array with one more handle at its end. *)
Lemma poll_entries_snoc (heap : gmap Z PAL_HANDLE) (arr : list Z) (hdl : Z) :
  poll_entries heap (arr ++ [hdl])
  = poll_entries heap arr
    ++ (if hdl =? 0 then []
        else if existsb (Z.eqb hdl) arr then []
        else handle_entries hdl (heap !!! hdl)).
Proof.
  unfold poll_entries. rewrite imap_app, concat_app. f_equal.
  - f_equal. apply imap_ext. intros i x Hi. simpl.
    unfold repeated. rewrite take_app_le; [reflexivity |].
    apply lookup_lt_Some in Hi. lia.
  - simpl. rewrite app_nil_r. unfold repeated.
    rewrite Nat.add_0_r, take_app_length. reflexivity.
Qed.

Lemma handle_entries_hdl (hdl : Z) (h : PAL_HANDLE) (e : poll_entry) :
  In e (handle_entries hdl h) -> pe_hdl e = hdl.
Proof.
  unfold handle_entries. intros Hin.
  apply in_flat_map in Hin as (j & _ & Hin).
  destruct (_ && _); [| inversion Hin]. now destruct Hin as [<- | []].
Qed.

Lemma filter_all (A : Type) (f : A -> bool) (l : list A) :
  (forall x, In x l -> f x = true) -> List.filter f l = l.
Proof.
  induction l as [| x l IH]; intros Hf; simpl; [reflexivity |].
  rewrite (Hf x) by now left. f_equal. apply IH. intros y Hy. apply Hf.
  now right.
Qed.

Lemma filter_none (A : Type) (f : A -> bool) (l : list A) :
  (forall x, In x l -> f x = false) -> List.filter f l = [].
Proof.
  induction l as [| x l IH]; intros Hf; simpl; [reflexivity |].
  rewrite (Hf x) by now left. apply IH. intros y Hy. apply Hf. now right.
Qed.

(** Repeated entries of the handle array are eliminated: however often and
    wherever a handle is listed, the poll set holds the entries of its
    slots once. *)
Theorem poll_entries_once (heap : gmap Z PAL_HANDLE) (handleArray : list Z)
  (hdl : Z) :
  hdl <> 0 ->
  In hdl handleArray ->
  List.filter (fun e => pe_hdl e =? hdl) (poll_entries heap handleArray)
  = handle_entries hdl (heap !!! hdl).
Proof.
  intros Hnz. induction handleArray as [| x l IH] using rev_ind;
    intros Hin; [inversion Hin |].
  rewrite poll_entries_snoc, List.filter_app.
  destruct (in_dec Z.eq_dec hdl l) as [Hl | Hl].
  - rewrite (IH Hl).
    rewrite (filter_none _ _ (if x =? 0 then [] else _)); [apply app_nil_r |].
    intros e He. destruct (x =? 0); [inversion He |].
    destruct (existsb (Z.eqb x) l) eqn:Ex; [inversion He |].
    apply handle_entries_hdl in He. rewrite He.
    apply Z.eqb_neq. intros ->.
    assert (Hex : existsb (Z.eqb hdl) l = true)
      by (apply existsb_exists; exists hdl; split; [exact Hl | apply Z.eqb_refl]).
    congruence.
  - apply in_app_or in Hin as [Hin | [-> | []]]; [contradiction |].
    rewrite filter_none.
    + simpl. destruct (hdl =? 0) eqn:E0; [lia |].
      destruct (existsb (Z.eqb hdl) l) eqn:Ex.
      * apply existsb_exists in Ex as (y & Hy & Heq).
        apply Z.eqb_eq in Heq. subst y. contradiction.
      * apply filter_all. intros e He. apply handle_entries_hdl in He.
        rewrite He. apply Z.eqb_refl.
    + intros e He. apply poll_entries_origin in He as (_ & Hmem & _).
      apply Z.eqb_neq. intros Heq. rewrite Heq in Hmem. contradiction.
Qed.

(** A non-negative timeout in microseconds becomes a normalised
    [timespec] of the same length; a negative one means no timeout. *)
Theorem timeout_ts_normal (timeout : Z) :
  (timeout < 0 -> timeout_ts timeout = None) /\
  (0 <= timeout ->
   exists sec nsec,
     timeout_ts timeout = Some (sec, nsec) /\
     0 <= sec /\ 0 <= nsec < 1000000000 /\
     nsec mod 1000 = 0 /\
     sec * 1000000 + nsec / 1000 = timeout).
Proof.
  unfold timeout_ts. split; intros Ht.
  - destruct (0 <=? timeout) eqn:E; [lia | reflexivity].
  - destruct (0 <=? timeout) eqn:E; [| lia].
    eexists. eexists. split; [reflexivity |].
    pose proof (Z.div_mod timeout 1000000 ltac:(lia)) as Hdm.
    pose proof (Z.mod_pos_bound timeout 1000000 ltac:(lia)) as Hb.
    assert (Hs : 0 <= timeout / 1000000) by (apply Z.div_pos; lia).
    replace (timeout - timeout / 1000000 * 1000000)
      with (timeout mod 1000000) by lia.
    split; [exact Hs |]. split; [lia |].
    split; [apply Z.mod_mul; lia |].
    rewrite Z.div_mul by lia. lia.
Qed.

End ObjectMoreFacts.

Lemma poll_entries_lawful_witness :
  Object.pe_fd (Object.mkEntry 3 25 100)
  <> Object.PAL_IDX_POISON (Host := sample_object_host).
Proof.
  apply (poll_entries_lawful (H := sample_object_host) sample_handles
           [100; 200] (Object.mkEntry 3 25 100)).
  vm_compute. auto.
Defined.

Lemma poll_entries_once_witness :
  List.filter (fun e => Object.pe_hdl e =? 100)
    (Object.poll_entries (H := sample_object_host) sample_handles
       [100; 200; 100])
  = [Object.mkEntry 3 25 100].
Proof.
  rewrite (poll_entries_once (H := sample_object_host) sample_handles
             [100; 200; 100] 100);
    [vm_compute; reflexivity | lia | simpl; auto].
Defined.

Lemma timeout_ts_normal_witness :
  exists sec nsec,
    Object.timeout_ts 2500000 = Some (sec, nsec) /\
    sec * 1000000 + nsec / 1000 = 2500000.
Proof.
  destruct (timeout_ts_normal 2500000) as [_ Hpos].
  destruct (Hpos ltac:(lia)) as (sec & nsec & Ht & _ & _ & _ & Hsum).
  exists sec, nsec. split; [exact Ht | exact Hsum].
Defined.

(** ** Delayed execution *)

Section ThreadingFacts.

Import Threading.
Context `{Host}.

(** A delay that completes returns 0 and leaves the duration as it was.  A
    delay that is interrupted returns the interrupted error; when the time
    the system reports as remaining is a normalised [timespec] of at most the
    requested length, the duration is replaced by the microseconds that were
    not slept off the request, a value between 0 and the request, without
    wrap-around. *)
Theorem delay_execution_duration (duration : Z) :
  0 <= duration < 2 ^ 64 ->
  let request := (duration / 1000000,
                  (duration - duration / 1000000 * 1000000) * 1000) in
  0 <= request.2 < 1000000000 /\
  request.1 * 1000000 + request.2 / 1000 = duration /\
  (nanosleep request = None ->
     _DkThreadDelayExecution duration = (Ret 0, duration)) /\
  (forall tv_sec tv_nsec,
     nanosleep request = Some (tv_sec, tv_nsec) ->
     0 <= tv_sec -> 0 <= tv_nsec < 1000000000 ->
     tv_sec * 1000000000 + tv_nsec <= duration * 1000 ->
     let remaining := tv_sec * 1000000 + tv_nsec / 1000 in
     _DkThreadDelayExecution duration
     = (Fail PAL_ERROR_INTERRUPTED, duration - remaining) /\
     0 <= duration - remaining <= duration).
Proof.
  intros Hd request. subst request. simpl fst. simpl snd.
  pose proof (Z.div_mod duration 1000000 ltac:(lia)) as Hdm.
  pose proof (Z.mod_pos_bound duration 1000000 ltac:(lia)) as Hb.
  replace (duration - duration / 1000000 * 1000000)
    with (duration mod 1000000) by lia.
  split; [lia |]. split; [rewrite Z.div_mul by lia; lia |].
  unfold _DkThreadDelayExecution.
  replace (duration - duration / 1000000 * 1000000)
    with (duration mod 1000000) by lia.
  split; [intros ->; reflexivity |].
  intros tv_sec tv_nsec Hns Hs Hn Hle. cbv zeta. rewrite Hns.
  rewrite Z.quot_div_nonneg by lia.
  assert (Hq : 0 <= tv_nsec / 1000) by (apply Z.div_pos; lia).
  assert (Hrem : tv_sec * 1000000 + tv_nsec / 1000 <= duration).
  { pose proof (Z.div_mod tv_nsec 1000 ltac:(lia)) as Hn1.
    pose proof (Z.mod_pos_bound tv_nsec 1000 ltac:(lia)) as Hn2. lia. }
  unfold to_ulong.
  rewrite (Z.mod_small (tv_sec * 1000000 + tv_nsec / 1000)) by lia.
  rewrite Z.mod_small by lia.
  split; [reflexivity | lia].
Qed.

End ThreadingFacts.

Lemma delay_execution_duration_witness :
  Threading._DkThreadDelayExecution (H := sample_thread_host) 2500000
  = (Fail PAL_ERROR_INTERRUPTED, 1300000).
Proof.
  destruct (delay_execution_duration (H := sample_thread_host) 2500000
              ltac:(lia)) as (_ & _ & _ & Hint).
  destruct (Hint 1 200000000 ltac:(reflexivity) ltac:(lia) ltac:(lia)
              ltac:(lia)) as [Hrun _].
  exact Hrun.
Defined.

(** ** References and lookup *)

Section ReferenceFacts.

Import Ipc.
Context `{Env}.

Lemma port_at_lookup (st : ipc_state) (p : Z) (o : shim_ipc_port) :
  ports st !! p = Some o -> port_at st p = o.
Proof. intros Hp. unfold port_at. now apply lookup_total_correct. Qed.

Lemma port_at_emit (e : event) (st : ipc_state) (p : Z) :
  port_at (emit e st) p = port_at st p.
Proof. reflexivity. Qed.

(** One release: silent while references remain, and closing the handle and
    freeing the port when the last one goes. *)
Lemma put_ipc_port_step (p : Z) (st : ipc_state) :
  let o := port_at st p in
  let st' := __put_ipc_port p st in
  ref_count (port_at st' p) = ref_count o - 1 /\
  (ref_count o <> 1 ->
     trace st' = trace st /\ pal_handle (port_at st' p) = pal_handle o) /\
  (ref_count o = 1 ->
     pal_handle (port_at st' p) = 0 /\
     trace st' = trace st
                 ++ (if pal_handle o =? 0 then []
                     else [EvObjectClose (pal_handle o)])
                 ++ [EvFree p]).
Proof.
  intros o st'. subst st'. unfold __put_ipc_port.
  rewrite port_at_upd_port_eq. simpl. fold o.
  destruct (ref_count o - 1 =? 0) eqn:E.
  - apply Z.eqb_eq in E.
    destruct (pal_handle o =? 0) eqn:Eh; simpl.
    + apply Z.eqb_eq in Eh.
      repeat (rewrite port_at_emit || rewrite port_at_upd_port_eq).
      simpl. fold o.
      split; [reflexivity |]. split; [intros; lia |].
      intros _. split; [lia | reflexivity].
    + repeat (rewrite port_at_emit || rewrite port_at_upd_port_eq).
      simpl. fold o.
      split; [reflexivity |]. split; [intros; lia |].
      intros _. split; [reflexivity |]. now rewrite <- app_assoc.
  - apply Z.eqb_neq in E. rewrite ?port_at_upd_port_eq. simpl. fold o.
    split; [reflexivity |]. split; [auto | intros; lia].
Qed.

(** A port with [n] references and a handle: [n] releases close the handle
    once, at the last release, and free the port; no earlier release calls
    anything. *)
Theorem put_ipc_port_last_closes (n : nat) (p : Z) (st : ipc_state) :
  ref_count (port_at st p) = Z.of_nat (S n) ->
  pal_handle (port_at st p) <> 0 ->
  (forall k, (k <= n)%nat ->
     trace (Nat.iter k (__put_ipc_port p) st) = trace st /\
     pal_handle (port_at (Nat.iter k (__put_ipc_port p) st) p)
     = pal_handle (port_at st p)) /\
  trace (Nat.iter (S n) (__put_ipc_port p) st)
  = trace st ++ [EvObjectClose (pal_handle (port_at st p)); EvFree p] /\
  pal_handle (port_at (Nat.iter (S n) (__put_ipc_port p) st) p) = 0 /\
  ref_count (port_at (Nat.iter (S n) (__put_ipc_port p) st) p) = 0.
Proof.
  intros Hr Hh.
  assert (Hk : forall k, (k <= n)%nat ->
             trace (Nat.iter k (__put_ipc_port p) st) = trace st /\
             pal_handle (port_at (Nat.iter k (__put_ipc_port p) st) p)
             = pal_handle (port_at st p) /\
             ref_count (port_at (Nat.iter k (__put_ipc_port p) st) p)
             = Z.of_nat (S n) - Z.of_nat k).
  { induction k as [| k IH]; intros Hle; simpl.
    - repeat split; lia.
    - destruct (IH ltac:(lia)) as (T & P & R).
      destruct (put_ipc_port_step p (Nat.iter k (__put_ipc_port p) st))
        as (S1 & S2 & _).
      destruct (S2 ltac:(lia)) as [S2a S2b].
      rewrite S1, S2a, S2b, T, P, R. repeat split; lia. }
  split; [intros k Hle; destruct (Hk k Hle) as (T & P & _); auto |].
  destruct (Hk n ltac:(lia)) as (T & P & R).
  destruct (put_ipc_port_step p (Nat.iter n (__put_ipc_port p) st))
    as (S1 & _ & S3).
  destruct (S3 ltac:(lia)) as [S3a S3b].
  simpl Nat.iter. rewrite S1, S3a, S3b, T, P, R.
  destruct (pal_handle (port_at st p) =? 0) eqn:E; [lia |].
  repeat split; lia.
Qed.

(** Taking a reference and giving it back changes nothing. *)
Theorem get_put_neutral (p : Z) (st : ipc_state) (o : shim_ipc_port) :
  ports st !! p = Some o ->
  ref_count o <> 0 ->
  put_ipc_port p (get_ipc_port p st) = st.
Proof.
  intros Hp Hr. unfold put_ipc_port, get_ipc_port, __put_ipc_port, __get_ipc_port.
  rewrite !port_at_upd_port_eq. simpl.
  rewrite (port_at_lookup st p o Hp).
  destruct (ref_count o + 1 - 1 =? 0) eqn:E; [lia |].
  unfold upd_port, set_ports. destruct st as [m l pool hs ht hu bp str e tr].
  simpl in *. f_equal. rewrite insert_insert_eq. apply insert_id.
  rewrite Hp. f_equal. unfold port_at. simpl.
  rewrite lookup_total_insert_eq.
  rewrite (lookup_total_correct m p o Hp).
  destruct o. unfold with_ref_count. simpl. f_equal. lia.
Qed.

(** A lookup leaves both collections and the trace alone.  A hit is a port
    of the peer's bucket with that peer id whose roles meet the mask (any
    port of the peer for mask 0), and it gains exactly one reference; on a
    miss the state is unchanged and no port of the bucket would have
    matched. *)
Theorem lookup_ipc_port_result (vmid_ type_ : Z) (st : ipc_state) :
  let r := __lookup_ipc_port vmid_ type_ st in
  pobj_list r.2 = pobj_list st /\ ipc_port_pool r.2 = ipc_port_pool st /\
  trace r.2 = trace st /\
  (forall q, q <> r.1 -> port_at r.2 q = port_at st q) /\
  (r.1 <> 0 ->
     In r.1 (bucket_of st vmid_) /\
     vmid (info (port_at st r.1)) = vmid_ /\
     (type_ = 0 \/ tst (type (info (port_at st r.1))) type_ = true) /\
     ref_count (port_at r.2 r.1) = ref_count (port_at st r.1) + 1) /\
  (r.1 = 0 -> ~ In 0 (bucket_of st vmid_) ->
     r.2 = st /\
     forall q, In q (bucket_of st vmid_) ->
       vmid (info (port_at st q)) <> vmid_ \/
       (type_ <> 0 /\ tst (type (info (port_at st q))) type_ = false)).
Proof.
  intros r. subst r. unfold __lookup_ipc_port.
  destruct (List.find _ (bucket_of st vmid_)) as [tmp |] eqn:Ef; simpl.
  - apply find_some in Ef as [Hin Hm]. apply andb_prop in Hm as [Hv Ht].
    apply Z.eqb_eq in Hv.
    split; [reflexivity |]. split; [reflexivity |]. split; [reflexivity |].
    split; [intros q Hq; unfold __get_ipc_port; now rewrite port_at_upd_port_ne |].
    split.
    + intros _. split; [exact Hin |]. split; [exact Hv |]. split.
      * apply orb_prop in Ht as [Ht | Ht]; [left; lia | now right].
      * unfold __get_ipc_port. now rewrite port_at_upd_port_eq.
    + intros -> Hnot. contradiction.
  - split; [reflexivity |]. split; [reflexivity |]. split; [reflexivity |].
    split; [auto |]. split; [intros Hc; now contradiction Hc |].
    intros _ _. split; [reflexivity |]. intros q Hq.
    pose proof (find_none _ _ Ef q Hq) as Hm. simpl in Hm.
    apply andb_false_iff in Hm as [Hv | Ht].
    + left. lia.
    + right. apply orb_false_elim in Ht as [Ht0 Ht1]. split; [lia | exact Ht1].
Qed.

End ReferenceFacts.

Lemma put_ipc_port_last_closes_witness :
  Ipc.trace (Nat.iter 2 (Ipc.__put_ipc_port 2000) sample_state)
  = [Ipc.EvObjectClose 12; Ipc.EvFree 2000].
Proof.
  destruct (put_ipc_port_last_closes 1 2000 sample_state
              ltac:(reflexivity) ltac:(vm_compute; discriminate))
    as (_ & Hlast & _).
  exact Hlast.
Defined.

Lemma get_put_neutral_witness :
  Ipc.put_ipc_port 1000 (Ipc.get_ipc_port 1000 sample_state) = sample_state.
Proof.
  apply (get_put_neutral 1000 sample_state
           (sample_port 11 7 (2 + 32) [4001; 0; 0] 3));
    [vm_compute; reflexivity | vm_compute; discriminate].
Defined.

Lemma lookup_ipc_port_result_witness :
  Ipc.ref_count
    (Ipc.port_at (Ipc.__lookup_ipc_port 8 0 sample_state).2
       (Ipc.__lookup_ipc_port 8 0 sample_state).1) = 3.
Proof.
  destruct (lookup_ipc_port_result 8 0 sample_state)
    as (_ & _ & _ & _ & Hhit & _).
  destruct (Hhit ltac:(vm_compute; discriminate)) as (_ & _ & _ & Hr).
  rewrite Hr. vm_compute. reflexivity.
Defined.

(** ** Adding, finding and evicting ports *)

Section RegistryMoreFacts.

Import Ipc.
Context `{Env}.

Lemma port_at_list_add (p q : Z) (st : ipc_state) :
  port_at (list_add p st) q = port_at st q.
Proof. reflexivity. Qed.

Lemma port_at_list_add_tail (p q : Z) (st : ipc_state) :
  port_at (list_add_tail p st) q = port_at st q.
Proof. reflexivity. Qed.

Lemma port_at_list_del_init (p q : Z) (st : ipc_state) :
  port_at (list_del_init p st) q = port_at st q.
Proof. reflexivity. Qed.

Lemma port_at_hlist_add_head (p b q : Z) (st : ipc_state) :
  port_at (hlist_add_head p b st) q = port_at st q.
Proof. reflexivity. Qed.

Lemma port_at_get_eq (p : Z) (st : ipc_state) :
  port_at (__get_ipc_port p st) p
  = with_ref_count (ref_count (port_at st p) + 1) (port_at st p).
Proof. unfold __get_ipc_port. now rewrite port_at_upd_port_eq. Qed.

Lemma port_at_get_ne (p q : Z) (st : ipc_state) :
  q <> p -> port_at (__get_ipc_port p st) q = port_at st q.
Proof. intros Hne. unfold __get_ipc_port. now rewrite port_at_upd_port_ne. Qed.

Lemma memb_cons_eq (p : Z) (l : list Z) : memb p (p :: l) = true.
Proof. unfold memb. simpl. now rewrite Z.eqb_refl. Qed.

Lemma memb_snoc_eq (p : Z) (l : list Z) : memb p (l ++ [p]) = true.
Proof.
  unfold memb. rewrite existsb_app. simpl. rewrite Z.eqb_refl.
  now rewrite orb_true_r.
Qed.

Lemma land_lor_self (a b : Z) : Z.land (Z.lor a b) b = b.
Proof.
  apply Z.bits_inj'. intros n Hn. rewrite Z.land_spec, Z.lor_spec.
  destruct (Z.testbit a n), (Z.testbit b n); reflexivity.
Qed.

Lemma remove_addr_cons_eq (p : Z) (l : list Z) :
  remove_addr p (p :: l) = remove_addr p l.
Proof. unfold remove_addr. simpl. now rewrite Z.eqb_refl. Qed.

Lemma remove_addr_snoc_eq (p : Z) (l : list Z) :
  remove_addr p (l ++ [p]) = remove_addr p l.
Proof.
  unfold remove_addr. rewrite List.filter_app. simpl.
  now rewrite Z.eqb_refl, app_nil_r.
Qed.

Lemma remove_addr_twice (p : Z) (l : list Z) :
  remove_addr p (remove_addr p l) = remove_addr p l.
Proof.
  apply remove_addr_absent. apply memb_remove_addr.
Qed.

(** The effect of [__add_ipc_port] on the port, the two collections and the
    other ports. *)
Lemma add_ipc_port_cases (p vmid_ type_ fini_ : Z) (st st' : ipc_state)
  (b : bool) :
  __add_ipc_port p vmid_ type_ fini_ st = Done b st' ->
  let o := port_at st p in
  let o' := port_at st' p in
  vmid (info o') = added_vmid vmid_ o /\
  type (info o') = added_type type_ o /\
  Z.land (type (info o')) type_ = type_ /\
  ipc_port_pool st'
  = (if negb (added_vmid vmid_ o =? 0) && hlist_unhashed st p
     then alter (cons p) (Z.to_nat (PID_HASH vmid_)) (ipc_port_pool st)
     else ipc_port_pool st) /\
  b = negb (tst (type (info o)) IPC_PORT_IFPOLL) && tst type_ IPC_PORT_IFPOLL /\
  memb p (pobj_list st') = true /\
  (b = true -> recent o' = true) /\
  (b = true -> recent o = false ->
     pobj_list st' = p :: remove_addr p (pobj_list st)) /\
  (b = false ->
     pobj_list st' = (if list_empty st p then pobj_list st ++ [p]
                      else pobj_list st)) /\
  (forall q, q <> p -> port_at st' q = port_at st q) /\
  ref_count o'
  = ref_count o
    + (if negb (added_vmid vmid_ o =? 0) && hlist_unhashed st p then 1 else 0)
    + (if list_empty st p then 1 else 0) /\
  pal_handle o' = pal_handle o /\
  remove_addr p (pobj_list st') = remove_addr p (pobj_list st).
Proof.
  unfold __add_ipc_port.
  destruct (vmid_ =? cur_process_vmid); [discriminate |].
  set (st1 := if negb (vmid_ =? 0) && (vmid (info (port_at st p)) =? 0)
              then upd_port p (fun o => with_update true (with_vmid vmid_ o)) st
              else st).
  assert (F1 : vmid (info (port_at st1 p)) = added_vmid vmid_ (port_at st p) /\
               type (info (port_at st1 p)) = type (info (port_at st p)) /\
               recent (port_at st1 p) = recent (port_at st p) /\
               pobj_list st1 = pobj_list st /\
               ipc_port_pool st1 = ipc_port_pool st /\
               (forall q, q <> p -> port_at st1 q = port_at st q) /\
               ref_count (port_at st1 p) = ref_count (port_at st p) /\
               pal_handle (port_at st1 p) = pal_handle (port_at st p)).
  { subst st1. unfold added_vmid.
    destruct (negb (vmid_ =? 0) && (vmid (info (port_at st p)) =? 0)).
    - rewrite port_at_upd_port_eq. simpl. repeat split.
      intros q Hq. now rewrite port_at_upd_port_ne.
    - repeat split. }
  clearbody st1. destruct F1 as (V1 & T1 & R1 & L1 & P1 & Q1 & C1 & H1).
  set (st2 := if negb (vmid (info (port_at st1 p)) =? 0) && hlist_unhashed st1 p
              then hlist_add_head p (PID_HASH vmid_) (__get_ipc_port p st1)
              else st1).
  assert (Hh : hlist_unhashed st1 p = hlist_unhashed st p)
    by (unfold hlist_unhashed; now rewrite P1).
  assert (F2 : vmid (info (port_at st2 p)) = added_vmid vmid_ (port_at st p) /\
               type (info (port_at st2 p)) = type (info (port_at st p)) /\
               recent (port_at st2 p) = recent (port_at st p) /\
               pobj_list st2 = pobj_list st /\
               ipc_port_pool st2
               = (if negb (added_vmid vmid_ (port_at st p) =? 0)
                     && hlist_unhashed st p
                  then alter (cons p) (Z.to_nat (PID_HASH vmid_))
                         (ipc_port_pool st)
                  else ipc_port_pool st) /\
               (forall q, q <> p -> port_at st2 q = port_at st q) /\
               ref_count (port_at st2 p)
               = ref_count (port_at st p)
                 + (if negb (added_vmid vmid_ (port_at st p) =? 0)
                       && hlist_unhashed st p then 1 else 0) /\
               pal_handle (port_at st2 p) = pal_handle (port_at st p)).
  { subst st2. rewrite V1, Hh.
    destruct (negb (added_vmid vmid_ (port_at st p) =? 0) && hlist_unhashed st p).
    - rewrite port_at_hlist_add_head, port_at_get_eq. simpl.
      unfold hlist_add_head. simpl. rewrite P1, C1.
      repeat split; auto.
      intros q Hq.
      change (port_at (__get_ipc_port p st1) q = port_at st q).
      rewrite port_at_get_ne by exact Hq. now apply Q1.
    - repeat split; auto. lia. }
  clearbody st2. clear V1 T1 R1 L1 P1 Q1 C1 H1 Hh st1.
  destruct F2 as (V2 & T2 & R2 & L2 & P2 & Q2 & C2 & H2).
  set (st3 := if negb (Z.land (type (info (port_at st2 p))) type_ =? type_)
              then upd_port p
                     (fun o => with_update true
                                 (with_type (Z.lor (type (info o)) type_) o))
                     st2
              else st2).
  assert (F3 : vmid (info (port_at st3 p)) = added_vmid vmid_ (port_at st p) /\
               type (info (port_at st3 p)) = added_type type_ (port_at st p) /\
               recent (port_at st3 p) = recent (port_at st p) /\
               pobj_list st3 = pobj_list st /\
               ipc_port_pool st3 = ipc_port_pool st2 /\
               (forall q, q <> p -> port_at st3 q = port_at st q) /\
               ref_count (port_at st3 p) = ref_count (port_at st2 p) /\
               pal_handle (port_at st3 p) = pal_handle (port_at st p)).
  { subst st3. unfold added_type. rewrite T2.
    destruct (negb (Z.land (type (info (port_at st p))) type_ =? type_)).
    - rewrite port_at_upd_port_eq. simpl. rewrite T2.
      repeat split; auto.
      intros q Hq. rewrite port_at_upd_port_ne by exact Hq. now apply Q2.
    - repeat split; auto. }
  rewrite T2. clearbody st3. rewrite <- P2, <- C2.
  clear V2 R2 L2 Q2 P2 C2 H2.
  destruct F3 as (V3 & T3 & R3 & L3 & P3 & Q3 & C3 & H3).
  rewrite <- P3, <- C3.
  assert (Hincl : Z.land (added_type type_ (port_at st p)) type_ = type_).
  { unfold added_type.
    destruct (Z.land (type (info (port_at st p))) type_ =? type_) eqn:E; simpl.
    - now apply Z.eqb_eq.
    - apply land_lor_self. }
  set (installed :=
         if negb (fini_ =? 0) && tst type_ (Z.lnot IPC_PORT_IFPOLL)
         then
           if (fini_scan (fini (port_at st3 p)) fini_ MAX_IPC_PORT_FINI_CB 0
               <? MAX_IPC_PORT_FINI_CB)%nat
           then Some (upd_port p
                        (fun o =>
                           with_fini
                             (<[fini_scan (fini (port_at st3 p)) fini_
                                  MAX_IPC_PORT_FINI_CB 0 := fini_]> (fini o)) o)
                        st3)
           else None
         else Some st3).
  assert (F4 : forall st4, installed = Some st4 ->
               info (port_at st4 p) = info (port_at st3 p) /\
               recent (port_at st4 p) = recent (port_at st3 p) /\
               pobj_list st4 = pobj_list st3 /\
               ipc_port_pool st4 = ipc_port_pool st3 /\
               (forall q, q <> p -> port_at st4 q = port_at st3 q) /\
               ref_count (port_at st4 p) = ref_count (port_at st3 p) /\
               pal_handle (port_at st4 p) = pal_handle (port_at st3 p)).
  { intros st4 Hi. subst installed.
    destruct (negb (fini_ =? 0) && tst type_ (Z.lnot IPC_PORT_IFPOLL)).
    - destruct (_ <? _)%nat; [| discriminate]. injection Hi as <-.
      rewrite port_at_upd_port_eq. simpl. repeat split.
      intros q Hq. now rewrite port_at_upd_port_ne.
    - injection Hi as <-. repeat split. }
  clearbody installed.
  destruct installed as [st4 |]; [| discriminate].
  destruct (F4 st4 eq_refl) as (I4 & R4 & L4 & P4 & Q4 & C4 & H4). clear F4.
  assert (Hle : list_empty st4 p = list_empty st p)
    by (unfold list_empty; now rewrite L4, L3).
  rewrite Hle, R4, R3.
  intros Hrun. cbv zeta.
  assert (Hq : forall st5, (forall q, q <> p -> port_at st5 q = port_at st4 q) ->
               forall q, q <> p -> port_at st5 q = port_at st q).
  { intros st5 H5 q Hne. rewrite H5, Q4 by exact Hne. now apply Q3. }
  destruct (negb (tst (type (info (port_at st p))) IPC_PORT_IFPOLL)
            && tst type_ IPC_PORT_IFPOLL).
  - destruct (list_empty st p) eqn:El.
    + injection Hrun as <- <-.
      rewrite port_at_upd_port_eq, port_at_list_add, port_at_get_eq.
      unfold list_empty in El. apply negb_true_iff in El.
      cbn [info recent with_recent with_ref_count pobj_list ipc_port_pool
           upd_port list_add __get_ipc_port set_ports set_pobj_list
           ref_count pal_handle].
      rewrite I4, V3, T3, L4, L3, P4, C4, H4, H3, memb_cons_eq,
        remove_addr_cons_eq, (remove_addr_absent p _ El).
      repeat match goal with |- _ /\ _ => split end;
        try reflexivity; try exact Hincl; try discriminate;
        try (intros; reflexivity).
      apply Hq. intros q Hne.
      now rewrite port_at_upd_port_ne, port_at_list_add, port_at_get_ne.
    + destruct (negb (recent (port_at st p))) eqn:Er.
      * injection Hrun as <- <-.
        rewrite port_at_upd_port_eq, port_at_list_add, port_at_list_del_init.
        cbn [info recent with_recent pobj_list ipc_port_pool
             upd_port list_add list_del_init set_ports set_pobj_list
             ref_count pal_handle].
        rewrite I4, V3, T3, L4, L3, P4, C4, H4, H3, memb_cons_eq, Z.add_0_r,
          remove_addr_cons_eq, remove_addr_twice.
        repeat match goal with |- _ /\ _ => split end;
          try reflexivity; try exact Hincl; try discriminate;
          try (intros; reflexivity).
        apply Hq. intros q Hne.
        now rewrite port_at_upd_port_ne, port_at_list_add,
          port_at_list_del_init.
      * injection Hrun as <- <-.
        rewrite I4, V3, T3, L4, L3, P4, R4, R3, C4, H4, H3, Z.add_0_r.
        apply negb_false_iff in Er. apply negb_false_iff in El.
        repeat match goal with |- _ /\ _ => split end;
          try reflexivity; try exact Hincl; try discriminate;
          try (intros; congruence).
        apply Hq. reflexivity.
  - destruct (list_empty st p) eqn:El.
    + injection Hrun as <- <-.
      rewrite port_at_list_add_tail, port_at_get_eq.
      cbn [info recent with_ref_count pobj_list ipc_port_pool
           upd_port list_add_tail __get_ipc_port set_ports set_pobj_list
           ref_count pal_handle].
      rewrite I4, V3, T3, L4, L3, P4, C4, H4, H3, memb_snoc_eq,
        remove_addr_snoc_eq.
      repeat match goal with |- _ /\ _ => split end;
        try reflexivity; try exact Hincl; try discriminate;
        try (intros; reflexivity).
      apply Hq. intros q Hne.
      now rewrite port_at_list_add_tail, port_at_get_ne.
    + injection Hrun as <- <-.
      rewrite I4, V3, T3, L4, L3, P4, C4, H4, H3, Z.add_0_r.
      unfold list_empty in El. apply negb_false_iff in El.
      repeat match goal with |- _ /\ _ => split end;
        try reflexivity; try exact Hincl; try discriminate;
        try (intros; congruence).
      apply Hq. reflexivity.
Qed.

(** What adding a port leaves behind, whenever it returns: the port has a
    peer id if one was given or known, is in the bucket of the given id if
    it has a peer id and was in no bucket, carries the requested roles
    besides its old ones, and is on the insertion list, at its head and
    marked recent when IFPOLL was newly requested; the helper must be
    restarted exactly in that case, and no other port is touched. *)
Theorem add_ipc_port_effect (p vmid_ type_ fini_ : Z) (st st' : ipc_state)
  (b : bool) :
  __add_ipc_port p vmid_ type_ fini_ st = Done b st' ->
  let o := port_at st p in
  let o' := port_at st' p in
  vmid (info o') = added_vmid vmid_ o /\
  type (info o') = added_type type_ o /\
  Z.land (type (info o')) type_ = type_ /\
  ipc_port_pool st'
  = (if negb (added_vmid vmid_ o =? 0) && hlist_unhashed st p
     then alter (cons p) (Z.to_nat (PID_HASH vmid_)) (ipc_port_pool st)
     else ipc_port_pool st) /\
  b = negb (tst (type (info o)) IPC_PORT_IFPOLL) && tst type_ IPC_PORT_IFPOLL /\
  memb p (pobj_list st') = true /\
  (b = true -> recent o' = true) /\
  (b = true -> recent o = false ->
     pobj_list st' = p :: remove_addr p (pobj_list st)) /\
  (b = false ->
     pobj_list st' = (if list_empty st p then pobj_list st ++ [p]
                      else pobj_list st)) /\
  (forall q, q <> p -> port_at st' q = port_at st q).
Proof.
  intros Hrun.
  destruct (add_ipc_port_cases _ _ _ _ _ _ _ Hrun)
    as (A1 & A2 & A3 & A4 & A5 & A6 & A7 & A8 & A9 & A10 & _).
  cbv zeta. repeat split; assumption.
Qed.



Lemma unhashed_alter (p : Z) (pool : list (list Z)) (i : nat) :
  (i < length pool)%nat ->
  forallb (fun b => negb (memb p b)) (alter (cons p) i pool) = false.
Proof.
  revert i. induction pool as [| bk pool IH]; intros i Hi; simpl in Hi;
    [lia |].
  destruct i as [| i].
  - simpl. unfold memb. simpl. now rewrite Z.eqb_refl.
  - change (negb (memb p bk)
            && forallb (fun b => negb (memb p b)) (alter (cons p) i pool)
            = false).
    rewrite IH by lia. apply andb_false_r.
Qed.

Lemma remove_addr_alter (p : Z) (pool : list (list Z)) (i : nat) :
  map (remove_addr p) (alter (cons p) i pool) = map (remove_addr p) pool.
Proof.
  revert i. induction pool as [| bk pool IH]; intros i; [reflexivity |].
  destruct i as [| i].
  - change (remove_addr p (p :: bk) :: map (remove_addr p) pool
            = remove_addr p bk :: map (remove_addr p) pool).
    now rewrite remove_addr_cons_eq.
  - change (remove_addr p bk :: map (remove_addr p) (alter (cons p) i pool)
            = remove_addr p bk :: map (remove_addr p) pool).
    now rewrite IH.
Qed.

(** Adding a port that was on no list and in no bucket and then evicting it
    with the empty role mask is a round trip for the registry: the insertion
    list, the buckets, the other ports and the reference count of the port
    are as before. *)
Theorem add_del_round_trip (p vmid_ type_ fini_ : Z) (st st' : ipc_state)
  (b : bool) :
  __add_ipc_port p vmid_ type_ fini_ st = Done b st' ->
  list_empty st p = true ->
  hlist_unhashed st p = true ->
  (Z.to_nat (PID_HASH vmid_) < length (ipc_port_pool st))%nat ->
  let st'' := (__del_ipc_port p 0 st').2 in
  pobj_list st'' = pobj_list st /\
  ipc_port_pool st'' = ipc_port_pool st /\
  ref_count (port_at st'' p) = ref_count (port_at st p) /\
  (forall q, q <> p -> port_at st'' q = port_at st q).
Proof.
  intros Hrun Hl Hh Hlen st''.
  destruct (add_ipc_port_cases _ _ _ _ _ _ _ Hrun)
    as (_ & _ & _ & P & _ & M & _ & _ & _ & Q & C & _ & L).
  cbv zeta in P, C.
  destruct (del_ipc_port_cases p 0 st') as (_ & Q' & _ & Hrm & _).
  cbv zeta in Hrm.
  destruct Hrm as (L' & P' & _ & _ & C' & _).
  { unfold other_roles, cleared_roles. simpl. apply land_lnot_lor_self. }
  fold st'' in L', P', C', Q'.
  assert (Hl' : list_empty st' p = false)
    by (unfold list_empty; now rewrite M).
  rewrite Hl' in C'. rewrite Hl, Hh in C. rewrite Hh in P.
  unfold list_empty in Hl. apply negb_true_iff in Hl.
  unfold hlist_unhashed in Hh.
  split; [| split; [| split]].
  - now rewrite L', L, (remove_addr_absent p _ Hl).
  - rewrite P', P.
    destruct (negb (added_vmid vmid_ (port_at st p) =? 0)); simpl.
    + rewrite remove_addr_alter. now apply remove_addr_unhashed.
    + now apply remove_addr_unhashed.
  - rewrite C', C. unfold hlist_unhashed. rewrite P.
    destruct (negb (added_vmid vmid_ (port_at st p) =? 0)); simpl.
    + rewrite (unhashed_alter p _ _ Hlen). lia.
    + rewrite Hh. lia.
  - intros q Hq. rewrite Q' by exact Hq. now apply Q.
Qed.

Lemma bucket_of_map (f : list Z -> list Z) (vmid_ : Z) (st st' : ipc_state) :
  f [] = [] ->
  ipc_port_pool st' = map f (ipc_port_pool st) ->
  bucket_of st' vmid_ = f (bucket_of st vmid_).
Proof.
  intros Hf Hp. unfold bucket_of. rewrite Hp, list_lookup_fmap.
  destruct (ipc_port_pool st !! Z.to_nat (PID_HASH vmid_)); simpl;
    [reflexivity | now rewrite Hf].
Qed.

Lemma bucket_of_removed (p vmid_ : Z) (st st' : ipc_state) :
  ipc_port_pool st' = map (remove_addr p) (ipc_port_pool st) ->
  bucket_of st' vmid_ = remove_addr p (bucket_of st vmid_).
Proof.
  intros Hp. unfold bucket_of. rewrite Hp, list_lookup_fmap.
  now destruct (ipc_port_pool st !! Z.to_nat (PID_HASH vmid_)).
Qed.

Lemma find_remove_addr (f g : Z -> bool) (p q : Z) (l : list Z) :
  (forall x, x <> p -> g x = f x) ->
  q <> p ->
  List.find f l = Some q ->
  List.find g (remove_addr p l) = Some q.
Proof.
  intros Hfg Hq. induction l as [| x l IH]; simpl; [discriminate |].
  destruct (x =? p) eqn:Ex; simpl.
  - apply Z.eqb_eq in Ex. subst x.
    destruct (f p); [intros [= Hc]; congruence | exact IH].
  - apply Z.eqb_neq in Ex. rewrite (Hfg x Ex).
    destruct (f x); [auto | exact IH].
Qed.

Lemma find_not_removed (g : Z -> bool) (p q : Z) (l : list Z) :
  List.find g (remove_addr p l) = Some q -> q <> p.
Proof.
  intros Hf. apply find_some in Hf as [Hin _].
  apply filter_In in Hin as [_ Hne]. apply negb_true_iff in Hne. lia.
Qed.

(** Once a port has been removed from the registry no lookup returns it,
    and a lookup that found another port before the removal finds the same
    port after it. *)
Theorem del_then_lookup (p mask vmid_ type_ : Z) (st : ipc_state) :
  p <> 0 ->
  other_roles mask (type (info (port_at st p))) = 0 ->
  let st' := (__del_ipc_port p mask st).2 in
  (__lookup_ipc_port vmid_ type_ st').1 <> p /\
  ((__lookup_ipc_port vmid_ type_ st).1 <> 0 ->
   (__lookup_ipc_port vmid_ type_ st).1 <> p ->
   (__lookup_ipc_port vmid_ type_ st').1 = (__lookup_ipc_port vmid_ type_ st).1).
Proof.
  intros Hp Ho st'.
  destruct (del_ipc_port_cases p mask st) as (_ & Hq & _ & Hrm & _).
  destruct (Hrm Ho) as (_ & Hpool & _). fold st' in Hq, Hpool.
  pose proof (bucket_of_removed p vmid_ st st' Hpool) as Hb.
  unfold __lookup_ipc_port. rewrite Hb. split.
  - destruct (List.find _ (remove_addr p (bucket_of st vmid_))) as [q |] eqn:Ef;
      simpl.
    + exact (find_not_removed _ _ _ _ Ef).
    + congruence.
  - destruct (List.find _ (bucket_of st vmid_)) as [q |] eqn:Ef; simpl;
      [| congruence].
    intros _ Hne.
    erewrite find_remove_addr; [reflexivity | | exact Hne | exact Ef].
    intros x Hx. simpl. now rewrite (Hq x Hx).
Qed.

(** The helper calls leave the registry alone. *)
Lemma create_ipc_helper_registry (st : ipc_state) :
  ports (create_ipc_helper st).2 = ports st /\
  pobj_list (create_ipc_helper st).2 = pobj_list st /\
  ipc_port_pool (create_ipc_helper st).2 = ipc_port_pool st.
Proof.
  unfold create_ipc_helper.
  destruct (decide (ipc_helper_state st = HELPER_ALIVE)); [now repeat split |].
  destruct (get_new_internal_thread =? 0); [now repeat split |].
  destruct (decide _); [now repeat split |].
  destruct (thread_create get_new_internal_thread); now repeat split.
Qed.

Lemma restart_ipc_helper_registry (need_create : bool) (st : ipc_state) :
  ports (restart_ipc_helper need_create st) = ports st /\
  pobj_list (restart_ipc_helper need_create st) = pobj_list st /\
  ipc_port_pool (restart_ipc_helper need_create st) = ipc_port_pool st.
Proof.
  unfold restart_ipc_helper.
  destruct (ipc_helper_state st); try now repeat split.
  - destruct need_create; [apply create_ipc_helper_registry | now repeat split].
  - destruct (IN_HELPER st); now repeat split.
Qed.

Lemma restart_ipc_helper_port (b : bool) (st : ipc_state) (q : Z) :
  port_at (restart_ipc_helper b st) q = port_at st q.
Proof.
  unfold port_at.
  now destruct (restart_ipc_helper_registry b st) as (-> & _).
Qed.

(** *** Sweeps over a collection *)

Lemma del_all_step_sweep (type_ : Z) (acc : bool * ipc_state) (q : Z) :
  del_all_step type_ acc q
  = sweep_step (fun o => negb (pal_handle o =? 0)) type_ acc q.
Proof.
  unfold del_all_step, sweep_step. destruct acc as [nr st]. simpl.
  destruct (negb _); [| reflexivity].
  now destruct (__del_ipc_port q type_ st).
Qed.

Lemma del_by_id_step_sweep (vmid_ type_ : Z) (acc : bool * ipc_state) (q : Z) :
  del_by_id_step vmid_ type_ acc q
  = sweep_step (fun o => vmid (info o) =? vmid_) type_ acc q.
Proof.
  unfold del_by_id_step, sweep_step. destruct acc as [nr st]. simpl.
  destruct (_ =? vmid_); [| reflexivity].
  now destruct (__del_ipc_port q type_ st).
Qed.

Lemma fold_left_ext_step {A B : Type} (f g : A -> B -> A) (l : list B) (a : A) :
  (forall a b, f a b = g a b) -> fold_left f l a = fold_left g l a.
Proof.
  intros Hfg. revert a. induction l as [| x l IH]; intros a; simpl;
    [reflexivity |]. now rewrite Hfg, IH.
Qed.

Lemma filter_remove_addr (f g : Z -> bool) (p : Z) (l : list Z) :
  g p = false ->
  (forall x, x <> p -> f x = g x) ->
  List.filter f (remove_addr p l) = List.filter g l.
Proof.
  intros Hp Hfg. induction l as [| x l IH]; simpl; [reflexivity |].
  destruct (x =? p) eqn:Ex; simpl.
  - apply Z.eqb_eq in Ex. subst x. now rewrite Hp.
  - apply Z.eqb_neq in Ex. rewrite (Hfg x Ex), IH. reflexivity.
Qed.

Lemma filter_ext_bool (f g : Z -> bool) (l : list Z) :
  (forall x, f x = g x) -> List.filter f l = List.filter g l.
Proof.
  intros Hfg. induction l as [| x l IH]; simpl; [reflexivity |].
  now rewrite Hfg, IH.
Qed.

Lemma memb_In (q : Z) (l : list Z) : memb q l = true <-> In q l.
Proof.
  unfold memb. rewrite existsb_exists. split.
  - intros (x & Hin & Hx). apply Z.eqb_eq in Hx. now subst x.
  - intros Hin. exists q. split; [exact Hin | apply Z.eqb_refl].
Qed.

Lemma memb_cons_ne (q p : Z) (l : list Z) :
  q <> p -> memb q (p :: l) = memb q l.
Proof.
  intros Hne. unfold memb. simpl. apply Z.eqb_neq in Hne. now rewrite Hne.
Qed.

(** A sweep over distinct ports removes from the list and from every bucket
    exactly the ports that pass the guard and keep no other role, and leaves
    every port that does not pass the guard as it was. *)
Lemma sweep_fold (guard : shim_ipc_port -> bool) (type_ : Z) (l : list Z) :
  NoDup l ->
  forall (nr : bool) (st : ipc_state),
    let r := fold_left (sweep_step guard type_) l (nr, st) in
    pobj_list r.2
    = List.filter (fun q => negb (swept guard type_ l st q)) (pobj_list st) /\
    ipc_port_pool r.2
    = map (List.filter (fun q => negb (swept guard type_ l st q)))
        (ipc_port_pool st) /\
    (forall q, ~ (In q l /\ guard (port_at st q) = true) ->
               port_at r.2 q = port_at st q).
Proof.
  induction l as [| p l IH]; intros Hnd nr st.
  - simpl. split; [| split; [| reflexivity]].
    + induction (pobj_list st) as [| x xs IHx]; simpl; [reflexivity |].
      now rewrite <- IHx.
    + induction (ipc_port_pool st) as [| bk bs IHb]; simpl; [reflexivity |].
      rewrite <- IHb. f_equal.
      induction bk as [| x xs IHx]; simpl; [reflexivity |]. now rewrite <- IHx.
  - apply NoDup_cons in Hnd as [Hp Hnd].
    assert (Hp' : memb p l = false).
    { destruct (memb p l) eqn:Em; [| reflexivity].
      apply memb_In in Em. apply list_elem_of_In in Em. contradiction. }
    simpl fold_left. unfold sweep_step at 2. cbn [fst snd].
    destruct (del_ipc_port_cases p type_ st) as (_ & Hq & Hkeep & Hrm & _).
    destruct (guard (port_at st p)) eqn:Eg.
    + set (st1 := (__del_ipc_port p type_ st).2) in *.
      specialize (IH Hnd (if (__del_ipc_port p type_ st).1 then true else nr)
                    st1).
      cbv zeta in IH. destruct IH as (IL & IP & IQ).
      assert (Hsame : forall x, x <> p ->
                swept guard type_ l st1 x = swept guard type_ (p :: l) st x).
      { intros x Hx. unfold swept.
        now rewrite (Hq x Hx), (memb_cons_ne x p l Hx). }
      destruct (other_roles type_ (type (info (port_at st p))) =? 0) eqn:Eo.
      * apply Z.eqb_eq in Eo. destruct (Hrm Eo) as (L1 & P1 & _).
        cbv zeta. rewrite IL, IP, L1, P1.
        assert (Hsw : negb (swept guard type_ (p :: l) st p) = false).
        { unfold swept. rewrite memb_cons_eq, Eg, Eo.
          now rewrite Z.eqb_refl. }
        split; [| split].
        -- apply filter_remove_addr; [exact Hsw |].
           intros x Hx. now rewrite Hsame.
        -- rewrite map_map. apply map_ext. intros bk.
           apply filter_remove_addr; [exact Hsw |].
           intros x Hx. now rewrite Hsame.
        -- intros q Hnot. destruct (Z.eq_dec q p) as [-> | Hne].
           ++ exfalso. apply Hnot. split; [now left | exact Eg].
           ++ rewrite IQ, Hq; auto.
              intros [Hin Hg]. apply Hnot. split; [now right |].
              now rewrite <- (Hq q Hne).
      * apply Z.eqb_neq in Eo. destruct (Hkeep Eo) as (_ & L1 & P1 & _).
        cbv zeta. rewrite IL, IP, L1, P1.
        assert (Hall : forall x,
                  negb (swept guard type_ l st1 x)
                  = negb (swept guard type_ (p :: l) st x)).
        { intros x. destruct (Z.eq_dec x p) as [-> | Hx].
          - unfold swept. rewrite Hp', memb_cons_eq, Eg. simpl.
            apply Z.eqb_neq in Eo. now rewrite Eo.
          - now rewrite Hsame. }
        split; [| split].
        -- now apply filter_ext_bool.
        -- apply map_ext. intros bk. now apply filter_ext_bool.
        -- intros q Hnot. destruct (Z.eq_dec q p) as [-> | Hne].
           ++ exfalso. apply Hnot. split; [now left | exact Eg].
           ++ rewrite IQ, Hq; auto.
              intros [Hin Hg]. apply Hnot. split; [now right |].
              now rewrite <- (Hq q Hne).
    + specialize (IH Hnd nr st). cbv zeta in IH.
      destruct IH as (IL & IP & IQ). cbv zeta. rewrite IL, IP.
      assert (Hall : forall x,
                negb (swept guard type_ l st x)
                = negb (swept guard type_ (p :: l) st x)).
      { intros x. destruct (Z.eq_dec x p) as [-> | Hx].
        - unfold swept. rewrite Hp', memb_cons_eq, Eg. reflexivity.
        - unfold swept. now rewrite (memb_cons_ne x p l Hx). }
      split; [| split].
      * now apply filter_ext_bool.
      * apply map_ext. intros bk. now apply filter_ext_bool.
      * intros q Hnot. apply IQ. intros [Hin Hg]. apply Hnot.
        split; [now right | exact Hg].
Qed.

Lemma filter_In_ext (f g : Z -> bool) (l : list Z) :
  (forall x, In x l -> f x = g x) -> List.filter f l = List.filter g l.
Proof.
  induction l as [| x l IH]; intros Hfg; simpl; [reflexivity |].
  rewrite (Hfg x (or_introl eq_refl)), IH; [reflexivity |].
  intros y Hy. apply Hfg. now right.
Qed.

(** [del_all_ipc_ports] keeps on the insertion list, in their order, exactly
    the ports that have no host handle or keep a role besides the cleared
    ones, IFPOLL and KEEPALIVE; ports without a host handle are left
    untouched; and with the empty role mask only ports without a host
    handle stay on the list. *)
Theorem del_all_ipc_ports_effect (type_ : Z) (st : ipc_state) :
  NoDup (pobj_list st) ->
  let st' := del_all_ipc_ports type_ st in
  pobj_list st'
  = List.filter
      (fun q => (pal_handle (port_at st q) =? 0)
                || negb (other_roles type_ (type (info (port_at st q))) =? 0))
      (pobj_list st) /\
  (forall q, pal_handle (port_at st q) = 0 -> port_at st' q = port_at st q) /\
  (type_ = 0 ->
   pobj_list st'
   = List.filter (fun q => pal_handle (port_at st q) =? 0) (pobj_list st)).
Proof.
  intros Hnd st'. subst st'. unfold del_all_ipc_ports.
  rewrite (fold_left_ext_step _ _ _ _ (del_all_step_sweep type_)).
  destruct (sweep_fold (fun o => negb (pal_handle o =? 0)) type_ _ Hnd false st)
    as (L & _ & Q).
  destruct (fold_left _ (pobj_list st) (false, st)) as [nr st1] eqn:Ef.
  cbn [fst snd] in L, Q.
  assert (Hreg : forall s, pobj_list (if nr then restart_ipc_helper false s else s)
                           = pobj_list s /\
                           ports (if nr then restart_ipc_helper false s else s)
                           = ports s).
  { intros s. destruct nr; [| now split].
    destruct (restart_ipc_helper_registry false s) as (A & B & _). now split. }
  destruct (Hreg st1) as [HL HP]. rewrite HL, L.
  assert (Hfirst :
    List.filter
      (fun q => negb (swept (fun o => negb (pal_handle o =? 0)) type_
                        (pobj_list st) st q)) (pobj_list st)
    = List.filter
        (fun q => (pal_handle (port_at st q) =? 0)
                  || negb (other_roles type_ (type (info (port_at st q))) =? 0))
        (pobj_list st)).
  { apply filter_In_ext. intros x Hx. unfold swept.
    apply memb_In in Hx. rewrite Hx. simpl.
    now rewrite negb_andb, negb_involutive. }
  split; [exact Hfirst |]. split.
  - intros q Hq. unfold port_at. rewrite HP. apply Q.
    intros [_ Hg]. rewrite Hq in Hg. discriminate.
  - intros ->. rewrite Hfirst. apply filter_ext_bool. intros x.
    unfold other_roles, cleared_roles. simpl.
    now rewrite land_lnot_lor_self, orb_false_r.
Qed.

(** [del_ipc_port_by_id] keeps in the bucket of the peer exactly the ports
    of other peers and the ports that keep a role besides the cleared ones,
    IFPOLL and KEEPALIVE; and with the empty role mask no lookup of that
    peer finds a port afterwards. *)
Theorem del_ipc_port_by_id_effect (vmid_ type_ : Z) (st : ipc_state) :
  NoDup (bucket_of st vmid_) ->
  let st' := del_ipc_port_by_id vmid_ type_ st in
  bucket_of st' vmid_
  = List.filter
      (fun q => negb (vmid (info (port_at st q)) =? vmid_)
                || negb (other_roles type_ (type (info (port_at st q))) =? 0))
      (bucket_of st vmid_) /\
  (type_ = 0 -> forall t, __lookup_ipc_port vmid_ t st' = (0, st')).
Proof.
  intros Hnd st'. subst st'. unfold del_ipc_port_by_id.
  rewrite (fold_left_ext_step _ _ _ _ (del_by_id_step_sweep vmid_ type_)).
  destruct (sweep_fold (fun o => vmid (info o) =? vmid_) type_ _ Hnd false st)
    as (_ & P & Q).
  destruct (fold_left _ (bucket_of st vmid_) (false, st)) as [nr st1] eqn:Ef.
  cbn [fst snd] in P, Q.
  set (st2 := if nr then restart_ipc_helper false st1 else st1).
  assert (Hreg : ipc_port_pool st2 = ipc_port_pool st1 /\ ports st2 = ports st1).
  { subst st2. destruct nr; [| now split].
    destruct (restart_ipc_helper_registry false st1) as (A & _ & B). now split. }
  destruct Hreg as [HP HS].
  assert (Hb : bucket_of st2 vmid_
               = List.filter
                   (fun q => negb (swept (fun o => vmid (info o) =? vmid_) type_
                                     (bucket_of st vmid_) st q))
                   (bucket_of st vmid_)).
  { apply bucket_of_map; [reflexivity | now rewrite HP, P]. }
  assert (Hfirst :
    bucket_of st2 vmid_
    = List.filter
        (fun q => negb (vmid (info (port_at st q)) =? vmid_)
                  || negb (other_roles type_ (type (info (port_at st q))) =? 0))
        (bucket_of st vmid_)).
  { rewrite Hb. apply filter_In_ext. intros x Hx. unfold swept.
    apply memb_In in Hx. rewrite Hx. simpl. now rewrite negb_andb. }
  split; [exact Hfirst |].
  intros -> t. unfold __lookup_ipc_port.
  destruct (List.find _ (bucket_of st2 vmid_)) as [q |] eqn:Efind;
    [| reflexivity].
  exfalso. apply find_some in Efind as [Hin Hm].
  rewrite Hfirst in Hin. apply filter_In in Hin as [Hin Hk].
  unfold other_roles, cleared_roles in Hk. simpl in Hk.
  rewrite land_lnot_lor_self, orb_false_r in Hk.
  apply andb_prop in Hm as [Hv _].
  assert (Hsame : port_at st2 q = port_at st q).
  { unfold port_at. rewrite HS. apply Q. intros [_ Hg].
    rewrite Hg in Hk. discriminate. }
  rewrite Hsame in Hv. rewrite Hv in Hk. discriminate.
Qed.

End RegistryMoreFacts.

Section RegistryAllocFacts.

Import Ipc.
Context `{Env} `{PortMgr}.

Lemma find_none_all (f : Z -> bool) (l : list Z) :
  (forall x, In x l -> f x = false) -> List.find f l = None.
Proof.
  induction l as [| x l IH]; intros Hf; simpl; [reflexivity |].
  rewrite (Hf x (or_introl eq_refl)). apply IH. intros y Hy. apply Hf.
  now right.
Qed.

(** A handle that no port of the peer's bucket and no port of the insertion
    list carries gets a port of its own: the object the manager hands out
    takes the handle, is put on the insertion list, and holds one reference
    for the list, one for the bucket if a peer id is given, and one for the
    caller if the caller asked for the port, which is then what the caller
    is given; the ports that existed are left as they were. *)
Theorem add_ipc_port_by_id_fresh (vmid_ hdl type_ fini_ : Z) (portptr : bool)
  (st st' : ipc_state) (r : option Z) :
  add_ipc_port_by_id vmid_ hdl type_ fini_ portptr st = Done r st' ->
  (forall q, In q (bucket_of st vmid_) -> pal_handle (port_at st q) <> hdl) ->
  (forall q, In q (pobj_list st) -> pal_handle (port_at st q) <> hdl) ->
  let a := get_mem_obj_from_mgr_enlarge st in
  a <> 0 -> list_empty st a = true -> hlist_unhashed st a = true ->
  r = (if portptr then Some a else None) /\
  pal_handle (port_at st' a) = hdl /\
  memb a (pobj_list st') = true /\
  ref_count (port_at st' a)
  = (if portptr then 1 else 0) + 1 + (if vmid_ =? 0 then 0 else 1) /\
  (forall q, q <> a -> port_at st' q = port_at st q).
Proof.
  intros Hrun Hb Hl a Ha Hle Hun. unfold add_ipc_port_by_id in Hrun.
  rewrite (find_none_all _ (bucket_of st vmid_)) in Hrun.
  2:{ intros x Hx. apply andb_false_iff. right. apply Z.eqb_neq. now apply Hb. }
  assert (E0 : (if negb (vmid_ =? 0) then (0, st) else (0, st)) = (0, st))
    by now destruct (negb (vmid_ =? 0)).
  rewrite E0 in Hrun. simpl in Hrun.
  rewrite (find_none_all _ (pobj_list st)) in Hrun.
  2:{ intros x Hx. apply Z.eqb_neq. now apply Hl. }
  simpl in Hrun. unfold __get_new_ipc_port in Hrun. fold a in Hrun.
  apply Z.eqb_neq in Ha. rewrite Ha in Hrun. rewrite Ha in Hrun.
  set (fresh := mkPort hdl (mkInfo 0 0) (mkInfo 0 0) true false
                  (replicate MAX_IPC_PORT_FINI_CB 0) [] 1) in *.
  set (st0 := set_ports (<[a := fresh]>) st) in *.
  assert (P0 : port_at st0 a = fresh)
    by (unfold port_at, st0; simpl; apply lookup_total_insert_eq).
  assert (Q0 : forall q, q <> a -> port_at st0 q = port_at st q).
  { intros q Hq. unfold port_at, st0. simpl.
    now apply lookup_total_insert_ne. }
  destruct (__add_ipc_port a vmid_ type_ fini_ st0) as [nr st1 | |] eqn:Ea;
    [| discriminate | discriminate].
  destruct (add_ipc_port_cases _ _ _ _ _ _ _ Ea)
    as (_ & _ & _ & _ & _ & M & _ & _ & _ & Q & C & Hd & _).
  cbv zeta in C, Hd. rewrite P0 in C, Hd.
  assert (Hle0 : list_empty st0 a = true) by exact Hle.
  assert (Hun0 : hlist_unhashed st0 a = true) by exact Hun.
  rewrite Hle0, Hun0 in C.
  assert (Hv : negb (added_vmid vmid_ fresh =? 0) && true
               = negb (vmid_ =? 0)).
  { unfold added_vmid, fresh. simpl. rewrite andb_true_r.
    destruct (vmid_ =? 0) eqn:Ev; simpl; [reflexivity | now rewrite Ev]. }
  rewrite Hv in C. simpl in C, Hd.
  set (st2 := if portptr then st1 else __put_ipc_port a st1) in *.
  assert (F2 : pal_handle (port_at st2 a) = hdl /\
               pobj_list st2 = pobj_list st1 /\
               ref_count (port_at st2 a)
               = (if portptr then 1 else 0) + 1
                 + (if vmid_ =? 0 then 0 else 1) /\
               (forall q, q <> a -> port_at st2 q = port_at st1 q)).
  { subst st2. destruct portptr.
    - repeat split; auto. rewrite C. destruct (vmid_ =? 0); simpl; lia.
    - destruct (put_ipc_port_step a st1) as (R & Hkeep & _).
      cbv zeta in R, Hkeep.
      destruct Hkeep as [_ Hh]; [rewrite C; destruct (vmid_ =? 0); simpl; lia |].
      destruct (put_ipc_port_frame a st1) as (L & _ & _ & _ & _ & _ & Qp).
      cbv zeta in L, Qp.
      rewrite Hh, R, C. repeat split; auto.
      destruct (vmid_ =? 0); simpl; lia. }
  destruct F2 as (H2 & L2 & C2 & Q2).
  injection Hrun as <- <-.
  assert (Hr : forall q,
             port_at (if nr then restart_ipc_helper true st2 else st2) q
             = port_at st2 q)
    by (intros q; destruct nr; [apply restart_ipc_helper_port | reflexivity]).
  assert (Lr : pobj_list (if nr then restart_ipc_helper true st2 else st2)
               = pobj_list st2).
  { destruct nr; [| reflexivity].
    now destruct (restart_ipc_helper_registry true st2) as (_ & -> & _). }
  rewrite Hr, Lr, L2.
  split; [reflexivity |]. split; [exact H2 |]. split; [exact M |].
  split; [exact C2 |].
  intros q Hq. rewrite Hr, Q2, Q by exact Hq. now apply Q0.
Qed.

End RegistryAllocFacts.

Lemma add_ipc_port_effect_witness :
  exists st',
    Ipc.__add_ipc_port (H := sample_env) 2000 8 32 0 sample_state
    = Ipc.Done true st' /\
    Ipc.pobj_list st' = [2000; 1000; 3000].
Proof.
  eexists. split; [vm_compute; reflexivity |].
  match goal with
  | |- Ipc.pobj_list ?s = _ =>
      pose proof (add_ipc_port_effect (H := sample_env) 2000 8 32 0
                    sample_state s true ltac:(vm_compute; reflexivity))
        as (_ & _ & _ & _ & _ & _ & _ & Hhead & _)
  end.
  rewrite (Hhead eq_refl ltac:(vm_compute; reflexivity)).
  vm_compute. reflexivity.
Defined.


Lemma del_then_lookup_witness :
  (Ipc.__lookup_ipc_port 8 0
     (Ipc.__del_ipc_port (H := sample_env) 2000 0 sample_state).2).1 <> 2000.
Proof.
  apply (del_then_lookup (H := sample_env) 2000 0 8 0 sample_state).
  - lia.
  - vm_compute. reflexivity.
Defined.

Lemma del_all_ipc_ports_effect_witness :
  Ipc.pobj_list (Ipc.del_all_ipc_ports (H := sample_env) 0 sample_state) = [].
Proof.
  destruct (del_all_ipc_ports_effect (H := sample_env) 0 sample_state)
    as (_ & _ & Hall).
  - apply (bool_decide_unpack _). vm_compute. exact I.
  - rewrite (Hall eq_refl). vm_compute. reflexivity.
Defined.

Lemma del_ipc_port_by_id_effect_witness :
  (Ipc.__lookup_ipc_port 8 0
     (Ipc.del_ipc_port_by_id (H := sample_env) 8 0 sample_state)).1 = 0.
Proof.
  destruct (del_ipc_port_by_id_effect (H := sample_env) 8 0 sample_state)
    as (_ & Hmiss).
  - apply (bool_decide_unpack _). vm_compute. exact I.
  - now rewrite (Hmiss eq_refl 0).
Defined.

Lemma add_del_round_trip_witness :
  exists st',
    Ipc.__add_ipc_port (H := sample_env) 4000 10 IPC_PORT_DIRPRT 0
      sample_state_fresh = Ipc.Done false st' /\
    Ipc.pobj_list (Ipc.__del_ipc_port (H := sample_env) 4000 0 st').2
    = [1000; 2000; 3000].
Proof.
  eexists. split; [vm_compute; reflexivity |].
  match goal with
  | |- Ipc.pobj_list (Ipc.__del_ipc_port 4000 0 ?s).2 = _ =>
      destruct (add_del_round_trip (H := sample_env) 4000 10 IPC_PORT_DIRPRT 0
                  sample_state_fresh s false
                  ltac:(vm_compute; reflexivity)
                  ltac:(vm_compute; reflexivity)
                  ltac:(vm_compute; reflexivity)
                  ltac:(vm_compute; lia)) as (Hl & _)
  end.
  rewrite Hl. reflexivity.
Defined.

Lemma add_ipc_port_by_id_fresh_witness :
  exists st',
    Ipc.add_ipc_port_by_id (H := sample_env) (H0 := sample_port_mgr)
      10 14 IPC_PORT_DIRPRT 0 true sample_state = Ipc.Done (Some 4000) st' /\
    Ipc.ref_count (Ipc.port_at st' 4000) = 3.
Proof.
  eexists. split; [vm_compute; reflexivity |].
  match goal with
  | |- Ipc.ref_count (Ipc.port_at ?s 4000) = _ =>
      destruct (add_ipc_port_by_id_fresh (H := sample_env)
                  (H0 := sample_port_mgr) 10 14 IPC_PORT_DIRPRT 0 true
                  sample_state s (Some 4000)
                  ltac:(vm_compute; reflexivity))
        as (_ & _ & _ & Href & _)
  end.
  - vm_compute. intros q [].
  - vm_compute. intros q [<- | [<- | [<- | []]]]; discriminate.
  - vm_compute. discriminate.
  - vm_compute. reflexivity.
  - vm_compute. reflexivity.
  - exact Href.
Defined.

(** ** Starting, deferring and stopping the helper *)

Section HelperMoreFacts.

Import Ipc.
Context `{Env}.

(** A call of [create_ipc_helper] while the helper is not ALIVE never loses
    the thread it obtained: either the start succeeds, the helper is ALIVE
    on that thread and the thread is not released, or the start fails, the
    helper is NOTALIVE with no thread on record, the thread is released and
    the negated platform error is returned.  Without a thread to obtain the
    call returns -ENOMEM and leaves the helper state and thread alone. *)
Theorem create_ipc_helper_rollback (st : ipc_state) :
  ipc_helper_state st <> HELPER_ALIVE ->
  let new := get_new_internal_thread in
  let r := (create_ipc_helper st).1 in
  let st' := (create_ipc_helper st).2 in
  (new = 0 ->
     r = - ENOMEM /\ trace st' = trace st ++ [EvEnableLocking] /\
     ipc_helper_state st' = ipc_helper_state st /\
     ipc_helper_thread st' = ipc_helper_thread st) /\
  (new <> 0 ->
     match thread_create new with
     | inl _ =>
         r = 0 /\ ipc_helper_state st' = HELPER_ALIVE /\
         ipc_helper_thread st' = new /\
         trace st' = trace st ++ [EvEnableLocking; EvThreadCreate new]
     | inr errno =>
         r = - PAL_ERRNO_of errno /\ ipc_helper_state st' = HELPER_NOTALIVE /\
         ipc_helper_thread st' = 0 /\ pal_errno st' = errno /\
         trace st' = trace st ++ [EvEnableLocking; EvThreadCreate new;
                                  EvPutThread new]
     end).
Proof.
  intros Hs new r st'. subst new r st'. unfold create_ipc_helper.
  destruct (decide (ipc_helper_state st = HELPER_ALIVE)); [contradiction |].
  destruct (get_new_internal_thread =? 0) eqn:E.
  - apply Z.eqb_eq in E. split; [| intros Hc; contradiction].
    intros _. simpl. repeat split.
  - apply Z.eqb_neq in E. split; [intros Hc; contradiction |].
    intros _. simpl.
    destruct (decide (ipc_helper_state st = HELPER_ALIVE)); [contradiction |].
    destruct (thread_create get_new_internal_thread) as [h | e]; simpl.
    + rewrite <- app_assoc. repeat split.
    + rewrite <- !app_assoc. repeat split.
Qed.

(** Initialisation honours a start that was asked for too early: a restart
    request in the UNINITIALIZED state only defers, and the following
    [init_ipc_helper] starts the helper; without such a request
    [init_ipc_helper] starts nothing and leaves the helper NOTALIVE. *)
Theorem init_ipc_helper_deferred (need_create : bool) (st : ipc_state) :
  ipc_helper_state st = HELPER_UNINITIALIZED ->
  get_new_internal_thread <> 0 ->
  let new := get_new_internal_thread in
  let quiet := (init_ipc_helper st).2 in
  let st' := (init_ipc_helper (restart_ipc_helper need_create st)).2 in
  trace (restart_ipc_helper need_create st) = trace st /\
  trace quiet = trace st /\
  ipc_helper_state quiet = HELPER_NOTALIVE /\
  (init_ipc_helper st).1 = 0 /\
  In (EvThreadCreate new) (trace st') /\
  (forall handle, thread_create new = inl handle ->
     ipc_helper_state st' = HELPER_ALIVE /\ ipc_helper_thread st' = new).
Proof.
  intros Hs Hn new quiet st'. subst new quiet st'.
  unfold init_ipc_helper, restart_ipc_helper. rewrite Hs. simpl.
  split; [reflexivity |]. split; [reflexivity |]. split; [reflexivity |].
  split; [reflexivity |].
  set (st0 := set_helper_state HELPER_NOTALIVE
                (set_helper_state HELPER_DELAYED st)).
  destruct (create_ipc_helper_notalive st0 eq_refl Hn) as [Htr Hok].
  cbv zeta in Htr, Hok. split.
  - rewrite Htr. apply in_or_app. right. simpl. auto.
  - intros handle Hh. destruct (Hok handle Hh) as (A & B & _). now split.
Qed.

Lemma run_helper_call_recorded (c : helper_call) (st : ipc_state) :
  helper_recorded st -> helper_recorded (run_helper_call c st).
Proof.
  assert (Hcreate : forall s, helper_recorded s ->
                              helper_recorded (create_ipc_helper s).2).
  { intros s Hi. unfold create_ipc_helper.
    destruct (decide (ipc_helper_state s = HELPER_ALIVE)); [exact Hi |].
    destruct (get_new_internal_thread =? 0) eqn:E; [exact Hi |].
    apply Z.eqb_neq in E. simpl.
    destruct (decide (ipc_helper_state s = HELPER_ALIVE)); [exact Hi |].
    destruct (thread_create get_new_internal_thread); unfold helper_recorded;
      simpl; [intros _; exact E | intros [Hc | Hc]; discriminate]. }
  intros Hi. destruct c as [b | | | b |]; simpl.
  - unfold restart_ipc_helper.
    destruct (ipc_helper_state st) eqn:Es.
    + unfold helper_recorded. simpl. intros [Hc | Hc]; discriminate.
    + exact Hi.
    + destruct b; [now apply Hcreate | exact Hi].
    + destruct (IN_HELPER st); unfold helper_recorded in *; simpl;
        rewrite Es in *; exact Hi.
    + unfold helper_recorded in *. simpl. rewrite Es in *. exact Hi.
  - now apply Hcreate.
  - unfold init_ipc_helper. simpl.
    destruct (bool_decide _); [apply Hcreate |]; unfold helper_recorded; simpl;
      intros [Hc | Hc]; discriminate.
  - unfold exit_with_ipc_helper.
    destruct (IN_HELPER st || _) eqn:Eg; [exact Hi |].
    apply orb_false_elim in Eg as [_ Ea]. apply negb_false_iff in Ea.
    apply bool_decide_eq_true_1 in Ea.
    unfold helper_recorded in *. simpl. intros _. apply Hi. now left.
  - unfold terminate_ipc_helper.
    destruct (ipc_helper_thread st =? 0); [exact Hi |].
    unfold helper_recorded. simpl. intros [Hc | Hc]; discriminate.
Qed.

(** Whatever sequence of the entry points runs (restart, create, init, exit
    with or without handover, terminate), a helper that is ALIVE or
    HANDEDOVER has its thread on record. *)
Theorem helper_thread_recorded (cs : list helper_call) (st : ipc_state) :
  helper_recorded st -> helper_recorded (run_helper_calls cs st).
Proof.
  unfold run_helper_calls. revert st.
  induction cs as [| c cs IH]; intros st Hi; simpl; [exact Hi |].
  apply IH. now apply run_helper_call_recorded.
Qed.

(** Terminating the helper: without a thread on record the call fails with
    -ESRCH and changes nothing; otherwise the helper becomes NOTALIVE and is
    signaled once, so that a following handover request has nothing to hand
    over and returns 0 without signaling again. *)
Theorem terminate_then_exit (handover : bool) (st : ipc_state) :
  let r := (terminate_ipc_helper st).1 in
  let st' := (terminate_ipc_helper st).2 in
  (ipc_helper_thread st = 0 -> r = - ESRCH /\ st' = st) /\
  (ipc_helper_thread st <> 0 ->
     r = 0 /\ ipc_helper_state st' = HELPER_NOTALIVE /\
     trace st' = trace st ++ [EvSetEvent] /\
     exit_with_ipc_helper handover st' = (0, st')).
Proof.
  intros r st'. subst r st'. unfold terminate_ipc_helper. split.
  - intros ->. simpl. auto.
  - intros Hn. apply Z.eqb_neq in Hn. rewrite Hn. simpl.
    split; [reflexivity |]. split; [reflexivity |]. split; [reflexivity |].
    unfold exit_with_ipc_helper. simpl.
    now rewrite orb_true_r.
Qed.

End HelperMoreFacts.

Lemma create_ipc_helper_rollback_witness :
  Ipc.ipc_helper_thread
    (Ipc.create_ipc_helper (H := sample_env)
       (Ipc.set_helper_state Ipc.HELPER_NOTALIVE sample_state)).2 = 7001.
Proof.
  destruct (create_ipc_helper_rollback (H := sample_env)
              (Ipc.set_helper_state Ipc.HELPER_NOTALIVE sample_state))
    as (_ & Hnew).
  - vm_compute. discriminate.
  - destruct (Hnew ltac:(vm_compute; discriminate)) as (_ & _ & Ht & _).
    exact Ht.
Defined.

Lemma init_ipc_helper_deferred_witness :
  Ipc.ipc_helper_state
    (Ipc.init_ipc_helper (H := sample_env)
       (Ipc.restart_ipc_helper (H := sample_env) false
          (Ipc.set_helper_state Ipc.HELPER_UNINITIALIZED sample_state))).2
  = Ipc.HELPER_ALIVE.
Proof.
  destruct (init_ipc_helper_deferred (H := sample_env) false
              (Ipc.set_helper_state Ipc.HELPER_UNINITIALIZED sample_state))
    as (_ & _ & _ & _ & _ & Hok).
  - reflexivity.
  - vm_compute. discriminate.
  - destruct (Hok 9000 eq_refl) as [Hs _]. exact Hs.
Defined.

Lemma helper_thread_recorded_witness :
  Ipc.helper_recorded
    (Ipc.run_helper_calls (H := sample_env)
       [Ipc.CallExit true; Ipc.CallRestart true; Ipc.CallTerminate;
        Ipc.CallCreate]
       sample_state).
Proof.
  apply (helper_thread_recorded (H := sample_env)).
  intros _. vm_compute. discriminate.
Defined.

(** ** The events of a teardown *)

Section TeardownFacts.

Import Ipc.
Context `{Env}.

Lemma bk_refl (st : ipc_state) : bookkeeping_step st st.
Proof. exists []. now rewrite app_nil_r. Qed.

Lemma bk_same (st st' : ipc_state) :
  trace st' = trace st -> bookkeeping_step st st'.
Proof. intros Ht. exists []. now rewrite app_nil_r. Qed.

Lemma bk_trans (st1 st2 st3 : ipc_state) :
  bookkeeping_step st1 st2 -> bookkeeping_step st2 st3 ->
  bookkeeping_step st1 st3.
Proof.
  intros (es1 & T1 & C1) (es2 & T2 & C2). exists (es1 ++ es2). split.
  - now rewrite T2, T1, app_assoc.
  - now rewrite forallb_app, C1, C2.
Qed.

Lemma bk_put (p : Z) (st : ipc_state) :
  bookkeeping_step st (__put_ipc_port p st).
Proof.
  unfold __put_ipc_port.
  destruct (ref_count _ =? 0); [| now apply bk_same].
  destruct (negb _).
  - exists [EvObjectClose
              (pal_handle
                 (port_at
                    (upd_port p (fun o => with_ref_count (ref_count o - 1) o) st)
                    p));
            EvFree p].
    split; [simpl; now rewrite <- app_assoc | reflexivity].
  - exists [EvFree p]. split; reflexivity.
Qed.

Lemma bk_restart_false (st : ipc_state) :
  bookkeeping_step st (restart_ipc_helper false st).
Proof.
  unfold restart_ipc_helper.
  destruct (ipc_helper_state st); try (now apply bk_same).
  destruct (IN_HELPER st); [now apply bk_same |].
  exists [EvSetEvent]. split; reflexivity.
Qed.

Lemma bk_del (p mask : Z) (st : ipc_state) :
  bookkeeping_step st (__del_ipc_port p mask st).2.
Proof.
  rewrite del_ipc_port_unfold. cbv zeta.
  destruct (negb (other_roles _ _ =? 0)); cbn [fst snd];
    [now apply bk_same |].
  eapply bk_trans; [| now apply bk_same].
  set (st1 := if negb (list_empty st p) then _ else st).
  assert (Q1 : bookkeeping_step st st1).
  { subst st1. destruct (negb (list_empty st p)); [| apply bk_refl].
    eapply bk_trans; [| apply bk_put]. now apply bk_same. }
  destruct (negb (hlist_unhashed st1 p)); [| exact Q1].
  eapply bk_trans; [exact Q1 |].
  eapply bk_trans; [| apply bk_put]. now apply bk_same.
Qed.

(** The part of a port that eviction and reference counting leave alone. *)
Lemma put_ipc_port_msgs (p : Z) (st : ipc_state) :
  msgs (port_at (__put_ipc_port p st) p) = msgs (port_at st p).
Proof.
  unfold __put_ipc_port.
  destruct (ref_count _ =? 0).
  - destruct (negb _);
      repeat (rewrite port_at_emit || rewrite port_at_upd_port_eq); reflexivity.
  - now rewrite port_at_upd_port_eq.
Qed.

Lemma del_ipc_port_keeps (p mask : Z) (st : ipc_state) :
  fini (port_at (__del_ipc_port p mask st).2 p) = fini (port_at st p) /\
  msgs (port_at (__del_ipc_port p mask st).2 p) = msgs (port_at st p).
Proof.
  rewrite del_ipc_port_unfold. cbv zeta.
  destruct (negb (other_roles _ _ =? 0)); cbn [fst snd].
  - rewrite !port_at_upd_port_eq. split; reflexivity.
  - rewrite port_at_upd_port_eq. cbn [fini msgs with_update].
    set (st1 := if negb (list_empty st p) then _ else st).
    assert (K1 : fini (port_at st1 p) = fini (port_at st p) /\
                 msgs (port_at st1 p) = msgs (port_at st p) /\
                 ipc_port_pool st1 = ipc_port_pool st).
    { subst st1. destruct (negb (list_empty st p)); [| now repeat split].
      destruct (put_ipc_port_frame p
                  (upd_port p
                     (fun o => with_type (Z.land (type (info o)) IPC_PORT_IFPOLL) o)
                     (list_del_init p st)))
        as (_ & F2 & _ & _ & F5 & _).
      cbv zeta in F2, F5.
      rewrite F5, put_ipc_port_msgs, F2, port_at_upd_port_eq.
      repeat split. }
    destruct K1 as (K1 & K2 & _).
    destruct (negb (hlist_unhashed st1 p)); [| now split].
    destruct (put_ipc_port_frame p (hlist_del_init p st1))
      as (_ & _ & _ & _ & F5 & _).
    cbv zeta in F5. rewrite F5, put_ipc_port_msgs.
    change (port_at (hlist_del_init p st1) p) with (port_at st1 p).
    now split.
Qed.

(** A teardown that returns has run each fini callback of the port once, in
    slot order, with the peer id and exit code it was given; around them it
    only released references, closed or freed the port and signaled the
    helper.  It woke no thread and failed no pending request: the queue of
    pending requests is left as it was.  The fini slots are cleared, so a
    second teardown runs no callback. *)
Theorem del_ipc_port_fini_events (p exitcode : Z) (st st' : ipc_state) :
  del_ipc_port_fini p exitcode st = Done tt st' ->
  let slots := take MAX_IPC_PORT_FINI_CB (fini (port_at st p)) in
  (exists es1 es2,
     trace st'
     = trace st ++ es1
       ++ map (fun cb => EvFini cb p (vmid (info (port_at st p))) exitcode)
            (List.filter (fun cb => negb (cb =? 0)) slots)
       ++ es2 /\
     forallb bookkeeping_event es1 = true /\
     forallb bookkeeping_event es2 = true) /\
  msgs (port_at st' p) = msgs (port_at st p) /\
  fini (port_at st' p)
  = map (fun _ => 0) slots ++ drop MAX_IPC_PORT_FINI_CB (fini (port_at st p)).
Proof.
  unfold del_ipc_port_fini.
  destruct (negb (0 <? ref_count (port_at st p))); [discriminate |].
  cbv zeta.
  set (slots := take MAX_IPC_PORT_FINI_CB (fini (port_at st p))).
  set (st0 := upd_port p
                (fun o => with_fini (map (fun _ => 0) slots
                                     ++ drop MAX_IPC_PORT_FINI_CB (fini o)) o)
                st).
  set (st1 := __get_ipc_port p st0).
  assert (T1 : trace st1 = trace st) by reflexivity.
  assert (M1 : msgs (port_at st1 p) = msgs (port_at st p) /\
               fini (port_at st1 p)
               = map (fun _ => 0) slots
                 ++ drop MAX_IPC_PORT_FINI_CB (fini (port_at st p))).
  { subst st1 st0. rewrite port_at_get_eq, port_at_upd_port_eq. now split. }
  pose proof (bk_del p 0 st1) as Q2.
  pose proof (del_ipc_port_keeps p 0 st1) as [F2 M2].
  pose proof (del_ipc_port_cases p 0 st1) as (_ & _ & _ & Hrm & _).
  cbv zeta in Hrm.
  destruct Hrm as (_ & _ & Hl & _).
  { unfold other_roles, cleared_roles. simpl. apply land_lnot_lor_self. }
  destruct (__del_ipc_port p 0 st1) as [need_restart st2].
  cbn [snd] in Q2, F2, M2, Hl.
  destruct (fold_emit_trace Z
              (fun cb => EvFini cb p (vmid (info (port_at st p))) exitcode)
              (List.filter (fun cb => negb (cb =? 0)) slots) st2)
    as (T3 & L3 & _).
  cbv zeta in T3, L3.
  set (st3 := fold_left _ _ st2) in *.
  assert (P3 : port_at st3 p = port_at st2 p).
  { subst st3. generalize (List.filter (fun cb => negb (cb =? 0)) slots).
    intros l. generalize st2. induction l as [| a l IH]; intros s; simpl;
      [reflexivity |]. now rewrite IH. }
  assert (E3 : list_empty st3 p = true)
    by (unfold list_empty in *; now rewrite L3).
  rewrite E3. simpl negb. cbv iota.
  pose proof (bk_put p st3) as Q4.
  unfold put_ipc_port.
  destruct (negb (0 <? ref_count (port_at (__put_ipc_port p st3) p)));
    [discriminate |].
  intros Hd. injection Hd as <-.
  set (st4 := __put_ipc_port p st3) in *.
  assert (Q5 : bookkeeping_step st4
                 (if need_restart then restart_ipc_helper false st4 else st4))
    by (destruct need_restart; [apply bk_restart_false | apply bk_refl]).
  assert (P5 : port_at (if need_restart then restart_ipc_helper false st4
                        else st4) p = port_at st4 p)
    by (destruct need_restart; [apply restart_ipc_helper_port | reflexivity]).
  rewrite P5.
  destruct (put_ipc_port_frame p st3) as (_ & _ & _ & _ & F4 & _).
  cbv zeta in F4. fold st4 in F4.
  destruct M1 as [M1 F1].
  split; [| split].
  - destruct Q2 as (es1 & T2 & B1). destruct Q4 as (es4 & T4 & B4).
    destruct Q5 as (es5 & T5 & B5).
    exists es1, (es4 ++ es5). split; [| split].
    + rewrite T5, T4, T3, T2, T1. now rewrite <- !app_assoc.
    + exact B1.
    + now rewrite forallb_app, B4, B5.
  - subst st4. now rewrite put_ipc_port_msgs, P3, M2.
  - now rewrite F4, P3, F2.
Qed.

End TeardownFacts.

Lemma del_ipc_port_fini_events_witness :
  exists st',
    Ipc.del_ipc_port_fini (H := sample_env) 1000 5 sample_state
    = Ipc.Done tt st' /\
    Ipc.fini (Ipc.port_at st' 1000) = [0; 0; 0].
Proof.
  eexists. split; [vm_compute; reflexivity |].
  match goal with
  | |- Ipc.fini (Ipc.port_at ?s 1000) = _ =>
      destruct (del_ipc_port_fini_events (H := sample_env) 1000 5 sample_state
                  s ltac:(vm_compute; reflexivity)) as (_ & _ & Hf)
  end.
  rewrite Hf. vm_compute. reflexivity.
Defined.

Lemma terminate_then_exit_witness :
  Ipc.exit_with_ipc_helper (H := sample_env) true
    (Ipc.terminate_ipc_helper sample_state).2
  = (0, (Ipc.terminate_ipc_helper sample_state).2).
Proof.
  destruct (terminate_then_exit (H := sample_env) true sample_state)
    as (_ & Hok).
  destruct (Hok ltac:(vm_compute; discriminate)) as (_ & _ & _ & He).
  exact He.
Defined.

(** ** More on the receive routine *)

Section ReceiveMoreFacts.

Import Ipc.
Context `{Env}.

Lemma recv_finish_no_msg (p : Z) (msgptr : msgptr_t) (ret : Z)
  (st st' : ipc_state) (r : Z) (hdr : shim_ipc_msg) (data : list Z) :
  recv_finish p msgptr ret st <> Done (r, OutMsg hdr data) st'.
Proof. unfold recv_finish. destruct msgptr; intros [=]. Qed.

Lemma dispatch_ports (p : Z) (msg : shim_ipc_msg) (ret : Z) (st : ipc_state) :
  ports (dispatch p msg ret st).2 = ports st.
Proof.
  unfold dispatch. destruct (negb _); [| reflexivity].
  destruct (_ && _); reflexivity.
Qed.

Lemma DkStreamRead_ports (handle n : Z) (st : ipc_state) :
  ports (DkStreamRead handle n st).2 = ports st.
Proof.
  unfold DkStreamRead.
  destruct (default [] (streams st !! handle)) as [| [d | e] rest]; reflexivity.
Qed.

Lemma recv_process_handed
  (k : Z -> list Z -> Z -> ipc_state -> outcome (Z * recv_out))
  (p seq_ : Z) (msgptr : msgptr_t) (msg : shim_ipc_msg) (buf : list Z)
  (ret : Z) (st st' : ipc_state) (r : Z) (hdr : shim_ipc_msg) (data : list Z) :
  (forall e b r0 s, k e b r0 s = Done (r, OutMsg hdr data) st' ->
                    ports st' = ports s /\ r = 0 /\ handed msgptr seq_ hdr data) ->
  recv_process k p seq_ msgptr msg buf ret st = Done (r, OutMsg hdr data) st' ->
  ports st' = ports st /\ r = 0 /\ handed msgptr seq_ hdr data.
Proof.
  intros Hk. unfold recv_process.
  destruct (src msg =? cur_process_vmid).
  - destruct (_ || _); [apply Hk |].
    intros Hc. now apply recv_finish_no_msg in Hc.
  - pose proof (dispatch_ports p msg ret st) as Hp.
    destruct (dispatch p msg ret st) as [ret' st1]. cbn [snd] in Hp.
    destruct (_ || _).
    + intros Hr. apply Hk in Hr. now rewrite <- Hp.
    + intros Hc. now apply recv_finish_no_msg in Hc.
Qed.

Lemma recv_after_read_handed
  (k : Z -> list Z -> Z -> ipc_state -> outcome (Z * recv_out))
  (p seq_ : Z) (msgptr : msgptr_t) (buf : list Z) (ret : Z)
  (st st' : ipc_state) (r : Z) (hdr : shim_ipc_msg) (data : list Z) :
  (forall e b r0 s, k e b r0 s = Done (r, OutMsg hdr data) st' ->
                    ports st' = ports s /\ r = 0 /\ handed msgptr seq_ hdr data) ->
  recv_after_read k p seq_ msgptr buf ret st = Done (r, OutMsg hdr data) st' ->
  ports st' = ports st /\ r = 0 /\ handed msgptr seq_ hdr data.
Proof.
  intros Hk. unfold recv_after_read.
  destruct (Z.of_nat (length buf) =? 0).
  - destruct (negb (pal_errno st =? 0)).
    + destruct (del_ipc_port_fini p (to_uint (- ECHILD)) st) as [[] s | s | s];
        [| discriminate | discriminate].
      intros Hc. now apply recv_finish_no_msg in Hc.
    + intros Hc. now apply recv_finish_no_msg in Hc.
  - destruct (Z.of_nat (length buf) <? size (msg_view buf)); [apply Hk |].
    destruct msgptr as [target |]; [| now apply recv_process_handed].
    destruct ((seq_ =? 0) || (seq (msg_view buf) =? seq_)) eqn:Em;
      [| now apply recv_process_handed].
    intros [= <- <- <- <-]. split; [reflexivity |]. split; [reflexivity |].
    exists target. split; [reflexivity |]. simpl. split; [| split].
    + apply orb_prop in Em as [Em | Em]; [left | right]; lia.
    + rewrite length_take. lia.
    + intros cap ->.
      destruct (size (msg_view buf) >? cap) eqn:Ec; lia.
Qed.

Lemma recv_loop_handed (fuel : nat) (p seq_ : Z) (msgptr : msgptr_t)
  (st' : ipc_state) (r : Z) (hdr : shim_ipc_msg) (data : list Z) :
  forall (expected_size : Z) (buf : list Z) (ret : Z) (st : ipc_state),
    recv_loop fuel p seq_ msgptr expected_size buf ret st
    = Done (r, OutMsg hdr data) st' ->
    ports st' = ports st /\ r = 0 /\ handed msgptr seq_ hdr data.
Proof.
  induction fuel as [| fuel IH]; intros expected_size buf ret st;
    [discriminate |].
  cbn [recv_loop].
  destruct (Z.of_nat (length buf) <? expected_size).
  - pose proof (DkStreamRead_ports (pal_handle (port_at st p))
                  (expected_size - Z.of_nat (length buf) + IPC_MSG_READAHEAD)
                  st) as Hp.
    destruct (DkStreamRead _ _ st) as [rd st1]. cbn [snd] in Hp.
    rewrite <- Hp.
    destruct (Z.of_nat (length rd) =? 0).
    + apply recv_after_read_handed. intros e b r0 s. apply IH.
    + apply IH.
  - apply recv_after_read_handed. intros e b r0 s. apply IH.
Qed.

(** When the routine leaves a message with the caller, the caller had passed
    a [msgptr], the message carries the awaited sequence number (any, if
    none was awaited), its size field and the bytes copied do not exceed the
    caller's buffer, the return value is 0, and the reference the routine
    took on entry is not given back: the port has one reference more than
    before. *)
Theorem receive_hands_over (fuel : nat) (p seq_ : Z) (msgptr : msgptr_t)
  (st st' : ipc_state) (r : Z) (hdr : shim_ipc_msg) (data : list Z) :
  receive_ipc_message fuel p seq_ msgptr st = Done (r, OutMsg hdr data) st' ->
  r = 0 /\ handed msgptr seq_ hdr data /\
  ref_count (port_at st' p) = ref_count (port_at st p) + 1 /\
  (forall q, q <> p -> port_at st' q = port_at st q).
Proof.
  unfold receive_ipc_message, get_ipc_port. intros Hr.
  apply recv_loop_handed in Hr as (Hp & Hr & Hh).
  split; [exact Hr |]. split; [exact Hh |].
  unfold port_at at 1 3. rewrite Hp.
  change (ports (__get_ipc_port p st) !!! p)
    with (port_at (__get_ipc_port p st) p).
  rewrite port_at_get_eq. split; [reflexivity |].
  intros q Hq. change (port_at (__get_ipc_port p st) q = port_at st q).
  now apply port_at_get_ne.
Qed.

(** While a message is only partly read and the stream has nothing more to
    deliver, the routine does not return: every read comes back empty and
    is retried, however long the run.  The sizes are those the routine's
    [int] arithmetic holds without wrap-around: with the read-ahead added
    they stay within 2^30, so that the size field is the [expected_size]
    the code compares with and the doubling of [bufsize] ends. *)
Theorem receive_partial_never_returns (fuel : nat) (p seq_ : Z)
  (msgptr : msgptr_t) (buf : list Z) (st : ipc_state) :
  default [] (streams st !! pal_handle (port_at st p)) = [] ->
  0 < Z.of_nat (length buf) < size (msg_view buf) ->
  0 <= IPC_MSG_READAHEAD ->
  size (msg_view buf) + IPC_MSG_READAHEAD <= 2 ^ 30 ->
  forall expected_size ret,
    Z.of_nat (length buf) < expected_size ->
    expected_size + IPC_MSG_READAHEAD <= 2 ^ 30 ->
    recv_loop fuel p seq_ msgptr expected_size buf ret st = Fuel st.
Proof.
  intros Hs Hb Hra Hfit.
  induction fuel as [| fuel IH]; intros expected_size ret He Hfe;
    [reflexivity |].
  cbn [recv_loop].
  destruct (Z.of_nat (length buf) <? expected_size) eqn:E1; [| lia].
  unfold DkStreamRead. rewrite Hs. cbn [length Z.of_nat].
  rewrite Z.eqb_refl. unfold recv_after_read.
  destruct (Z.of_nat (length buf) =? 0) eqn:E0; [lia |].
  destruct (Z.of_nat (length buf) <? size (msg_view buf)) eqn:E2; [| lia].
  apply IH; [lia | exact Hfit].
Qed.

Lemma rs_refl (st : ipc_state) : response_step st st.
Proof. exists []. now rewrite app_nil_r. Qed.

Lemma rs_trans (st1 st2 st3 : ipc_state) :
  response_step st1 st2 -> response_step st2 st3 -> response_step st1 st3.
Proof.
  intros (es1 & T1 & C1) (es2 & T2 & C2). exists (es1 ++ es2). split.
  - now rewrite T2, T1, app_assoc.
  - now rewrite forallb_app, C1, C2.
Qed.

Lemma rs_bookkeeping (st st' : ipc_state) :
  bookkeeping_step st st' -> response_step st st'.
Proof.
  intros (es & T & C). exists es. split; [exact T |].
  apply forallb_forall. intros e He.
  pose proof (proj1 (forallb_forall _ _) C e He) as Hb.
  destruct e; try discriminate; reflexivity.
Qed.

Lemma rs_emit (e : event) (st : ipc_state) :
  response_ok e = true -> response_step st (emit e st).
Proof. intros He. exists [e]. split; [reflexivity | simpl; now rewrite He]. Qed.

Lemma rs_fold (A : Type) (f : ipc_state -> A -> ipc_state) (l : list A) :
  (forall st a, response_step st (f st a)) ->
  forall st, response_step st (fold_left f l st).
Proof.
  intros Hf. induction l as [| a l IH]; intros st; simpl; [apply rs_refl |].
  eapply rs_trans; [apply Hf | apply IH].
Qed.

Lemma rs_wake (st : ipc_state) (m : shim_ipc_msg_obj) :
  response_step st (wake_msg st m).
Proof.
  unfold wake_msg. destruct (negb _).
  - apply (rs_trans _ (emit (EvMsgRetval (mo_addr m) (- ECONNRESET)) st));
      now apply rs_emit.
  - now apply rs_emit.
Qed.

Lemma rs_del_ipc_port_fini (p exitcode : Z) (st : ipc_state) :
  response_step st (final_state (del_ipc_port_fini p exitcode st)).
Proof.
  unfold del_ipc_port_fini.
  destruct (negb (0 <? ref_count (port_at st p))); [apply rs_refl |].
  cbv zeta.
  set (st1 := __get_ipc_port p _).
  assert (Q1 : response_step st st1) by (exists []; now rewrite app_nil_r).
  pose proof (rs_bookkeeping _ _ (bk_del p 0 st1)) as Q2.
  destruct (__del_ipc_port p 0 st1) as [need_restart st2]. cbn [snd] in Q2.
  set (st3 := fold_left _ _ st2).
  assert (Q3 : response_step st2 st3).
  { subst st3. apply rs_fold. intros s cb. now apply rs_emit. }
  set (st3' := if negb (list_empty st3 p) then _ else st3).
  assert (Q3' : response_step st3 st3').
  { subst st3'. destruct (negb (list_empty st3 p)); [| apply rs_refl].
    eapply rs_trans; [| exists []; now rewrite app_nil_r].
    apply rs_fold. apply rs_wake. }
  assert (Q4 : response_step st (put_ipc_port p st3')).
  { eapply rs_trans; [exact Q1 |]. eapply rs_trans; [exact Q2 |].
    eapply rs_trans; [exact Q3 |]. eapply rs_trans; [exact Q3' |].
    apply rs_bookkeeping, bk_put. }
  destruct (negb (0 <? ref_count (port_at (put_ipc_port p st3') p)));
    [exact Q4 |].
  simpl. destruct need_restart; [| exact Q4].
  eapply rs_trans; [exact Q4 | apply rs_bookkeeping, bk_restart_false].
Qed.

Lemma rs_dispatch (p : Z) (msg : shim_ipc_msg) (ret : Z) (st : ipc_state) :
  src msg <> cur_process_vmid ->
  response_step st (dispatch p msg ret st).2.
Proof.
  intros Hsrc. unfold dispatch.
  destruct (negb (ipc_callbacks (code msg) =? 0)); [| apply rs_refl].
  set (cb := ipc_callbacks (code msg)).
  set (r := callback_ret cb msg p).
  destruct (((r <? 0) || (r =? RESPONSE_CALLBACK)) && negb (seq msg =? 0))
    eqn:Eg; cbn [snd]; [| now apply rs_emit].
  unfold __response_ipc_message. cbn [snd].
  apply (rs_trans _ (emit (EvCallback cb msg p) st)); [now apply rs_emit |].
  apply rs_emit. simpl.
  apply andb_prop in Eg as [Er Es]. rewrite Es.
  apply Z.eqb_neq in Hsrc. rewrite Hsrc. simpl.
  destruct (r =? RESPONSE_CALLBACK) eqn:Ec; [reflexivity |].
  rewrite orb_false_r in Er. lia.
Qed.

Lemma rs_finish (p : Z) (msgptr : msgptr_t) (ret : Z) (st : ipc_state) :
  response_step st (final_state (recv_finish p msgptr ret st)).
Proof. simpl. apply rs_bookkeeping, bk_put. Qed.

Lemma rs_process
  (k : Z -> list Z -> Z -> ipc_state -> outcome (Z * recv_out))
  (p seq_ : Z) (msgptr : msgptr_t) (msg : shim_ipc_msg) (buf : list Z)
  (ret : Z) (st : ipc_state) :
  (forall e b r s, response_step s (final_state (k e b r s))) ->
  response_step st (final_state (recv_process k p seq_ msgptr msg buf ret st)).
Proof.
  intros Hk. unfold recv_process.
  destruct (src msg =? cur_process_vmid) eqn:Es.
  - destruct (_ || _); [apply Hk | apply rs_finish].
  - apply Z.eqb_neq in Es. pose proof (rs_dispatch p msg ret st Es) as Hd.
    destruct (dispatch p msg ret st) as [ret' st1]. cbn [snd] in Hd.
    eapply rs_trans; [exact Hd |].
    destruct (_ || _); [apply Hk | apply rs_finish].
Qed.

Lemma rs_after_read
  (k : Z -> list Z -> Z -> ipc_state -> outcome (Z * recv_out))
  (p seq_ : Z) (msgptr : msgptr_t) (buf : list Z) (ret : Z) (st : ipc_state) :
  (forall e b r s, response_step s (final_state (k e b r s))) ->
  response_step st (final_state (recv_after_read k p seq_ msgptr buf ret st)).
Proof.
  intros Hk. unfold recv_after_read.
  destruct (Z.of_nat (length buf) =? 0).
  - destruct (negb (pal_errno st =? 0)); [| apply rs_finish].
    pose proof (rs_del_ipc_port_fini p (to_uint (- ECHILD)) st) as Hq.
    destruct (del_ipc_port_fini p (to_uint (- ECHILD)) st) as [[] s | s | s];
      simpl in Hq; [| exact Hq | exact Hq].
    eapply rs_trans; [exact Hq | apply rs_finish].
  - destruct (Z.of_nat (length buf) <? size (msg_view buf)); [apply Hk |].
    destruct msgptr as [target |]; [| now apply rs_process].
    destruct ((seq_ =? 0) || (seq (msg_view buf) =? seq_));
      [apply rs_refl | now apply rs_process].
Qed.

Lemma rs_loop (fuel : nat) (p seq_ : Z) (msgptr : msgptr_t) :
  forall (expected_size : Z) (buf : list Z) (ret : Z) (st : ipc_state),
    response_step st
      (final_state (recv_loop fuel p seq_ msgptr expected_size buf ret st)).
Proof.
  induction fuel as [| fuel IH]; intros expected_size buf ret st;
    [apply rs_refl |].
  cbn [recv_loop].
  destruct (Z.of_nat (length buf) <? expected_size).
  - pose proof (DkStreamRead_trace (pal_handle (port_at st p))
                  (expected_size - Z.of_nat (length buf) + IPC_MSG_READAHEAD)
                  st) as Ht.
    destruct (DkStreamRead _ _ st) as [data st1]. cbn [snd] in Ht.
    assert (Q : response_step st st1) by (exists []; now rewrite app_nil_r).
    eapply rs_trans; [exact Q |].
    destruct (Z.of_nat (length data) =? 0).
    + now apply rs_after_read.
    + apply IH.
  - now apply rs_after_read.
Qed.

(** Over a whole run, whatever the stream delivers and wherever the run
    stops, every response the routine sends goes to another process,
    answers a message with a non-zero sequence number, and carries a value
    that is negative or 0, never the marker RESPONSE_CALLBACK when that is
    positive. *)
Theorem receive_responses (fuel : nat) (p seq_ : Z) (msgptr : msgptr_t)
  (st : ipc_state) :
  exists es,
    trace (final_state (receive_ipc_message fuel p seq_ msgptr st))
    = trace st ++ es /\
    forall q dest ret s,
      In (EvResponse q dest ret s) es ->
      dest <> cur_process_vmid /\ s <> 0 /\ ret <= 0.
Proof.
  unfold receive_ipc_message.
  destruct (rs_loop fuel p seq_ msgptr IPC_MSG_MINIMAL_SIZE [] 0
              (get_ipc_port p st)) as (es & T & C).
  exists es. split; [exact T |].
  intros q dest ret s Hin.
  pose proof (proj1 (forallb_forall _ _) C _ Hin) as Hok. simpl in Hok.
  apply andb_prop in Hok as [Hok Hr]. apply andb_prop in Hok as [Hd Hs].
  apply negb_true_iff in Hd, Hs. lia.
Qed.

End ReceiveMoreFacts.

Lemma receive_hands_over_witness :
  exists st',
    Ipc.receive_ipc_message (H := sample_env) 10 1000 0 (Some (Some 10))
      sample_state_echo
    = Ipc.Done (0, Ipc.OutMsg (Ipc.mkMsg 1 10 1 0 0)
                     (take 10 (sample_msg_set_size 10 (sample_frame 1 1 0 0)))) st' /\
    Ipc.ref_count (Ipc.port_at st' 1000) = 4.
Proof.
  eexists. split; [vm_compute; reflexivity |].
  match goal with
  | |- Ipc.ref_count (Ipc.port_at ?s 1000) = _ =>
      destruct (receive_hands_over (H := sample_env) 10 1000 0 (Some (Some 10))
                  sample_state_echo s 0 (Ipc.mkMsg 1 10 1 0 0)
                  (take 10 (sample_msg_set_size 10 (sample_frame 1 1 0 0)))
                  ltac:(vm_compute; reflexivity)) as (_ & _ & Href & _)
  end.
  rewrite Href. vm_compute. reflexivity.
Defined.

Lemma receive_partial_never_returns_witness :
  Ipc.recv_loop (H := sample_env) 50 2000 0 None 22 [1; 0; 30; 0; 0; 0] 0
    sample_state
  = Ipc.Fuel sample_state.
Proof.
  apply (receive_partial_never_returns (H := sample_env) 50 2000 0 None
           [1; 0; 30; 0; 0; 0] sample_state).
  - vm_compute. reflexivity.
  - vm_compute. split; reflexivity.
  - vm_compute. discriminate.
  - vm_compute. discriminate.
  - vm_compute. reflexivity.
  - vm_compute. discriminate.
Defined.

(** ** The broadcast channel *)

Section BroadcastMoreFacts.

Import Ipc.
Context `{Env}.

Lemma broadcast_walk_none (exclude : list Z) (l : list Z)
  (msg : shim_ipc_msg) (st : ipc_state) :
  fold_left (broadcast_one exclude 0) l (msg, st) = (msg, st).
Proof.
  induction l as [| q l IH]; simpl; [reflexivity |].
  now rewrite tst_zero.
Qed.

Lemma put_ipc_port_broadcast_port (p : Z) (st : ipc_state) :
  broadcast_port (__put_ipc_port p st) = broadcast_port st.
Proof.
  unfold __put_ipc_port. destruct (ref_count _ =? 0); [| reflexivity].
  now destruct (negb _).
Qed.

(** A broadcast with the empty target mask, by its sends. *)
Lemma broadcast_ipc_untargeted (msg : shim_ipc_msg) (exclude : list Z)
  (st : ipc_state) :
  let res := broadcast_ipc msg exclude 0 st in
  res.1.1 = 0 /\ res.1.2 = msg /\
  sends_of (trace res.2)
  = sends_of (trace st)
    ++ (if (broadcast_port st =? 0) || memb (broadcast_port st) exclude
        then [] else [(msg, broadcast_port st)]) /\
  pobj_list res.2 = pobj_list st /\
  broadcast_port res.2 = broadcast_port st.
Proof.
  intros res. subst res. unfold broadcast_ipc. simpl.
  destruct (broadcast_port st =? 0) eqn:Eb; simpl.
  - rewrite broadcast_walk_none. simpl. now rewrite app_nil_r.
  - destruct (memb (broadcast_port st) exclude) eqn:Em; simpl.
    + now rewrite app_nil_r.
    + set (st1 := put_ipc_port (broadcast_port st)
                    (emit (EvSend msg (broadcast_port st))
                       (get_ipc_port (broadcast_port st) st))).
      assert (S1 : sends_of (trace st1)
                   = sends_of (trace st) ++ [(msg, broadcast_port st)]).
      { subst st1. unfold put_ipc_port. rewrite put_ipc_port_sends. simpl.
        now rewrite sends_of_app. }
      assert (L1 : pobj_list st1 = pobj_list st).
      { subst st1. unfold put_ipc_port.
        now destruct (put_ipc_port_frame (broadcast_port st)
                        (emit (EvSend msg (broadcast_port st))
                           (get_ipc_port (broadcast_port st) st)))
          as (-> & _). }
      assert (B1 : broadcast_port st1 = broadcast_port st)
        by (subst st1; unfold put_ipc_port;
            now rewrite put_ipc_port_broadcast_port).
      destruct (send_ipc_message msg (broadcast_port st) =? 0); simpl.
      * auto.
      * rewrite broadcast_walk_none. simpl. auto.
Qed.

(** With the empty target mask the message goes to the broadcast port and
    to nobody else: it is sent once, unchanged, if a broadcast port is set
    and not excluded, and not at all otherwise; a failed send is not made up
    for, and the call returns 0 all the same. *)
Theorem broadcast_ipc_channel (msg : shim_ipc_msg) (exclude : list Z)
  (st : ipc_state) :
  let res := broadcast_ipc msg exclude 0 st in
  res.1.1 = 0 /\ res.1.2 = msg /\
  sends_of (trace res.2)
  = sends_of (trace st)
    ++ (if (broadcast_port st =? 0) || memb (broadcast_port st) exclude
        then [] else [(msg, broadcast_port st)]) /\
  pobj_list res.2 = pobj_list st /\
  broadcast_port res.2 = broadcast_port st.
Proof. apply broadcast_ipc_untargeted. Qed.

(** The fini callback of the broadcast port: called for the broadcast port
    it forgets the port and gives up its reference, so that a later
    broadcast with the empty target mask sends nothing; called for any other
    port it does nothing. *)
Theorem ipc_broadcast_exit_effect (port : Z) (st : ipc_state) :
  let st' := ipc_broadcast_exit port st in
  (port <> broadcast_port st -> st' = st) /\
  (port = broadcast_port st ->
     broadcast_port st' = 0 /\
     ref_count (port_at st' port) = ref_count (port_at st port) - 1 /\
     forall msg exclude,
       sends_of (trace (broadcast_ipc msg exclude 0 st').2)
       = sends_of (trace st)).
Proof.
  intros st'. subst st'. unfold ipc_broadcast_exit. split.
  - intros Hne. apply Z.eqb_neq in Hne. now rewrite Hne.
  - intros ->. rewrite Z.eqb_refl. unfold put_ipc_port.
    set (bp := broadcast_port st).
    assert (B : broadcast_port (__put_ipc_port bp (set_broadcast_port 0 st)) = 0)
      by now rewrite put_ipc_port_broadcast_port.
    split; [exact B |]. split.
    + now destruct (put_ipc_port_frame bp (set_broadcast_port 0 st))
        as (_ & _ & _ & _ & _ & -> & _).
    + intros msg exclude.
      destruct (broadcast_ipc_untargeted msg exclude
                  (__put_ipc_port bp (set_broadcast_port 0 st)))
        as (_ & _ & S & _).
      cbv zeta in S. rewrite S, B. simpl.
      now rewrite app_nil_r, put_ipc_port_sends.
Qed.

End BroadcastMoreFacts.
